(** * LineageAtlas: the GEDCOM/CSV ingestion pipeline, the in-memory store
      and the narrative builder, embedded in Rocq.

    The TypeScript sources are translated function by function.  A
    JavaScript string is a sequence of UTF-16 code units; this development
    covers the strings whose code units are below 256 and writes one
    [ascii] per code unit.  [null] and [undefined] are both written [None]
    where the embedded code only tests them for truthiness, compares them
    with a string or copies them; the member id of an event, which is also
    used as a property key, keeps the two apart. *)

From Stdlib Require Import String Ascii ZArith List Bool Lia DecimalString DecimalNat Sorted.
From stdpp Require Import base option list gmap strings.

Local Open Scope string_scope.
Local Open Scope list_scope.
Local Open Scope Z_scope.

(** ** JavaScript string primitives used by the sources *)

Module JS.

(** [WhiteSpace] and [LineTerminator] code units below 256: the set that
    [String.prototype.trim] strips and that [parseInt] skips. *)
Definition isWhiteSpace (c : ascii) : bool :=
  let n := nat_of_ascii c in
  existsb (Nat.eqb n) [9; 10; 11; 12; 13; 32; 160]%nat.

Fixpoint trimStart (s : string) : string :=
  match s with
  | EmptyString => EmptyString
  | String c r => if isWhiteSpace c then trimStart r else s
  end.

Fixpoint trimEnd (s : string) : string :=
  match s with
  | EmptyString => EmptyString
  | String c r =>
      match trimEnd r with
      | EmptyString => if isWhiteSpace c then EmptyString else String c EmptyString
      | r' => String c r'
      end
  end.

(** [s.trim()] *)
Definition trim (s : string) : string := trimEnd (trimStart s).

(** Truthiness of a string: only the empty string is falsy. *)
Definition nonEmpty (s : string) : bool :=
  match s with EmptyString => false | String _ _ => true end.

(** Truthiness of a value of type [string | undefined]. *)
Definition truthy (v : option string) : bool :=
  match v with Some s => nonEmpty s | None => false end.

(** A value of type [T | null | undefined] where the code tells [null]
    and [undefined] apart. *)
Inductive nullable (T : Type) : Type :=
| Undefined
| Null
| Value (v : T).

Arguments Undefined {T}.
Arguments Null {T}.
Arguments Value {T} v.

(** [a || b] on values of type [string | undefined]. *)
Definition or (a b : option string) : option string :=
  if truthy a then a else b.

(** [s.startsWith(p)] *)
Fixpoint startsWith (s p : string) : bool :=
  match p with
  | EmptyString => true
  | String a p' =>
      match s with
      | EmptyString => false
      | String b s' => Ascii.eqb a b && startsWith s' p'
      end
  end.

(** [s.includes(p)] *)
Fixpoint includes (s p : string) : bool :=
  startsWith s p ||
  match s with
  | EmptyString => false
  | String _ r => includes r p
  end.

(** [s.split(sep)] for a non-empty separator.  [split_go sep skip s]
    returns the piece being read and the pieces after it; [skip] counts the
    code units of a matched separator that are still to be passed over. *)
Fixpoint split_go (sep : string) (skip : nat) (s : string) : string * list string :=
  match s with
  | EmptyString => (EmptyString, [])
  | String c r =>
      match skip with
      | S k => split_go sep k r
      | O =>
          if startsWith s sep then
            let '(p, ps) := split_go sep (String.length sep - 1) r in
            (EmptyString, p :: ps)
          else
            let '(p, ps) := split_go sep 0 r in
            (String c p, ps)
      end
  end.

Definition split (s sep : string) : list string :=
  let '(p, ps) := split_go sep 0 s in p :: ps.

(** [parts.join(sep)] *)
Definition join (parts : list string) (sep : string) : string :=
  String.concat sep parts.

(** [s.replace(/c/g, '')] for a one-character pattern. *)
Fixpoint removeAll (c : ascii) (s : string) : string :=
  match s with
  | EmptyString => EmptyString
  | String a r => if Ascii.eqb a c then removeAll c r else String a (removeAll c r)
  end.

(** [s.toLowerCase()] on code units below 256: A-Z, and U+00C0-U+00DE
    without the multiplication sign U+00D7. *)
Definition lowerChar (c : ascii) : ascii :=
  let n := nat_of_ascii c in
  if ((65 <=? n) && (n <=? 90) ||
      (192 <=? n) && (n <=? 222) && negb (n =? 215))%nat
  then ascii_of_nat (n + 32) else c.

Fixpoint toLowerCase (s : string) : string :=
  match s with
  | EmptyString => EmptyString
  | String c r => String (lowerChar c) (toLowerCase r)
  end.

(** Value of a code unit as a digit of the given radix. *)
Definition digitValue (radix : Z) (c : ascii) : option Z :=
  let n := Z.of_nat (nat_of_ascii c) in
  let v := if (48 <=? n) && (n <=? 57) then Some (n - 48)
           else if (97 <=? n) && (n <=? 122) then Some (n - 87)
           else if (65 <=? n) && (n <=? 90) then Some (n - 55)
           else None in
  match v with
  | Some d => if d <? radix then Some d else None
  | None => None
  end.

(** The longest prefix of digits, read left to right; [None] when the
    prefix is empty. *)
Fixpoint digits (radix : Z) (acc : option Z) (s : string) : option Z :=
  match s with
  | EmptyString => acc
  | String c r =>
      match digitValue radix c with
      | Some d => digits radix (Some (default 0 acc * radix + d)) r
      | None => acc
      end
  end.

(** [parseInt(s)] with no radix argument.  [None] is NaN.  The result is
    the mathematical integer that was read: the callers only compare it
    with 0, 1 and 2 by [===], and rounding to a double neither creates nor
    destroys such an equality; [-0 === 0] holds, so -0 is written 0. *)
Definition parseInt (s : string) : option Z :=
  let s1 := trimStart s in
  let '(neg, s2) :=
    match s1 with
    | String "-" r => (true, r)
    | String "+" r => (false, r)
    | _ => (false, s1)
    end in
  let '(radix, s3) :=
    match s2 with
    | String "0" (String "x" r) => (16, r)
    | String "0" (String "X" r) => (16, r)
    | _ => (10, s2)
    end in
  match digits radix None s3 with
  | Some v => Some (if neg : bool then - v else v)
  | None => None
  end.

(** Template-literal rendering of a non-negative integer. *)
Definition showNat (n : nat) : string :=
  NilZero.string_of_uint (Nat.to_uint n).

(** *** Reading a text as a number *)

(** The digits of the given radix at the head of [s], and the rest. *)
Fixpoint spanDigits (radix : Z) (s : string) : string * string :=
  match s with
  | EmptyString => (EmptyString, EmptyString)
  | String c r =>
      match digitValue radix c with
      | Some _ => let '(d, t) := spanDigits radix r in (String c d, t)
      | None => (EmptyString, s)
      end
  end.

(** The value of a text of digits; 0 for the empty text. *)
Definition digitsValue (radix : Z) (d : string) : Z := default 0 (digits radix None d).

(** [ExponentPart], when [s] is one or is empty: the exponent. *)
Definition exponentPart (s : string) : option Z :=
  match s with
  | EmptyString => Some 0
  | String c r =>
      if Ascii.eqb c "e" || Ascii.eqb c "E" then
        let '(neg, r') :=
          match r with
          | String "-" t => (true, t)
          | String "+" t => (false, t)
          | _ => (false, r)
          end in
        match spanDigits 10 r' with
        | (String _ _ as d, EmptyString) =>
            Some (if neg : bool then - digitsValue 10 d else digitsValue 10 d)
        | _ => None
        end
      else None
  end.

(** Whether the double nearest to [m * 10^k], for a natural [m], is
    greater than 0: [m * 10^k] is above 2^-1075, half of the least positive
    double (a tie rounds to the even neighbour, which is 0). *)
Definition roundsAboveZero (m k : Z) : bool :=
  (0 <? m) && ((0 <=? k) || (10 ^ (- k) <? m * 2 ^ 1075)).

(** [StrUnsignedDecimalLiteral] other than [Infinity]: whether [s] is one
    and, if so, whether its value is greater than 0 as a double. *)
Definition unsignedDecimalPositive (s : string) : option bool :=
  let '(ip, r1) := spanDigits 10 s in
  let '(dot, fp, r2) :=
    match r1 with
    | String "." r => let '(fp, r2) := spanDigits 10 r in (true, fp, r2)
    | _ => (false, EmptyString, r1)
    end in
  if nonEmpty ip || (dot && nonEmpty fp) then
    match exponentPart r2 with
    | Some e =>
        Some (roundsAboveZero (digitsValue 10 (ip +:+ fp)) (e - Z.of_nat (String.length fp)))
    | None => None
    end
  else None.

(** A literal with the prefix of a radix other than ten: whether the rest
    is a non-empty text of digits of that radix with a value other than 0. *)
Definition nonDecimalPositive (radix : Z) (r : string) : bool :=
  match spanDigits radix r with
  | (String _ _ as d, EmptyString) => 0 <? digitsValue radix d
  | _ => false
  end.

(** [Number(s) > 0]: the text is read as a [StringNumericLiteral] between
    optional white space; a text that is none reads as NaN, the empty text
    as 0. *)
Definition positive (s : string) : bool :=
  match trim s with
  | EmptyString => false
  | String "-" _ => false
  | String "+" r =>
      String.eqb r "Infinity" || default false (unsignedDecimalPositive r)
  | String "0" (String c r) as t =>
      if Ascii.eqb c "x" || Ascii.eqb c "X" then nonDecimalPositive 16 r
      else if Ascii.eqb c "o" || Ascii.eqb c "O" then nonDecimalPositive 8 r
      else if Ascii.eqb c "b" || Ascii.eqb c "B" then nonDecimalPositive 2 r
      else default false (unsignedDecimalPositive t)
  | t => String.eqb t "Infinity" || default false (unsignedDecimalPositive t)
  end.

End JS.

(** ** JSON values *)

Module Json.

(** A value that [response.json()] returns.  A number is kept as the text
    that [String(n)] gives for it, which names the double. *)
Local Unset Elimination Schemes.

Inductive value : Type :=
| JNull
| JBool (b : bool)
| JNumber (shown : string)
| JString (s : string)
| JArray (elements : list value)
| JObject (members : list (string * value)).

Local Set Elimination Schemes.

(** Truthiness. *)
Definition truthy (v : value) : bool :=
  match v with
  | JNull => false
  | JBool b => b
  | JNumber shown => negb (String.eqb shown "0")
  | JString s => JS.nonEmpty s
  | JArray _ => true
  | JObject _ => true
  end.

(** [String(v)]; an array joins its elements with commas, [null]
    elements as the empty text. *)
Fixpoint toString (v : value) : string :=
  match v with
  | JNull => "null"
  | JBool b => if b then "true" else "false"
  | JNumber shown => shown
  | JString s => s
  | JArray elements =>
      JS.join (List.map (fun x => match x with JNull => "" | _ => toString x end) elements) ","
  | JObject _ => "[object Object]"
  end.

(** The own property [key] of a parsed object; of two members with the
    same name the later one is kept. *)
Fixpoint getOwn (key : string) (members : list (string * value)) : option value :=
  match members with
  | [] => None
  | (k, v) :: rest =>
      match getOwn key rest with
      | Some v' => Some v'
      | None => if String.eqb k key then Some v else None
      end
  end.

(** [v > 0] *)
Definition greaterThanZero (v : value) : bool :=
  match v with
  | JNull => false
  | JBool b => b
  | JNumber shown => JS.positive shown
  | JString s => JS.positive s
  | JArray _ => JS.positive (toString v)
  | JObject _ => false
  end.

(** [data.length > 0] *)
Definition lengthPositive (data : value) : bool :=
  match data with
  | JString s => JS.nonEmpty s
  | JArray elements => match elements with [] => false | _ :: _ => true end
  | JObject members =>
      match getOwn "length" members with
      | Some v => greaterThanZero v
      | None => false
      end
  | _ => false
  end.

(** [data[0]]; [None] is [undefined]. *)
Definition first (data : value) : option value :=
  match data with
  | JString (String c _) => Some (JString (String c EmptyString))
  | JArray (x :: _) => Some x
  | JObject members => getOwn "0" members
  | _ => None
  end.

(** [x[key]] for a value other than [null] and a key that no prototype
    and no string or array defines, such as [lat] and [lon]. *)
Definition member (key : string) (x : value) : option value :=
  match x with
  | JObject members => getOwn key members
  | _ => None
  end.

(** [String(u)] for a value or [undefined]. *)
Definition shown (u : option value) : string :=
  match u with
  | Some v => toString v
  | None => "undefined"
  end.

End Json.

(** ** The GEDCOM and CSV parsers (client library) *)

Module Gedcom.

(** A call either returns or throws; the only exception the embedded
    code can raise is a [TypeError] on a property read of [undefined]. *)
Inductive result (A : Type) : Type :=
| Ok (a : A)
| TypeError.
Arguments Ok {A} a.
Arguments TypeError {A}.

Definition bind {A B : Type} (r : result A) (k : A -> result B) : result B :=
  match r with
  | Ok a => k a
  | TypeError => TypeError
  end.

Record GedcomEvent : Type := mkEvent {
  ev_type : string;
  ev_date : option string;
  ev_place : option string;
  ev_description : option string
}.

Record GedcomIndividual : Type := mkIndividual {
  ind_id : string;
  ind_name : string;
  ind_birthDate : option string;
  ind_deathDate : option string;
  ind_birthPlace : option string;
  ind_deathPlace : option string;
  ind_notes : option string;
  ind_events : list GedcomEvent
}.

Record GedcomFamily : Type := mkFamily {
  fam_id : string;
  fam_husband : option string;
  fam_wife : option string;
  fam_children : list string;
  fam_marriageDate : option string;
  fam_marriagePlace : option string
}.

Record ParsedGedcomData : Type := mkParsed {
  individuals : list GedcomIndividual;
  families : list GedcomFamily;
  events : list GedcomEvent
}.

Inductive context : Type := individual | family.

(** The variables of [parseGedcom]: the three output arrays and the four
    [current*] slots.  An object pushed to an output array is never
    written to afterwards (a write needs [currentContext] to name its
    kind, and that is only set together with a fresh object), so the
    arrays hold values. *)
Record state : Type := mkState {
  out : ParsedGedcomData;
  currentContext : option context;
  currentIndividual : option GedcomIndividual;
  currentFamily : option GedcomFamily;
  currentEvent : option GedcomEvent
}.

Definition initial : state :=
  mkState (mkParsed [] [] []) None None None None.

(** [{ type: t }] *)
Definition newEvent (t : string) : GedcomEvent := mkEvent t None None None.

(** [{ id: tag, name: '', events: [] }] *)
Definition newIndividual (tag : string) : GedcomIndividual :=
  mkIndividual tag "" None None None None None [].

(** [{ id: tag, children: [] }] *)
Definition newFamily (tag : string) : GedcomFamily :=
  mkFamily tag None None [] None None.

Definition set_date (e : GedcomEvent) (v : option string) : GedcomEvent :=
  mkEvent (ev_type e) v (ev_place e) (ev_description e).
Definition set_place (e : GedcomEvent) (v : option string) : GedcomEvent :=
  mkEvent (ev_type e) (ev_date e) v (ev_description e).

Definition set_name (i : GedcomIndividual) (v : string) : GedcomIndividual :=
  mkIndividual (ind_id i) v (ind_birthDate i) (ind_deathDate i)
    (ind_birthPlace i) (ind_deathPlace i) (ind_notes i) (ind_events i).
Definition set_notes (i : GedcomIndividual) (v : option string) : GedcomIndividual :=
  mkIndividual (ind_id i) (ind_name i) (ind_birthDate i) (ind_deathDate i)
    (ind_birthPlace i) (ind_deathPlace i) v (ind_events i).
Definition set_birth (i : GedcomIndividual) (d p : option string) : GedcomIndividual :=
  mkIndividual (ind_id i) (ind_name i) d (ind_deathDate i)
    p (ind_deathPlace i) (ind_notes i) (ind_events i).
Definition set_death (i : GedcomIndividual) (d p : option string) : GedcomIndividual :=
  mkIndividual (ind_id i) (ind_name i) (ind_birthDate i) d
    (ind_birthPlace i) p (ind_notes i) (ind_events i).
Definition push_event (i : GedcomIndividual) (e : GedcomEvent) : GedcomIndividual :=
  mkIndividual (ind_id i) (ind_name i) (ind_birthDate i) (ind_deathDate i)
    (ind_birthPlace i) (ind_deathPlace i) (ind_notes i) (ind_events i ++ [e]).

Definition set_husband (f : GedcomFamily) (v : string) : GedcomFamily :=
  mkFamily (fam_id f) (Some v) (fam_wife f) (fam_children f)
    (fam_marriageDate f) (fam_marriagePlace f).
Definition set_wife (f : GedcomFamily) (v : string) : GedcomFamily :=
  mkFamily (fam_id f) (fam_husband f) (Some v) (fam_children f)
    (fam_marriageDate f) (fam_marriagePlace f).
Definition push_child (f : GedcomFamily) (v : string) : GedcomFamily :=
  mkFamily (fam_id f) (fam_husband f) (fam_wife f) (fam_children f ++ [v])
    (fam_marriageDate f) (fam_marriagePlace f).
Definition set_marriage (f : GedcomFamily) (d p : option string) : GedcomFamily :=
  mkFamily (fam_id f) (fam_husband f) (fam_wife f) (fam_children f) d p.

(** [tag === s], where [tag] is [parts[1]] and may be [undefined]. *)
Definition tagIs (tag : option string) (s : string) : bool :=
  match tag with
  | Some t => String.eqb t s
  | None => false
  end.

(** [level === n] *)
Definition levelIs (level : option Z) (n : Z) : bool :=
  match level with
  | Some l => l =? n
  | None => false
  end.

(** The two [push] statements that save the previous (or final) context. *)
Definition save (st : state) : ParsedGedcomData :=
  let o := out st in
  let inds :=
    match currentIndividual st with
    | Some i => if JS.nonEmpty (ind_id i) then individuals o ++ [i] else individuals o
    | None => individuals o
    end in
  let fams :=
    match currentFamily st with
    | Some f => if JS.nonEmpty (fam_id f) then families o ++ [f] else families o
    | None => families o
    end in
  mkParsed inds fams (events o).

(** The [level === 0] branch. *)
Definition level0 (st : state) (tag : option string) : result state :=
  let o := save st in
  match tag with
  | None => TypeError
  | Some t =>
      if JS.includes t "INDI" then
        Ok (mkState o (Some individual) (Some (newIndividual t))
              (currentFamily st) (currentEvent st))
      else if JS.includes t "FAM" then
        Ok (mkState o (Some family) (currentIndividual st)
              (Some (newFamily t)) (currentEvent st))
      else
        Ok (mkState o None None None (currentEvent st))
  end.

(** The [level === 1] branch. *)
Definition level1 (st : state) (tag : option string) (value : string) : state :=
  match currentContext st, currentIndividual st, currentFamily st with
  | Some individual, Some i, _ =>
      if tagIs tag "NAME" then
        mkState (out st) (currentContext st) (Some (set_name i (JS.removeAll "/" value)))
          (currentFamily st) (currentEvent st)
      else if tagIs tag "BIRT" then
        mkState (out st) (currentContext st) (currentIndividual st)
          (currentFamily st) (Some (newEvent "birth"))
      else if tagIs tag "DEAT" then
        mkState (out st) (currentContext st) (currentIndividual st)
          (currentFamily st) (Some (newEvent "death"))
      else if tagIs tag "RESI" then
        mkState (out st) (currentContext st) (currentIndividual st)
          (currentFamily st) (Some (newEvent "residence"))
      else if tagIs tag "NOTE" then
        mkState (out st) (currentContext st) (Some (set_notes i (Some value)))
          (currentFamily st) (currentEvent st)
      else st
  | Some family, _, Some f =>
      if tagIs tag "HUSB" then
        mkState (out st) (currentContext st) (currentIndividual st)
          (Some (set_husband f value)) (currentEvent st)
      else if tagIs tag "WIFE" then
        mkState (out st) (currentContext st) (currentIndividual st)
          (Some (set_wife f value)) (currentEvent st)
      else if tagIs tag "CHIL" then
        mkState (out st) (currentContext st) (currentIndividual st)
          (Some (push_child f value)) (currentEvent st)
      else if tagIs tag "MARR" then
        mkState (out st) (currentContext st) (currentIndividual st)
          (currentFamily st) (Some (newEvent "marriage"))
      else st
  | _, _, _ => st
  end.

(** The [switch] that writes the pending event's date or place. *)
Definition assign (e : GedcomEvent) (tag : option string) (value : string) : GedcomEvent :=
  if tagIs tag "DATE" then set_date e (Some value)
  else if tagIs tag "PLAC" then set_place e (Some value)
  else e.

(** The [level === 2] branch. *)
Definition level2 (st : state) (tag : option string) (value : string) : state :=
  match currentEvent st with
  | None => st
  | Some e0 =>
      let e := assign e0 tag value in
      if tagIs tag "DATE" || tagIs tag "PLAC" then
        let o := out st in
        let o' := mkParsed (individuals o) (families o) (events o ++ [e]) in
        match currentContext st, currentIndividual st, currentFamily st with
        | Some individual, Some i, _ =>
            let i1 :=
              if String.eqb (ev_type e) "birth" then set_birth i (ev_date e) (ev_place e)
              else if String.eqb (ev_type e) "death" then set_death i (ev_date e) (ev_place e)
              else i in
            mkState o' (currentContext st) (Some (push_event i1 e)) (currentFamily st) None
        | Some family, _, Some f =>
            let f1 :=
              if String.eqb (ev_type e) "marriage"
              then set_marriage f (ev_date e) (ev_place e) else f in
            mkState o' (currentContext st) (currentIndividual st) (Some f1) None
        | _, _, _ =>
            mkState o' (currentContext st) (currentIndividual st) (currentFamily st) None
        end
      else
        mkState (out st) (currentContext st) (currentIndividual st)
          (currentFamily st) (Some e)
  end.

(** The body of the [for (const line of lines)] loop. *)
Definition step (st : state) (line : string) : result state :=
  let parts := JS.split line " " in
  let level := JS.parseInt (hd "" parts) in
  let tag := nth_error parts 1 in
  let value := JS.join (skipn 2 parts) " " in
  if levelIs level 0 then level0 st tag
  else if levelIs level 1 then Ok (level1 st tag value)
  else if levelIs level 2 then Ok (level2 st tag value)
  else Ok st.

Fixpoint run (st : state) (lines : list string) : result state :=
  match lines with
  | [] => Ok st
  | line :: rest => bind (step st line) (fun st' => run st' rest)
  end.

(** [gedcomText.split('\n').map(line => line.trim()).filter(line => line)] *)
Definition gedcomLines (gedcomText : string) : list string :=
  List.filter JS.nonEmpty (List.map JS.trim (JS.split gedcomText "
")).

Definition parseGedcom (gedcomText : string) : result ParsedGedcomData :=
  bind (run initial (gedcomLines gedcomText)) (fun st => Ok (save st)).

(** A line of level 0 that has no second token. *)
Definition bareLevel0 (line : string) : Prop :=
  levelIs (JS.parseInt (hd "" (JS.split line " "))) 0 = true /\
  nth_error (JS.split line " ") 1 = None.

(** *** parseCsv *)

(** [csvText.split('\n').filter(line => line.trim())] *)
Definition csvLines (csvText : string) : list string :=
  List.filter (fun line => JS.nonEmpty (JS.trim line)) (JS.split csvText "
").

(** [lines[0].split(',').map(h => h.trim().toLowerCase())] *)
Definition csvHeaders (line0 : string) : list string :=
  List.map (fun h => JS.toLowerCase (JS.trim h)) (JS.split line0 ",").

(** [lines[i].split(',').map(v => v.trim())] *)
Definition csvValues (line : string) : list string :=
  List.map JS.trim (JS.split line ",").

(** [headers.forEach((header, index) => { row[header] = values[index] || '' })]
    on the object [row], from [index] on.  The keys read back later are
    ten fixed column names, none of them a member of [Object.prototype],
    so the object is a finite map. *)
Fixpoint fillRow (values : list string) (index : nat) (headers : list string)
    (row : gmap string string) : gmap string string :=
  match headers with
  | [] => row
  | header :: rest =>
      fillRow values (S index) rest (<[header := default "" (values !! index)]> row)
  end.

Definition csvRow (headers : list string) (line : string) : gmap string string :=
  fillRow (csvValues line) 0 headers ∅.

(** The events pushed for a freshly built individual. *)
Definition csvEvents (birthDate deathDate birthPlace deathPlace : option string)
    : list GedcomEvent :=
  (if JS.truthy birthDate || JS.truthy birthPlace then
     [mkEvent "birth" birthDate birthPlace
        (Some ("Born in " +:+ default "" (JS.or birthPlace (Some "unknown location"))))]
   else []) ++
  (if JS.truthy deathDate || JS.truthy deathPlace then
     [mkEvent "death" deathDate deathPlace
        (Some ("Died in " +:+ default "" (JS.or deathPlace (Some "unknown location"))))]
   else []).

(** The individual built from the row of line [i]; [None] is the
    [continue] taken on a falsy [row.name]. *)
Definition csvIndividual (i : nat) (row : gmap string string) : option GedcomIndividual :=
  match row !! "name" with
  | Some (String c r as name) =>
      let birthDate := JS.or (JS.or (row !! "birth_date") (row !! "birthdate")) None in
      let deathDate := JS.or (JS.or (row !! "death_date") (row !! "deathdate")) None in
      let birthPlace := JS.or (JS.or (row !! "birth_place") (row !! "birthplace")) None in
      let deathPlace := JS.or (JS.or (row !! "death_place") (row !! "deathplace")) None in
      let notes := JS.or (row !! "notes") None in
      Some (mkIndividual ("I" +:+ JS.showNat i) name birthDate deathDate
              birthPlace deathPlace notes
              (csvEvents birthDate deathDate birthPlace deathPlace))
  | _ => None
  end.

(** The [for (let i = 1; i < lines.length; i++)] loop, entered at line
    [i] with [rows] the lines from [i] on. *)
Fixpoint csvLoop (headers : list string) (i : nat) (rows : list string)
    (acc : list GedcomIndividual) : list GedcomIndividual :=
  match rows with
  | [] => acc
  | line :: rest =>
      match csvIndividual i (csvRow headers line) with
      | None => csvLoop headers (S i) rest acc
      | Some ind => csvLoop headers (S i) rest (acc ++ [ind])
      end
  end.

Definition parseCsv (csvText : string) : list GedcomIndividual :=
  match csvLines csvText with
  | [] => []
  | [_] => []
  | line0 :: rows => csvLoop (csvHeaders line0) 1 rows []
  end.

End Gedcom.

(** ** Counting the individual records of a GEDCOM text *)

Module GedcomSpec.

(** The number N of [0 ... INDI] blocks of a text, in the words of the
    specification: the non-empty trimmed lines of level 0 that contain
    [INDI].  It is not part of the program; the server's [parseGedcomData]
    recognises an individual record by the same test. *)
Definition indiBlocks (gedcomText : string) : nat :=
  length
    (List.filter
       (fun line =>
          Gedcom.levelIs (JS.parseInt (hd "" (JS.split line " "))) 0 &&
          JS.includes line "INDI")
       (Gedcom.gedcomLines gedcomText)).

(** A level-0 line that opens an individual for the program: its second
    token contains [INDI]. *)
Definition opensIndividual (line : string) : bool :=
  Gedcom.levelIs (JS.parseInt (hd "" (JS.split line " "))) 0 &&
  match nth_error (JS.split line " ") 1 with
  | Some t => JS.includes t "INDI"
  | None => false
  end.

(** A level-0 line that opens a family for the program: its second token
    contains [FAM] and not [INDI]. *)
Definition opensFamily (line : string) : bool :=
  Gedcom.levelIs (JS.parseInt (hd "" (JS.split line " "))) 0 &&
  match nth_error (JS.split line " ") 1 with
  | Some t => negb (JS.includes t "INDI") && JS.includes t "FAM"
  | None => false
  end.

(** The individuals a state still has to save: the current one, when it
    has an id. *)
Definition unsaved (st : Gedcom.state) : nat :=
  match Gedcom.currentIndividual st with
  | Some i => if JS.nonEmpty (Gedcom.ind_id i) then 1 else 0
  | None => 0
  end.

(** "First non-empty wins": [r] is what two alias columns [a] and [b]
    merge to. *)
Definition firstNonEmpty (a b r : option string) : Prop :=
  (JS.truthy a = true -> r = a) /\
  (JS.truthy a = false -> JS.truthy b = true -> r = b) /\
  (JS.truthy a = false -> JS.truthy b = false -> r = None).

End GedcomSpec.

(** ** The in-memory store (server) *)

Module Storage.

(** A JavaScript number that the code only stores and never computes
    with: an integer literal, or what [parseFloat] gives for an argument
    whose text ([String] of it) is [text] (kept symbolic). *)
Inductive number : Type :=
| intLit (z : Z)
| parseFloat (text : string).

(** A [jsonb] value of type [Record<string, any>], by its JSON text. *)
Inductive json : Type :=
| Json (text : string).

(** The row types of the schema.  A nullable column is an [option],
    [None] for [null] and for a key that was left out; the member id of an
    event is a [JS.nullable].  A [Date] is its time value. *)
Record FamilyMember : Type := mkFamilyMember {
  fm_id : string;
  fm_name : string;
  fm_birthDate : option string;
  fm_deathDate : option string;
  fm_birthPlace : option string;
  fm_deathPlace : option string;
  fm_notes : option string;
  fm_photos : option (list string);
  fm_createdAt : option Z
}.

Record Location : Type := mkLocation {
  loc_id : string;
  loc_name : string;
  loc_latitude : number;
  loc_longitude : number;
  loc_address : option string;
  loc_locationType : option string;
  loc_timeSpan : option string;
  loc_memberCount : option Z;
  loc_createdAt : option Z
}.

Record Event : Type := mkEvent {
  evt_id : string;
  evt_memberId : JS.nullable string;
  evt_locationId : option string;
  evt_eventType : string;
  evt_eventDate : option string;
  evt_description : option string;
  evt_notes : option string;
  evt_createdAt : option Z
}.

Record Story : Type := mkStory {
  st_id : string;
  st_title : string;
  st_content : string;
  st_locationId : option string;
  st_memberIds : option (list string);
  st_eventIds : option (list string);
  st_isGenerated : option bool;
  st_createdAt : option Z
}.

Record GeopackageLayer : Type := mkLayer {
  gl_id : string;
  gl_name : string;
  gl_fileName : string;
  gl_layerName : string;
  gl_layerType : string;
  gl_isVisible : option bool;
  gl_style : option json;
  gl_bounds : option (number * number * number * number);
  gl_createdAt : option Z
}.

Record AtlasProject : Type := mkProject {
  ap_id : string;
  ap_name : string;
  ap_description : option string;
  ap_memberCount : option Z;
  ap_locationCount : option Z;
  ap_storyCount : option Z;
  ap_timeSpan : option string;
  ap_lastGenerated : option Z;
  ap_createdAt : option Z
}.

(** The insert types used by the upload handlers: the row without [id]
    and [createdAt]. *)
Record InsertFamilyMember : Type := mkInsertFamilyMember {
  ifm_name : string;
  ifm_birthDate : option string;
  ifm_deathDate : option string;
  ifm_birthPlace : option string;
  ifm_deathPlace : option string;
  ifm_notes : option string;
  ifm_photos : option (list string)
}.

Record InsertLocation : Type := mkInsertLocation {
  il_name : string;
  il_latitude : number;
  il_longitude : number;
  il_address : option string;
  il_locationType : option string;
  il_timeSpan : option string;
  il_memberCount : option Z
}.

Record InsertEvent : Type := mkInsertEvent {
  ie_memberId : JS.nullable string;
  ie_locationId : option string;
  ie_eventType : string;
  ie_eventDate : option string;
  ie_description : option string;
  ie_notes : option string
}.

(** [Partial<Insert...>]: every key of the insert type may be absent
    ([None]) or present with a value.  The insert types omit [id] and
    [createdAt] (and [lastGenerated] for projects), so an update object has
    no such keys.  A key present with [null] or [undefined] is a named key;
    it is written for the nullable columns only. *)
Record PartialFamilyMember : Type := mkPartialFamilyMember {
  pfm_name : option string;
  pfm_birthDate : option (option string);
  pfm_deathDate : option (option string);
  pfm_birthPlace : option (option string);
  pfm_deathPlace : option (option string);
  pfm_notes : option (option string);
  pfm_photos : option (option (list string))
}.

Record PartialLocation : Type := mkPartialLocation {
  pl_name : option string;
  pl_latitude : option number;
  pl_longitude : option number;
  pl_address : option (option string);
  pl_locationType : option (option string);
  pl_timeSpan : option (option string);
  pl_memberCount : option (option Z)
}.

Record PartialEvent : Type := mkPartialEvent {
  pe_memberId : option (JS.nullable string);
  pe_locationId : option (option string);
  pe_eventType : option string;
  pe_eventDate : option (option string);
  pe_description : option (option string);
  pe_notes : option (option string)
}.

Record PartialStory : Type := mkPartialStory {
  ps_title : option string;
  ps_content : option string;
  ps_locationId : option (option string);
  ps_memberIds : option (option (list string));
  ps_eventIds : option (option (list string));
  ps_isGenerated : option (option bool)
}.

Record PartialGeopackageLayer : Type := mkPartialLayer {
  pg_name : option string;
  pg_fileName : option string;
  pg_layerName : option string;
  pg_layerType : option string;
  pg_isVisible : option (option bool);
  pg_style : option (option json);
  pg_bounds : option (option (number * number * number * number))
}.

Record PartialAtlasProject : Type := mkPartialProject {
  pa_name : option string;
  pa_description : option (option string);
  pa_memberCount : option (option Z);
  pa_locationCount : option (option Z);
  pa_storyCount : option (option Z);
  pa_timeSpan : option (option string)
}.

(** One key of [{ ...old, ...updateData }]: the update's value when the
    key is present, the old value otherwise. *)
Definition over {A : Type} (old : A) (upd : option A) : A :=
  match upd with
  | Some v => v
  | None => old
  end.

Definition spreadFamilyMember (m : FamilyMember) (u : PartialFamilyMember) : FamilyMember :=
  mkFamilyMember (fm_id m)
    (over (fm_name m) (pfm_name u)) (over (fm_birthDate m) (pfm_birthDate u))
    (over (fm_deathDate m) (pfm_deathDate u)) (over (fm_birthPlace m) (pfm_birthPlace u))
    (over (fm_deathPlace m) (pfm_deathPlace u)) (over (fm_notes m) (pfm_notes u))
    (over (fm_photos m) (pfm_photos u)) (fm_createdAt m).

Definition spreadLocation (l : Location) (u : PartialLocation) : Location :=
  mkLocation (loc_id l)
    (over (loc_name l) (pl_name u)) (over (loc_latitude l) (pl_latitude u))
    (over (loc_longitude l) (pl_longitude u)) (over (loc_address l) (pl_address u))
    (over (loc_locationType l) (pl_locationType u)) (over (loc_timeSpan l) (pl_timeSpan u))
    (over (loc_memberCount l) (pl_memberCount u)) (loc_createdAt l).

Definition spreadEvent (e : Event) (u : PartialEvent) : Event :=
  mkEvent (evt_id e)
    (over (evt_memberId e) (pe_memberId u)) (over (evt_locationId e) (pe_locationId u))
    (over (evt_eventType e) (pe_eventType u)) (over (evt_eventDate e) (pe_eventDate u))
    (over (evt_description e) (pe_description u)) (over (evt_notes e) (pe_notes u))
    (evt_createdAt e).

Definition spreadStory (s : Story) (u : PartialStory) : Story :=
  mkStory (st_id s)
    (over (st_title s) (ps_title u)) (over (st_content s) (ps_content u))
    (over (st_locationId s) (ps_locationId u)) (over (st_memberIds s) (ps_memberIds u))
    (over (st_eventIds s) (ps_eventIds u)) (over (st_isGenerated s) (ps_isGenerated u))
    (st_createdAt s).

Definition spreadGeopackageLayer (g : GeopackageLayer) (u : PartialGeopackageLayer)
    : GeopackageLayer :=
  mkLayer (gl_id g)
    (over (gl_name g) (pg_name u)) (over (gl_fileName g) (pg_fileName u))
    (over (gl_layerName g) (pg_layerName u)) (over (gl_layerType g) (pg_layerType u))
    (over (gl_isVisible g) (pg_isVisible u)) (over (gl_style g) (pg_style u))
    (over (gl_bounds g) (pg_bounds u)) (gl_createdAt g).

Definition spreadAtlasProject (a : AtlasProject) (u : PartialAtlasProject) : AtlasProject :=
  mkProject (ap_id a)
    (over (ap_name a) (pa_name u)) (over (ap_description a) (pa_description u))
    (over (ap_memberCount a) (pa_memberCount u)) (over (ap_locationCount a) (pa_locationCount u))
    (over (ap_storyCount a) (pa_storyCount u)) (over (ap_timeSpan a) (pa_timeSpan u))
    (ap_lastGenerated a) (ap_createdAt a).

(** The six [Map]s of [MemStorage]. *)
Record MemStorage : Type := mkStorage {
  familyMembers : gmap string FamilyMember;
  locations : gmap string Location;
  events : gmap string Event;
  stories : gmap string Story;
  geopackageLayers : gmap string GeopackageLayer;
  atlasProjects : gmap string AtlasProject
}.

(** [new MemStorage()] *)
Definition empty : MemStorage := mkStorage ∅ ∅ ∅ ∅ ∅ ∅.

(** The body shared by the six [update*] methods, on one [Map]:
    [get], return [undefined] when absent, else spread, [set], return. *)
Definition updateIn {E P : Type} (spread : E -> P -> E)
    (m : gmap string E) (id : string) (updateData : P) : option E * gmap string E :=
  match m !! id with
  | None => (None, m)
  | Some old =>
      let updated := spread old updateData in
      (Some updated, <[id := updated]> m)
  end.

Definition updateFamilyMember (s : MemStorage) (id : string) (u : PartialFamilyMember)
    : option FamilyMember * MemStorage :=
  let '(r, m) := updateIn spreadFamilyMember (familyMembers s) id u in
  (r, mkStorage m (locations s) (events s) (stories s) (geopackageLayers s) (atlasProjects s)).

Definition updateLocation (s : MemStorage) (id : string) (u : PartialLocation)
    : option Location * MemStorage :=
  let '(r, m) := updateIn spreadLocation (locations s) id u in
  (r, mkStorage (familyMembers s) m (events s) (stories s) (geopackageLayers s) (atlasProjects s)).

Definition updateEvent (s : MemStorage) (id : string) (u : PartialEvent)
    : option Event * MemStorage :=
  let '(r, m) := updateIn spreadEvent (events s) id u in
  (r, mkStorage (familyMembers s) (locations s) m (stories s) (geopackageLayers s) (atlasProjects s)).

Definition updateStory (s : MemStorage) (id : string) (u : PartialStory)
    : option Story * MemStorage :=
  let '(r, m) := updateIn spreadStory (stories s) id u in
  (r, mkStorage (familyMembers s) (locations s) (events s) m (geopackageLayers s) (atlasProjects s)).

Definition updateGeopackageLayer (s : MemStorage) (id : string) (u : PartialGeopackageLayer)
    : option GeopackageLayer * MemStorage :=
  let '(r, m) := updateIn spreadGeopackageLayer (geopackageLayers s) id u in
  (r, mkStorage (familyMembers s) (locations s) (events s) (stories s) m (atlasProjects s)).

Definition updateAtlasProject (s : MemStorage) (id : string) (u : PartialAtlasProject)
    : option AtlasProject * MemStorage :=
  let '(r, m) := updateIn spreadAtlasProject (atlasProjects s) id u in
  (r, mkStorage (familyMembers s) (locations s) (events s) (stories s) (geopackageLayers s) m).

(** The [create*] methods used by the upload handlers.  [id] is the value
    drawn from [randomUUID()] and [createdAt] the time value of
    [new Date()]. *)
Definition createFamilyMember (s : MemStorage) (id : string) (createdAt : Z)
    (i : InsertFamilyMember) : FamilyMember * MemStorage :=
  let member :=
    mkFamilyMember id (ifm_name i) (ifm_birthDate i) (ifm_deathDate i) (ifm_birthPlace i)
      (ifm_deathPlace i) (ifm_notes i) (ifm_photos i) (Some createdAt) in
  (member,
   mkStorage (<[id := member]> (familyMembers s)) (locations s) (events s) (stories s)
     (geopackageLayers s) (atlasProjects s)).

Definition createLocation (s : MemStorage) (id : string) (createdAt : Z)
    (i : InsertLocation) : Location * MemStorage :=
  let location :=
    mkLocation id (il_name i) (il_latitude i) (il_longitude i) (il_address i)
      (il_locationType i) (il_timeSpan i) (il_memberCount i) (Some createdAt) in
  (location,
   mkStorage (familyMembers s) (<[id := location]> (locations s)) (events s) (stories s)
     (geopackageLayers s) (atlasProjects s)).

Definition createEvent (s : MemStorage) (id : string) (createdAt : Z)
    (i : InsertEvent) : Event * MemStorage :=
  let event :=
    mkEvent id (ie_memberId i) (ie_locationId i) (ie_eventType i) (ie_eventDate i)
      (ie_description i) (ie_notes i) (Some createdAt) in
  (event,
   mkStorage (familyMembers s) (locations s) (<[id := event]> (events s)) (stories s)
     (geopackageLayers s) (atlasProjects s)).

End Storage.

(** ** The routes (server): geocoding, upload handlers, narrative builder *)

Module Routes.

Import Storage.

(** What one request to the geocoding service gives: the [fetch] or the
    decoding of the body throws, or [data] is the decoded JSON value. *)
Inductive Reply : Type :=
| Threw
| Data (data : Json.value).

(** The effects the handlers consult, indexed by the number of effects
    performed before: the network, [randomUUID] and the clock. *)
Record World : Type := mkWorld {
  fetch : nat -> string -> Reply;
  randomUUID : nat -> string;
  newDate : nat -> Z
}.

(** The state a handler threads: the process-wide store and the count of
    effects performed. *)
Record Sys : Type := mkSys { storage : MemStorage; tick : nat }.

Definition M (A : Type) : Type := Sys -> A * Sys.

Definition ret {A : Type} (a : A) : M A := fun s => (a, s).

Definition bind {A B : Type} (m : M A) (k : A -> M B) : M B :=
  fun s => let '(a, s') := m s in k a s'.

Notation "x <- m ;; k" := (bind m (fun x => k))
  (at level 100, m at next level, right associativity).

Record Coords : Type := mkCoords { c_lat : number; c_lng : number }.

(** The body of the [try] of [geocodeLocation] on a reply.  Reading [lat]
    of [data[0]] throws when [data[0]] is [null] or [undefined]; every
    exception ends in the [catch], which returns [null]. *)
Definition coordsOf (r : Reply) : option Coords :=
  match r with
  | Threw => None
  | Data data =>
      if Json.truthy data && Json.lengthPositive data then
        match Json.first data with
        | None => None
        | Some Json.JNull => None
        | Some x =>
            Some (mkCoords (parseFloat (Json.shown (Json.member "lat" x)))
                    (parseFloat (Json.shown (Json.member "lon" x))))
        end
      else None
  end.

(** [geocodeLocation]: one request, then the coordinates read from the
    reply or [null]. *)
Definition geocodeLocation (w : World) (address : string) : M (option Coords) :=
  fun s => (coordsOf (fetch w (tick s) address), mkSys (storage s) (S (tick s))).

(** [await storage.create*(...)]: draws the id and the date, then stores. *)
Definition createFamilyMember (w : World) (i : InsertFamilyMember) : M FamilyMember :=
  fun s =>
    let '(member, st) :=
      Storage.createFamilyMember (storage s) (randomUUID w (tick s)) (newDate w (tick s)) i in
    (member, mkSys st (S (tick s))).

Definition createLocation (w : World) (i : InsertLocation) : M Location :=
  fun s =>
    let '(location, st) :=
      Storage.createLocation (storage s) (randomUUID w (tick s)) (newDate w (tick s)) i in
    (location, mkSys st (S (tick s))).

Definition createEvent (w : World) (i : InsertEvent) : M Event :=
  fun s =>
    let '(event, st) :=
      Storage.createEvent (storage s) (randomUUID w (tick s)) (newDate w (tick s)) i in
    (event, mkSys st (S (tick s))).

(** *** parseGedcomData *)

Record MemberData : Type := mkMemberData {
  md_name : string;
  md_birthDate : option string;
  md_deathDate : option string;
  md_birthPlace : option string;
  md_deathPlace : option string;
  md_notes : string;
  md_photos : list string
}.

Definition newMemberData : MemberData := mkMemberData "" None None None None "" [].

(** [if (!cur.birthX) cur.birthX = v; else if (!cur.deathX) cur.deathX = v] *)
Definition fillFirst (birth death v : option string) : option string * option string :=
  if negb (JS.truthy birth) then (v, death)
  else if negb (JS.truthy death) then (birth, v)
  else (birth, death).

(** The body of the loop of [parseGedcomData] on one line. *)
Definition dataStep (st : list MemberData * option MemberData) (line : string)
    : list MemberData * option MemberData :=
  let '(members, currentIndividual) := st in
  let trimmed := JS.trim line in
  if JS.startsWith trimmed "0" && JS.includes trimmed "INDI" then
    (match currentIndividual with
     | Some cur => members ++ [cur]
     | None => members
     end, Some newMemberData)
  else
    match currentIndividual with
    | None => st
    | Some cur =>
        if JS.includes trimmed "NAME" then
          (members,
           Some (mkMemberData
                   (default "" (JS.or (nth_error (JS.split trimmed "NAME ") 1) (Some "")))
                   (md_birthDate cur) (md_deathDate cur) (md_birthPlace cur)
                   (md_deathPlace cur) (md_notes cur) (md_photos cur)))
        else if JS.includes trimmed "BIRT" then st
        else if JS.includes trimmed "DEAT" then st
        else if JS.includes trimmed "DATE" then
          let '(b, d) := fillFirst (md_birthDate cur) (md_deathDate cur)
                           (nth_error (JS.split trimmed "DATE ") 1) in
          (members,
           Some (mkMemberData (md_name cur) b d (md_birthPlace cur) (md_deathPlace cur)
                   (md_notes cur) (md_photos cur)))
        else if JS.includes trimmed "PLAC" then
          let '(b, d) := fillFirst (md_birthPlace cur) (md_deathPlace cur)
                           (nth_error (JS.split trimmed "PLAC ") 1) in
          (members,
           Some (mkMemberData (md_name cur) (md_birthDate cur) (md_deathDate cur) b d
                   (md_notes cur) (md_photos cur)))
        else st
    end.

(** [parseGedcomData(gedcomText).members] *)
Definition parseGedcomData (gedcomText : string) : list MemberData :=
  let '(members, currentIndividual) :=
    fold_left dataStep (JS.split gedcomText "
") ([], None) in
  match currentIndividual with
  | Some cur => members ++ [cur]
  | None => members
  end.

(** *** The upload handlers *)

(** The three local arrays of a handler. *)
Record Created : Type := mkCreated {
  createdMembers : list FamilyMember;
  createdLocations : list Location;
  createdEvents : list Event
}.

Definition noneCreated : Created := mkCreated [] [] [].

(** [type === 'birth' ? a : b] *)
Definition byType {A : Type} (type : string) (a b : A) : A :=
  if String.eqb type "birth" then a else b.

(** [[{place: birth, type: 'birth'}, {place: death, type: 'death'}].filter(p => p.place)] *)
Definition places (birthPlace deathPlace : option string) : list (string * string) :=
  (if JS.truthy birthPlace then [(default "" birthPlace, "birth")] else []) ++
  (if JS.truthy deathPlace then [(default "" deathPlace, "death")] else []).

(** The body of [for (const { place, type } of places)]; [birthDate] and
    [deathDate] are the two date expressions of the handler. *)
Definition processPlace (w : World) (member : FamilyMember)
    (birthDate deathDate : option string) (acc : Created) (p : string * string)
    : M Created :=
  let '(place, type) := p in
  coords <- geocodeLocation w place ;;
  match coords with
  | Some c =>
      location <- createLocation w
        (mkInsertLocation place (c_lat c) (c_lng c) (Some place) (Some type)
           (byType type birthDate deathDate) (Some 1)) ;;
      event <- createEvent w
        (mkInsertEvent (JS.Value (fm_id member)) (Some (loc_id location)) type
           (byType type birthDate deathDate)
           (Some (byType type "Born" "Died" +:+ " in " +:+ place)) (Some "")) ;;
      ret (mkCreated (createdMembers acc) (createdLocations acc ++ [location])
             (createdEvents acc ++ [event]))
  | None => ret acc
  end.

Fixpoint forEach {A B : Type} (body : B -> A -> M B) (l : list A) (acc : B) : M B :=
  match l with
  | [] => ret acc
  | x :: rest => acc' <- body acc x ;; forEach body rest acc'
  end.

(** The body of [for (const memberData of members)] of the GEDCOM upload. *)
Definition processMember (w : World) (acc : Created) (memberData : MemberData)
    : M Created :=
  if negb (JS.nonEmpty (md_name memberData)) then ret acc
  else
    member <- createFamilyMember w
      (mkInsertFamilyMember (md_name memberData) (md_birthDate memberData)
         (md_deathDate memberData) (md_birthPlace memberData) (md_deathPlace memberData)
         (JS.or (Some (md_notes memberData)) (Some "")) (Some (md_photos memberData))) ;;
    forEach (processPlace w member (md_birthDate memberData) (md_deathDate memberData))
      (places (md_birthPlace memberData) (md_deathPlace memberData))
      (mkCreated (createdMembers acc ++ [member]) (createdLocations acc) (createdEvents acc)).

(** [POST /api/upload/gedcom] on the text of the uploaded file. *)
Definition uploadGedcom (w : World) (gedcomData : string) : M Created :=
  forEach (processMember w) (parseGedcomData gedcomData) noneCreated.

(** The body of the row loop of the CSV upload, on the row object. *)
Definition processRow (w : World) (acc : Created) (row : gmap string string) : M Created :=
  if negb (JS.truthy (row !! "name")) then ret acc
  else
    member <- createFamilyMember w
      (mkInsertFamilyMember (default "" (row !! "name"))
         (JS.or (JS.or (row !! "birth_date") (row !! "birthdate")) None)
         (JS.or (JS.or (row !! "death_date") (row !! "deathdate")) None)
         (JS.or (JS.or (row !! "birth_place") (row !! "birthplace")) None)
         (JS.or (JS.or (row !! "death_place") (row !! "deathplace")) None)
         (JS.or (row !! "notes") (Some "")) (Some [])) ;;
    forEach (processPlace w member
               (JS.or (row !! "birth_date") (row !! "birthdate"))
               (JS.or (row !! "death_date") (row !! "deathdate")))
      (places (JS.or (row !! "birth_place") (row !! "birthplace"))
              (JS.or (row !! "death_place") (row !! "deathplace")))
      (mkCreated (createdMembers acc ++ [member]) (createdLocations acc) (createdEvents acc)).

(** [POST /api/upload/csv] on the text of the uploaded file; [None] is the
    400 reply to a file with fewer than two non-blank lines. *)
Definition uploadCsv (w : World) (csvData : string) : M (option Created) :=
  match Gedcom.csvLines csvData with
  | [] => ret None
  | [_] => ret None
  | line0 :: rows =>
      c <- forEach (processRow w)
             (List.map (Gedcom.csvRow (Gedcom.csvHeaders line0)) rows) noneCreated ;;
      ret (Some c)
  end.

(** *** generateStoryFromEvents *)

(** The own and inherited members of [Object.prototype]: reading one of
    these keys from the fresh object [{}] gives a truthy value that has no
    [push]. *)
Definition prototypeKeys : list string :=
  ["constructor"; "__defineGetter__"; "__defineSetter__"; "hasOwnProperty";
   "__lookupGetter__"; "__lookupSetter__"; "isPrototypeOf"; "propertyIsEnumerable";
   "toString"; "valueOf"; "__proto__"; "toLocaleString"].

(** The property key made from [event.memberId]: the string itself, or
    the text of [null] or [undefined]. *)
Definition memberKey (e : Event) : string :=
  match evt_memberId e with
  | JS.Value id => id
  | JS.Null => "null"
  | JS.Undefined => "undefined"
  end.

(** [acc[key].push(event)] on the own properties, kept in creation order. *)
Fixpoint pushTo (key : string) (e : Event) (acc : list (string * list Event))
    : list (string * list Event) :=
  match acc with
  | [] => [(key, [e])]
  | (k, es) :: rest =>
      if String.eqb k key then (k, es ++ [e]) :: rest
      else (k, es) :: pushTo key e rest
  end.

(** The [reduce] that groups the events by member; it throws when a key
    names a member of [Object.prototype]. *)
Fixpoint groupByMember (events : list Event) (acc : list (string * list Event))
    : Gedcom.result (list (string * list Event)) :=
  match events with
  | [] => Gedcom.Ok acc
  | e :: rest =>
      if existsb (String.eqb (memberKey e)) prototypeKeys then Gedcom.TypeError
      else groupByMember rest (pushTo (memberKey e) e acc)
  end.

Definition isDigit (c : ascii) : bool :=
  let n := nat_of_ascii c in ((48 <=? n) && (n <=? 57))%nat.

Fixpoint allDigits (s : string) : bool :=
  match s with
  | EmptyString => true
  | String c r => isDigit c && allDigits r
  end.

(** The value of a key that is an array index (a canonical numeric string
    below 2^32 - 1). *)
Definition arrayIndex (key : string) : option Z :=
  match key with
  | EmptyString => None
  | String c r =>
      if allDigits key && (negb (Ascii.eqb c "0") || negb (JS.nonEmpty r)) then
        match JS.digits 10 None key with
        | Some v => if v <? 4294967295 then Some v else None
        | None => None
        end
      else None
  end.

Fixpoint insertIndex {A : Type} (v : Z) (x : A) (l : list (Z * A)) : list (Z * A) :=
  match l with
  | [] => [(v, x)]
  | (v', y) :: rest =>
      if v <? v' then (v, x) :: l else (v', y) :: insertIndex v x rest
  end.

(** [Object.entries(obj)]: the array-index keys in ascending numeric
    order, then the other keys in creation order. *)
Definition entries {A : Type} (obj : list (string * A)) : list (string * A) :=
  List.map snd
    (fold_left
       (fun acc kv =>
          match arrayIndex (fst kv) with
          | Some v => insertIndex v kv acc
          | None => acc
          end) obj []) ++
  List.filter (fun kv => negb (bool_decide (is_Some (arrayIndex (fst kv))))) obj.

(** Exactly [n] decimal digits at the head of [s]: their value and the
    rest. *)
Fixpoint readDigits (n : nat) (acc : Z) (s : string) : option (Z * string) :=
  match n with
  | O => Some (acc, s)
  | S k =>
      match s with
      | EmptyString => None
      | String c r =>
          if isDigit c then readDigits k (acc * 10 + (Z.of_nat (nat_of_ascii c) - 48)) r
          else None
      end
  end.

Definition isLeap (y : Z) : bool :=
  ((y mod 4 =? 0) && negb (y mod 100 =? 0)) || (y mod 400 =? 0).

Definition daysInMonth (y m : Z) : Z :=
  if m =? 2 then (if isLeap y then 29 else 28)
  else if (m =? 4) || (m =? 6) || (m =? 9) || (m =? 11) then 30
  else 31.

(** Days from 1970-01-01 to the given day of the proleptic Gregorian
    calendar. *)
Definition daysFromCivil (y m d : Z) : Z :=
  let y' := if m <=? 2 then y - 1 else y in
  let era := y' / 400 in
  let yoe := y' - era * 400 in
  let doy := (153 * (if 2 <? m then m - 3 else m + 9) + 2) / 5 + d - 1 in
  let doe := yoe * 365 + yoe / 4 - yoe / 100 + doy in
  era * 146097 + doe - 719468.

Definition utcTime (y m d : Z) : Z := daysFromCivil y m d * 86400000.

(** The time value of a string in one of the date-only forms of the
    ECMAScript date-time format ([YYYY], [YYYY-MM], [YYYY-MM-DD]) that
    names a day that exists; [None] for every other string. *)
Definition isoDate (s : string) : option Z :=
  match readDigits 4 0 s with
  | Some (y, EmptyString) => Some (utcTime y 1 1)
  | Some (y, String "-" r1) =>
      match readDigits 2 0 r1 with
      | Some (m, r2) =>
          if (1 <=? m) && (m <=? 12) then
            match r2 with
            | EmptyString => Some (utcTime y m 1)
            | String "-" r3 =>
                match readDigits 2 0 r3 with
                | Some (d, EmptyString) =>
                    if (1 <=? d) && (d <=? daysInMonth y m) then Some (utcTime y m d)
                    else None
                | _ => None
                end
            | _ => None
            end
          else None
      | None => None
      end
  | _ => None
  end.

(** [new Date(s).getTime()]; [None] is NaN.  Outside the date-only forms
    the result is what the engine's parser [host] gives. *)
Definition getTime (host : string -> option Z) (s : string) : option Z :=
  match isoDate s with
  | Some t => Some t
  | None => host s
  end.

(** [new Date(e.eventDate || '1900-01-01').getTime()] *)
Definition eventTime (host : string -> option Z) (e : Event) : option Z :=
  getTime host (default "" (JS.or (evt_eventDate e) (Some "1900-01-01"))).

(** Whether the comparator [(a, b) => timeA - timeB] does not put [b]
    before [a]: its result is negative or zero (or NaN, which the sort
    below never meets). *)
Definition notAfter (host : string -> option Z) (a b : Event) : bool :=
  match eventTime host a, eventTime host b with
  | Some ta, Some tb => ta <=? tb
  | _, _ => true
  end.

Fixpoint insertSorted (host : string -> option Z) (x : Event) (l : list Event)
    : list Event :=
  match l with
  | [] => [x]
  | y :: rest => if notAfter host x y then x :: l else y :: insertSorted host x rest
  end.

(** What the language leaves to the engine: the time value of a date text
    outside the date-only forms, and the order in which [sort] leaves an
    array when the comparator returns NaN.  That order holds the same
    elements. *)
Record Engine : Type := mkEngine {
  parseDate : string -> option Z;
  reorder : list Event -> list Event;
  reorder_perm : forall l, reorder l ≡ₚ l
}.

(** Whether the date of every event has a time value. *)
Definition allParse (host : string -> option Z) (l : list Event) : bool :=
  forallb (fun e => match eventTime host e with Some _ => true | None => false end) l.

(** [memberEvents.sort(comparator)].  When every date has a time value the
    comparator is consistent and the result is the stable sort.  When one
    has none the comparator returns NaN and the order is the engine's. *)
Definition sortEvents (engine : Engine) (l : list Event) : list Event :=
  if allParse (parseDate engine) l then fold_right (insertSorted (parseDate engine)) [] l
  else reorder engine l.

(** [list.find(x => x.id === id)] *)
Definition findMember (members : list FamilyMember) (id : string) : option FamilyMember :=
  List.find (fun m => String.eqb (fm_id m) id) members.

Definition findLocation (locations : list Location) (id : option string)
    : option Location :=
  match id with
  | Some i => List.find (fun l => String.eqb (loc_id l) i) locations
  | None => None
  end.

(** [location?.name || fallback] *)
Definition placeName (location : option Location) (fallback : string) : string :=
  match location with
  | Some l => if JS.nonEmpty (loc_name l) then loc_name l else fallback
  | None => fallback
  end.

(** [if (event.eventDate) story += ` in ${event.eventDate}`] *)
Definition inDate (e : Event) : string :=
  if JS.truthy (evt_eventDate e) then " in " +:+ default "" (evt_eventDate e) else "".

(** What one event adds to the story, before the separator. *)
Definition eventText (locations : list Location) (e : Event) : string :=
  let location := findLocation locations (evt_locationId e) in
  if String.eqb (evt_eventType e) "birth" then
    "with their birth in " +:+ placeName location "an unknown location" +:+ inDate e
  else if String.eqb (evt_eventType e) "migration" then
    ", followed by a significant migration to " +:+ placeName location "a new location"
      +:+ inDate e
  else if String.eqb (evt_eventType e) "death" then
    ", and their life concluded in " +:+ placeName location "an unknown location"
      +:+ inDate e
  else "".

(** The [for (let i = 0; i < sortedEvents.length; i++)] loop. *)
Fixpoint eventsText (locations : list Location) (sortedEvents : list Event) : string :=
  match sortedEvents with
  | [] => ""
  | [e] => eventText locations e
  | e :: rest => eventText locations e +:+ ", " +:+ eventsText locations rest
  end.

(** What one entry of [eventsByMember] adds to the story. *)
Definition memberText (engine : Engine) (members : list FamilyMember)
    (locations : list Location) (entry : string * list Event) : string :=
  match findMember members (fst entry) with
  | None => ""
  | Some member =>
      fm_name member +:+ "'s journey began "
        +:+ eventsText locations (sortEvents engine (snd entry)) +:+ ". "
        +:+ (if JS.truthy (fm_notes member) then default "" (fm_notes member) +:+ " " else "")
  end.

Definition generateStoryFromEvents (engine : Engine) (events : list Event)
    (members : list FamilyMember) (locations : list Location) : Gedcom.result string :=
  match events with
  | [] => Gedcom.Ok ""
  | _ =>
      Gedcom.bind (groupByMember events [])
        (fun eventsByMember =>
           Gedcom.Ok
             (JS.trim
                (fold_left
                   (fun story entry => story +:+ memberText engine members locations entry)
                   (entries eventsByMember) "")))
  end.

End Routes.

(** ** What an update may change *)

Module StorageSpec.

Import Storage.

(** One field after an update: the update's value when the update names
    the field, the old value otherwise. *)
Definition field {A : Type} (old : A) (upd : option A) (new : A) : Prop :=
  match upd with
  | Some v => new = v
  | None => new = old
  end.

Definition keptFamilyMember (old : FamilyMember) (u : PartialFamilyMember)
    (new : FamilyMember) : Prop :=
  fm_id new = fm_id old /\ fm_createdAt new = fm_createdAt old /\
  field (fm_name old) (pfm_name u) (fm_name new) /\
  field (fm_birthDate old) (pfm_birthDate u) (fm_birthDate new) /\
  field (fm_deathDate old) (pfm_deathDate u) (fm_deathDate new) /\
  field (fm_birthPlace old) (pfm_birthPlace u) (fm_birthPlace new) /\
  field (fm_deathPlace old) (pfm_deathPlace u) (fm_deathPlace new) /\
  field (fm_notes old) (pfm_notes u) (fm_notes new) /\
  field (fm_photos old) (pfm_photos u) (fm_photos new).

Definition keptLocation (old : Location) (u : PartialLocation) (new : Location) : Prop :=
  loc_id new = loc_id old /\ loc_createdAt new = loc_createdAt old /\
  field (loc_name old) (pl_name u) (loc_name new) /\
  field (loc_latitude old) (pl_latitude u) (loc_latitude new) /\
  field (loc_longitude old) (pl_longitude u) (loc_longitude new) /\
  field (loc_address old) (pl_address u) (loc_address new) /\
  field (loc_locationType old) (pl_locationType u) (loc_locationType new) /\
  field (loc_timeSpan old) (pl_timeSpan u) (loc_timeSpan new) /\
  field (loc_memberCount old) (pl_memberCount u) (loc_memberCount new).

Definition keptEvent (old : Event) (u : PartialEvent) (new : Event) : Prop :=
  evt_id new = evt_id old /\ evt_createdAt new = evt_createdAt old /\
  field (evt_memberId old) (pe_memberId u) (evt_memberId new) /\
  field (evt_locationId old) (pe_locationId u) (evt_locationId new) /\
  field (evt_eventType old) (pe_eventType u) (evt_eventType new) /\
  field (evt_eventDate old) (pe_eventDate u) (evt_eventDate new) /\
  field (evt_description old) (pe_description u) (evt_description new) /\
  field (evt_notes old) (pe_notes u) (evt_notes new).

Definition keptStory (old : Story) (u : PartialStory) (new : Story) : Prop :=
  st_id new = st_id old /\ st_createdAt new = st_createdAt old /\
  field (st_title old) (ps_title u) (st_title new) /\
  field (st_content old) (ps_content u) (st_content new) /\
  field (st_locationId old) (ps_locationId u) (st_locationId new) /\
  field (st_memberIds old) (ps_memberIds u) (st_memberIds new) /\
  field (st_eventIds old) (ps_eventIds u) (st_eventIds new) /\
  field (st_isGenerated old) (ps_isGenerated u) (st_isGenerated new).

Definition keptGeopackageLayer (old : GeopackageLayer) (u : PartialGeopackageLayer)
    (new : GeopackageLayer) : Prop :=
  gl_id new = gl_id old /\ gl_createdAt new = gl_createdAt old /\
  field (gl_name old) (pg_name u) (gl_name new) /\
  field (gl_fileName old) (pg_fileName u) (gl_fileName new) /\
  field (gl_layerName old) (pg_layerName u) (gl_layerName new) /\
  field (gl_layerType old) (pg_layerType u) (gl_layerType new) /\
  field (gl_isVisible old) (pg_isVisible u) (gl_isVisible new) /\
  field (gl_style old) (pg_style u) (gl_style new) /\
  field (gl_bounds old) (pg_bounds u) (gl_bounds new).

Definition keptAtlasProject (old : AtlasProject) (u : PartialAtlasProject)
    (new : AtlasProject) : Prop :=
  ap_id new = ap_id old /\ ap_createdAt new = ap_createdAt old /\
  ap_lastGenerated new = ap_lastGenerated old /\
  field (ap_name old) (pa_name u) (ap_name new) /\
  field (ap_description old) (pa_description u) (ap_description new) /\
  field (ap_memberCount old) (pa_memberCount u) (ap_memberCount new) /\
  field (ap_locationCount old) (pa_locationCount u) (ap_locationCount new) /\
  field (ap_storyCount old) (pa_storyCount u) (ap_storyCount new) /\
  field (ap_timeSpan old) (pa_timeSpan u) (ap_timeSpan new).

(** The frame of an [update*] method on the collection [coll]: with the
    id present the method returns the updated entry, which is stored
    under the id and differs from the old one as [kept] allows, and no
    other entry changes; with the id absent it returns [undefined] and the
    store is the same.  [rest] says that the other collections are the
    same. *)
Definition frame {E P : Type} (coll : MemStorage -> gmap string E)
    (update : MemStorage -> string -> P -> option E * MemStorage)
    (kept : E -> P -> E -> Prop) (rest : MemStorage -> MemStorage -> Prop) : Prop :=
  forall (s : MemStorage) (id : string) (u : P),
    match coll s !! id with
    | Some old =>
        exists new s',
          update s id u = (Some new, s') /\
          coll s' !! id = Some new /\
          kept old u new /\
          (forall id', id' <> id -> coll s' !! id' = coll s !! id') /\
          rest s s'
    | None => update s id u = (None, s)
    end.

End StorageSpec.

(** ** What the upload handlers create *)

Module RoutesSpec.

Import Storage Routes.

(** The location that a resolved [place] of role [type] is stored as. *)
Definition madeFor (place type : string) (birthDate deathDate : option string)
    (l : Location) : Prop :=
  loc_name l = place /\ loc_address l = Some place /\
  loc_locationType l = Some type /\
  loc_timeSpan l = byType type birthDate deathDate /\
  loc_memberCount l = Some 1.

(** [l] has member count 1 and was made for the birth place or for the
    death place of a record with the given places and dates: its type is
    that role and its time span is that role's date. *)
Definition fromRecord (birthPlace deathPlace birthDate deathDate : option string)
    (l : Location) : Prop :=
  loc_memberCount l = Some 1 /\
  ((loc_locationType l = Some "birth" /\ loc_timeSpan l = birthDate /\
    birthPlace = Some (loc_name l)) \/
   (loc_locationType l = Some "death" /\ loc_timeSpan l = deathDate /\
    deathPlace = Some (loc_name l))).

Definition fromMember (m : MemberData) (l : Location) : Prop :=
  fromRecord (md_birthPlace m) (md_deathPlace m) (md_birthDate m) (md_deathDate m) l.

Definition fromRow (row : gmap string string) (l : Location) : Prop :=
  fromRecord (JS.or (row !! "birth_place") (row !! "birthplace"))
    (JS.or (row !! "death_place") (row !! "deathplace"))
    (JS.or (row !! "birth_date") (row !! "birthdate"))
    (JS.or (row !! "death_date") (row !! "deathdate")) l.

(** The state of a run that started from the locations [before]: every
    created location satisfies [Q], and every stored location was stored
    before the run, unchanged, or is one of the created ones. *)
Definition onlyAdds (Q : Location -> Prop) (before : gmap string Location)
    (c : Created) (s : Sys) : Prop :=
  (forall l, l ∈ createdLocations c -> Q l) /\
  (forall id l, locations (storage s) !! id = Some l ->
                before !! id = Some l \/ l ∈ createdLocations c).

(** One visit of the place loop of a handler: the place, its role and
    that role's date. *)
Definition Visit : Type := string * string * option string.

(** The visits that the loop body makes for one record: none for a record
    without a name; otherwise the birth place, then the death place, each
    when it is not empty. *)
Definition visits (named : bool) (birthPlace deathPlace birthDate deathDate : option string)
    : list Visit :=
  if named then
    List.map (fun p => (fst p, snd p, byType (snd p) birthDate deathDate))
      (places birthPlace deathPlace)
  else [].

Definition memberVisits (m : MemberData) : list Visit :=
  visits (JS.nonEmpty (md_name m)) (md_birthPlace m) (md_deathPlace m)
    (md_birthDate m) (md_deathDate m).

Definition rowVisits (row : gmap string string) : list Visit :=
  visits (JS.truthy (row !! "name"))
    (JS.or (row !! "birth_place") (row !! "birthplace"))
    (JS.or (row !! "death_place") (row !! "deathplace"))
    (JS.or (row !! "birth_date") (row !! "birthdate"))
    (JS.or (row !! "death_date") (row !! "deathdate")).

(** The fields of a location that the handler chooses: all but the id and
    the creation date. *)
Definition chosen (l : Location)
    : string * number * number * option string * option string * option string * option Z :=
  (loc_name l, loc_latitude l, loc_longitude l, loc_address l, loc_locationType l,
   loc_timeSpan l, loc_memberCount l).

(** What a visit whose request is the effect number [n] has to create:
    nothing when the request does not resolve, and otherwise one location
    named after the place, at the coordinates of the reply, with the role as
    type, the role's date as time span and member count 1. *)
Definition due (w : World) (v : nat * Visit)
    : option (string * number * number * option string * option string * option string
              * option Z) :=
  let '(n, (place, type, date)) := v in
  match coordsOf (fetch w n place) with
  | Some c => Some (place, c_lat c, c_lng c, Some place, Some type, date, Some 1)
  | None => None
  end.

(** The created locations are, in order, what the visits had to create:
    each visit made one request, the requests are effects of the run (from
    number [n0], before number [n1]) in the order of the visits, and each
    request that resolved gave one location of its own. *)
Definition oneForEachResolved (w : World) (n0 n1 : nat) (vs : list Visit) (c : Created)
    : Prop :=
  exists requests : list nat,
    length requests = length vs /\
    StronglySorted lt requests /\
    Forall (fun n => (n0 <= n < n1)%nat) requests /\
    List.map chosen (createdLocations c) = omap (due w) (combine requests vs).

(** The created locations are entities of their own: their ids are
    pairwise different and each is in the store under its id. *)
Definition storedApart (c : Created) (s : Sys) : Prop :=
  NoDup (List.map loc_id (createdLocations c)) /\
  forall l, In l (createdLocations c) -> locations (storage s) !! loc_id l = Some l.

(** What holds while a run that started at effect number [n0] goes on:
    the visits made so far created their locations; the id of every
    created location was drawn during the run; and if [randomUUID] never
    draws an id twice the created locations are stored apart. *)
Definition ran (w : World) (n0 : nat) (vs : list Visit) (c : Created) (s : Sys) : Prop :=
  (n0 <= tick s)%nat /\
  oneForEachResolved w n0 (tick s) vs c /\
  Forall (fun l => exists n, (n < tick s)%nat /\ loc_id l = randomUUID w n)
    (createdLocations c) /\
  ((forall a b, randomUUID w a = randomUUID w b -> a = b) -> storedApart c s).

(** The reply of the service for one match with the given coordinates. *)
Definition entry (lat lon : string) : Json.value :=
  Json.JArray [Json.JObject [("lat", Json.JString lat); ("lon", Json.JString lon)]].

(** A world for the examples: two places resolve, one makes the service
    call fail, every other place has no match. *)
Definition sampleWorld : World :=
  mkWorld
    (fun _ address =>
       if String.eqb address "Boston" then Data (entry "42.3601" "-71.0589")
       else if String.eqb address "Chicago" then Data (entry "41.8781" "-87.6298")
       else if String.eqb address "Atlantis" then Threw
       else Data (Json.JArray []))
    (fun n => "uuid-" +:+ JS.showNat n)
    (fun n => Z.of_nat n).

(** An engine for the examples: it reads no date outside the date-only
    forms and leaves an array that it cannot sort as it is. *)
Definition plainEngine : Engine :=
  mkEngine (fun _ => None) (fun l => l) (fun l => Permutation_refl l).

(** A CSV file with two people born in the same place. *)
Definition sharedPlace : string := "name,birth_date,birth_place
Jane Doe,1900,Boston
John Doe,,Boston".

(** One person with a birth in Boston in 1900 and a death in Chicago in
    1950. *)
Definition jane : FamilyMember :=
  mkFamilyMember "uuid-0" "Jane Doe" (Some "1900") (Some "1950") (Some "Boston")
    (Some "Chicago") (Some "A teacher.") (Some []) (Some 0).
Definition boston : Location :=
  mkLocation "uuid-2" "Boston" (parseFloat "42.3601") (parseFloat "-71.0589")
    (Some "Boston") (Some "birth") (Some "1900") (Some 1) (Some 2).
Definition chicago : Location :=
  mkLocation "uuid-5" "Chicago" (parseFloat "41.8781") (parseFloat "-87.6298")
    (Some "Chicago") (Some "death") (Some "1950") (Some 1) (Some 5).
Definition janeBirth : Event :=
  Storage.mkEvent "uuid-3" (JS.Value "uuid-0") (Some "uuid-2") "birth" (Some "1900")
    (Some "Born in Boston") (Some "") (Some 3).
Definition janeDeath : Event :=
  Storage.mkEvent "uuid-6" (JS.Value "uuid-0") (Some "uuid-5") "death" (Some "1950")
    (Some "Died in Chicago") (Some "") (Some 6).

End RoutesSpec.

(** ** What parseGedcom keeps true while it scans *)

Module GedcomInv.

Import Gedcom.

(** An event that was closed: exactly one of its date and place is set,
    its type is one of the four the parser opens, and it has no
    description. *)
Definition closed (e : GedcomEvent) : Prop :=
  ((exists d, ev_date e = Some d) /\ ev_place e = None \/
   ev_date e = None /\ (exists p, ev_place e = Some p)) /\
  In (ev_type e) ["birth"; "death"; "residence"; "marriage"] /\
  ev_description e = None.

(** A pending event: nothing is set yet. *)
Definition fresh (e : GedcomEvent) : Prop :=
  ev_date e = None /\ ev_place e = None /\
  In (ev_type e) ["birth"; "death"; "residence"; "marriage"] /\
  ev_description e = None.

(** Not both of two optional fields are set. *)
Definition notBoth (a b : option string) : Prop := a = None \/ b = None.

Definition goodIndividual (flat : list GedcomEvent) (i : GedcomIndividual) : Prop :=
  JS.includes (ind_id i) "INDI" = true /\
  JS.includes (ind_name i) "/" = false /\
  notBoth (ind_birthDate i) (ind_birthPlace i) /\
  notBoth (ind_deathDate i) (ind_deathPlace i) /\
  Forall closed (ind_events i) /\
  Forall (fun e => In e flat) (ind_events i).

Definition goodFamily (f : GedcomFamily) : Prop :=
  JS.includes (fam_id f) "INDI" = false /\
  JS.includes (fam_id f) "FAM" = true /\
  notBoth (fam_marriageDate f) (fam_marriagePlace f).

Definition goodData (d : ParsedGedcomData) : Prop :=
  Forall (goodIndividual (events d)) (individuals d) /\
  Forall goodFamily (families d) /\
  Forall closed (events d).

Definition invariant (st : state) : Prop :=
  goodData (out st) /\
  (forall i, currentIndividual st = Some i -> goodIndividual (events (out st)) i) /\
  (forall f, currentFamily st = Some f -> goodFamily f) /\
  (forall e, currentEvent st = Some e -> fresh e).

End GedcomInv.

(** ** What a run of an upload handler pairs up *)

Module UploadSpec.

Import Storage Routes.

(** The fields that the server's member and the client's CSV record have
    in common. *)
Definition memberFields (m : FamilyMember)
    : string * option string * option string * option string * option string :=
  (fm_name m, fm_birthDate m, fm_deathDate m, fm_birthPlace m, fm_deathPlace m).

Definition individualFields (i : Gedcom.GedcomIndividual)
    : string * option string * option string * option string * option string :=
  (Gedcom.ind_name i, Gedcom.ind_birthDate i, Gedcom.ind_deathDate i,
   Gedcom.ind_birthPlace i, Gedcom.ind_deathPlace i).

(** A line that opens an individual for [parseGedcomData]. *)
Definition startsIndividual (line : string) : bool :=
  JS.startsWith (JS.trim line) "0" && JS.includes (JS.trim line) "INDI".

(** The event [e] was created for the location [l] and for one of
    [members]: it refers to both by id, has the location's type and time
    span as type and date, the description made from the type and the
    place, and empty notes. *)
Definition paired (members : list FamilyMember) (l : Location) (e : Event) : Prop :=
  evt_locationId e = Some (loc_id l) /\
  (exists m, In m members /\ evt_memberId e = JS.Value (fm_id m)) /\
  loc_locationType l = Some (evt_eventType e) /\
  (evt_eventType e = "birth" \/ evt_eventType e = "death") /\
  evt_eventDate e = loc_timeSpan l /\
  evt_description e =
    Some ((if String.eqb (evt_eventType e) "birth" then "Born" else "Died")
            +:+ " in " +:+ loc_name l) /\
  evt_notes e = Some "".

Definition allPaired (c : Created) : Prop :=
  Forall2 (paired (createdMembers c)) (createdLocations c) (createdEvents c).

End UploadSpec.

(** ** The read and delete methods of the store *)

Module StorageOps.

Import Storage.

(** [this.<collection>.get(id)] *)
Definition getFamilyMember (s : MemStorage) (id : string) : option FamilyMember :=
  familyMembers s !! id.
Definition getLocation (s : MemStorage) (id : string) : option Location :=
  locations s !! id.
Definition getEvent (s : MemStorage) (id : string) : option Event :=
  events s !! id.
Definition getStory (s : MemStorage) (id : string) : option Story :=
  stories s !! id.
Definition getGeopackageLayer (s : MemStorage) (id : string) : option GeopackageLayer :=
  geopackageLayers s !! id.
Definition getAtlasProject (s : MemStorage) (id : string) : option AtlasProject :=
  atlasProjects s !! id.

(** [map.delete(id)]: whether the key was there, and the map without it. *)
Definition deleteIn {E : Type} (m : gmap string E) (id : string) : bool * gmap string E :=
  (bool_decide (is_Some (m !! id)), delete id m).

Definition deleteFamilyMember (s : MemStorage) (id : string) : bool * MemStorage :=
  let '(r, m) := deleteIn (familyMembers s) id in
  (r, mkStorage m (locations s) (events s) (stories s) (geopackageLayers s) (atlasProjects s)).

Definition deleteLocation (s : MemStorage) (id : string) : bool * MemStorage :=
  let '(r, m) := deleteIn (locations s) id in
  (r, mkStorage (familyMembers s) m (events s) (stories s) (geopackageLayers s) (atlasProjects s)).

Definition deleteEvent (s : MemStorage) (id : string) : bool * MemStorage :=
  let '(r, m) := deleteIn (events s) id in
  (r, mkStorage (familyMembers s) (locations s) m (stories s) (geopackageLayers s) (atlasProjects s)).

Definition deleteStory (s : MemStorage) (id : string) : bool * MemStorage :=
  let '(r, m) := deleteIn (stories s) id in
  (r, mkStorage (familyMembers s) (locations s) (events s) m (geopackageLayers s) (atlasProjects s)).

Definition deleteGeopackageLayer (s : MemStorage) (id : string) : bool * MemStorage :=
  let '(r, m) := deleteIn (geopackageLayers s) id in
  (r, mkStorage (familyMembers s) (locations s) (events s) (stories s) m (atlasProjects s)).

Definition deleteAtlasProject (s : MemStorage) (id : string) : bool * MemStorage :=
  let '(r, m) := deleteIn (atlasProjects s) id in
  (r, mkStorage (familyMembers s) (locations s) (events s) (stories s) (geopackageLayers s) m).

(** The frame of a [delete*] method on the collection [coll]: it answers
    whether the id was present; afterwards the id is absent, every other
    entry is as before and the other collections are the same ([rest]); on
    an absent id the store is the same. *)
Definition deletes {E : Type} (coll : MemStorage -> gmap string E)
    (delete : MemStorage -> string -> bool * MemStorage)
    (rest : MemStorage -> MemStorage -> Prop) : Prop :=
  forall (s : MemStorage) (id : string),
    (fst (delete s id) = true <-> exists e, coll s !! id = Some e) /\
    coll (snd (delete s id)) !! id = None /\
    (forall id', id' <> id -> coll (snd (delete s id)) !! id' = coll s !! id') /\
    rest s (snd (delete s id)) /\
    (coll s !! id = None -> delete s id = (false, s)).

End StorageOps.

(** ** What the narrative builder's grouping keeps true *)

Module StorySpec.

Import Storage Routes.

(** The groups of an object under construction: the keys are pairwise
    different, no group is empty, and every event sits under its key. *)
Definition grouped (acc : list (string * list Event)) : Prop :=
  NoDup (List.map fst acc) /\
  Forall (fun kv => snd kv <> [] /\ Forall (fun e => memberKey e = fst kv) (snd kv)) acc.

End StorySpec.

(** ** The order the narrative builder sorts into *)

Module SortSpec.

Import Storage Routes.

(** Both events have a date that parses, and the first is not later than
    the second. *)
Definition inOrder (host : string -> option Z) (a b : Event) : Prop :=
  exists ta tb, eventTime host a = Some ta /\ eventTime host b = Some tb /\ ta <= tb.

(** The events of [l] whose time value is [t], in the order of [l]. *)
Definition atTime (host : string -> option Z) (t : Z) (l : list Event) : list Event :=
  List.filter (fun e => bool_decide (eventTime host e = Some t)) l.

End SortSpec.

(** ** The helpers of the PDF generator and the map's timeline filter (client) *)

Module Pdf.

Import Storage.

(** [s.match(/\d{4}/)]: the leftmost four consecutive decimal digits of
    [s], when there are any. *)
Fixpoint matchYear (s : string) : option string :=
  match s with
  | EmptyString => None
  | String a r =>
      match r with
      | String b (String c (String d _)) =>
          if Routes.isDigit a && Routes.isDigit b && Routes.isDigit c && Routes.isDigit d
          then Some (String a (String b (String c (String d EmptyString))))
          else matchYear r
      | _ => None
      end
  end.

(** [extractYear(dateStr)].  [parseInt] of four digits is never NaN
    (lemma [matchYear_parseInt]), so the result is a number. *)
Definition extractYear (dateStr : option string) : Z :=
  match dateStr with
  | Some s =>
      if JS.nonEmpty s then
        match matchYear s with
        | Some m => default 0 (JS.parseInt m)
        | None => 0
        end
      else 0
  | None => 0
  end.

(** [Math.min(...l)] and [Math.max(...l)] of integers; [None] is the
    infinity returned for an empty list. *)
Definition minimum (l : list Z) : option Z :=
  match l with
  | [] => None
  | x :: r => Some (fold_right Z.min x r)
  end.

Definition maximum (l : list Z) : option Z :=
  match l with
  | [] => None
  | x :: r => Some (fold_right Z.max x r)
  end.

(** Template-literal rendering of an integer. *)
Definition showInt (z : Z) : string :=
  if z <? 0 then "-" +:+ JS.showNat (Z.to_nat (- z)) else JS.showNat (Z.to_nat z).

(** The positive years among the members' birth and death dates. *)
Definition memberYears (familyMembers : list FamilyMember) : list Z :=
  List.filter (fun year => 0 <? year)
    (List.map extractYear
       (List.filter JS.truthy
          (flat_map (fun member => [fm_birthDate member; fm_deathDate member])
             familyMembers))).

(** [calculateTimeSpan(familyMembers)] *)
Definition calculateTimeSpan (familyMembers : list FamilyMember) : string :=
  match familyMembers with
  | [] => ""
  | _ =>
      match minimum (memberYears familyMembers), maximum (memberYears familyMembers) with
      | Some minYear, Some maxYear => showInt minYear +:+ " - " +:+ showInt maxYear
      | _, _ => ""
      end
  end.

(** [earliestYear] of [groupByGeneration]: the least positive birth year,
    [None] for the infinity of no such year. *)
Definition earliestYear (members : list FamilyMember) : option Z :=
  minimum (List.filter (fun y => 0 <? y)
             (List.map (fun m => extractYear (fm_birthDate m)) members)).

(** [generationIndex] as an array index.  [None] is a value that is no
    array index (negative, or minus infinity when there is no earliest
    year): a write under it sets a property that is no element. *)
Definition generationIndex (earliest : option Z) (birthYear : Z) : option nat :=
  if 0 <? birthYear then
    match earliest with
    | Some e => if (birthYear - e) / 30 <? 0 then None
                else Some (Z.to_nat ((birthYear - e) / 30))
    | None => None
    end
  else Some 0%nat.

(** [if (!generations[i]) generations[i] = []; generations[i].push(member)]
    on an array whose holes are [None]; a write past the end leaves holes
    in between. *)
Fixpoint pushAt (i : nat) (member : FamilyMember)
    (generations : list (option (list FamilyMember))) : list (option (list FamilyMember)) :=
  match i, generations with
  | O, [] => [Some [member]]
  | O, g :: rest => Some (default [] g ++ [member]) :: rest
  | S k, [] => None :: pushAt k member []
  | S k, g :: rest => g :: pushAt k member rest
  end.

(** The body of [members.forEach]. *)
Definition place (earliest : option Z) (generations : list (option (list FamilyMember)))
    (member : FamilyMember) : list (option (list FamilyMember)) :=
  match generationIndex earliest (extractYear (fm_birthDate member)) with
  | Some i => pushAt i member generations
  | None => generations
  end.

(** [generations.filter(gen => gen.length > 0)]: [filter] skips the holes. *)
Fixpoint compact (generations : list (option (list FamilyMember)))
    : list (list FamilyMember) :=
  match generations with
  | [] => []
  | Some (m :: g) :: rest => (m :: g) :: compact rest
  | _ :: rest => compact rest
  end.

(** [groupByGeneration(members)] *)
Definition groupByGeneration (members : list FamilyMember) : list (list FamilyMember) :=
  match members with
  | [] => []
  | _ => compact (fold_left (place (earliestYear members)) members [])
  end.

(** [list.sort((a, b) => key(a) - key(b))] for an integer key: the stable
    sort by ascending key. *)
Fixpoint insertBy {A : Type} (key : A -> Z) (x : A) (l : list A) : list A :=
  match l with
  | [] => [x]
  | y :: rest => if key x <=? key y then x :: l else y :: insertBy key x rest
  end.

Definition sortBy {A : Type} (key : A -> Z) (l : list A) : list A :=
  fold_right (insertBy key) [] l.

(** An entry of the timeline page. *)
Record TimelineEvent : Type := mkTimelineEvent {
  te_date : string;
  te_event : string;
  te_year : Z
}.

(** The entries that [generateTimelinePage] collects for one member. *)
Definition memberEvents (member : FamilyMember) : list TimelineEvent :=
  (if JS.truthy (fm_birthDate member) then
     [mkTimelineEvent (default "" (fm_birthDate member))
        (fm_name member +:+ " born" +:+
         (if JS.truthy (fm_birthPlace member)
          then " in " +:+ default "" (fm_birthPlace member) else ""))
        (extractYear (fm_birthDate member))]
   else []) ++
  (if JS.truthy (fm_deathDate member) then
     [mkTimelineEvent (default "" (fm_deathDate member))
        (fm_name member +:+ " died" +:+
         (if JS.truthy (fm_deathPlace member)
          then " in " +:+ default "" (fm_deathPlace member) else ""))
        (extractYear (fm_deathDate member))]
   else []).

(** The sorted entries that [generateTimelinePage] prints. *)
Definition timelineEvents (familyMembers : list FamilyMember) : list TimelineEvent :=
  sortBy te_year (flat_map memberEvents familyMembers).

(** The locations in the order [generateMigrationMap] draws them. *)
Definition sortedLocations (locations : list Location) : list Location :=
  sortBy (fun l => extractYear (loc_timeSpan l)) locations.

(** The predicate of the map's timeline filter. *)
Definition shownAt (timelineYear : Z) (location : Location) : bool :=
  match loc_timeSpan location with
  | Some s =>
      if JS.nonEmpty s then
        match matchYear s with
        | Some m => default 0 (JS.parseInt m) <=? timelineYear
        | None => true
        end
      else true
  | None => true
  end.

(** [locations.filter(...)] of the map view. *)
Definition filteredLocations (timelineYear : Z) (locations : list Location)
    : list Location :=
  List.filter (shownAt timelineYear) locations.

End Pdf.

(** ** What the years of a family are *)

Module PdfSpec.

Import Storage Pdf.

(** [y] is a positive year read from the birth or death date of one of
    the members. *)
Definition isYearOf (familyMembers : list FamilyMember) (y : Z) : Prop :=
  0 < y /\
  exists m, In m familyMembers /\
            (y = extractYear (fm_birthDate m) \/ y = extractYear (fm_deathDate m)).

(** The members of an array with holes, slot after slot. *)
Definition flatten (generations : list (option (list FamilyMember))) : list FamilyMember :=
  concat (List.map (default []) generations).

(** Every member of slot [k] has generation index [k]. *)
Definition slotsOk (earliest : option Z)
    (generations : list (option (list FamilyMember))) : Prop :=
  forall k g, generations !! k = Some (Some g) ->
    Forall (fun m => generationIndex earliest (extractYear (fm_birthDate m)) = Some k) g.

(** A member known by name and dates only. *)
Definition member (name : string) (birth death : option string) : FamilyMember :=
  mkFamilyMember name name birth death None None None None None.

End PdfSpec.

(** * Properties *)

(** ** The string primitives on small inputs *)

Example js_split_space : JS.split "1 NAME John /Smith/" " " = ["1"; "NAME"; "John"; "/Smith/"].
Proof. reflexivity. Qed.
Example js_split_multi : JS.split "2 PLAC Boston PLAC x" "PLAC " = ["2 "; "Boston "; "x"].
Proof. reflexivity. Qed.
Example js_split_end : JS.split "a,b," "," = ["a"; "b"; ""].
Proof. reflexivity. Qed.
Example js_parseInt_ex :
  JS.parseInt "0" = Some 0 /\ JS.parseInt "-0" = Some 0 /\ JS.parseInt "0x1" = Some 1 /\
  JS.parseInt "2abc" = Some 2 /\ JS.parseInt "x" = None /\ JS.parseInt "0x" = None /\
  JS.parseInt "12" = Some 12.
Proof. repeat split; reflexivity. Qed.
Example js_trim_ex : JS.trim "  a b
" = "a b".
Proof. reflexivity. Qed.
Example js_lower_ex : JS.toLowerCase "Birth_Date" = "birth_date".
Proof. reflexivity. Qed.
Example js_show_ex : JS.showNat 12 = "12" /\ JS.showNat 0 = "0".
Proof. split; reflexivity. Qed.

(** ** parseGedcom *)

Section ParserProperties.

Import Gedcom.

Section GedcomLines.

Variable st : state.
Variable line : string.

Let parts := JS.split line " ".
Let level := JS.parseInt (hd "" parts).
Let tag := nth_error parts 1.
Let value := JS.join (skipn 2 parts) " ".

(** A line whose level token is not a number changes nothing. *)
Lemma step_skips_non_numeric :
  level = None -> step st line = Ok st.
Proof.
  unfold step. fold parts. fold level. intros ->. reflexivity.
Qed.

(** A line of a level other than 0, 1 and 2 changes nothing. *)
Lemma step_skips_other_levels :
  levelIs level 0 = false -> levelIs level 1 = false -> levelIs level 2 = false ->
  step st line = Ok st.
Proof.
  unfold step. fold parts. fold level. intros -> -> ->. reflexivity.
Qed.

Lemma step_level1 :
  level = Some 1 -> step st line = Ok (level1 st tag value).
Proof.
  unfold step. fold parts. fold level. intros ->. reflexivity.
Qed.

Lemma step_level2 :
  level = Some 2 -> step st line = Ok (level2 st tag value).
Proof.
  unfold step. fold parts. fold level. intros ->. reflexivity.
Qed.

(** The only line that throws is a level-0 line with no second token. *)
Lemma step_throws_iff :
  step st line = TypeError <-> levelIs level 0 = true /\ tag = None.
Proof.
  unfold step. fold parts. fold level. fold tag.
  destruct (levelIs level 0) eqn:H0.
  - unfold level0. destruct tag as [t|].
    + split; [| intros [_ ?]; discriminate].
      destruct (JS.includes t "INDI"); [discriminate|].
      destruct (JS.includes t "FAM"); discriminate.
    + split; auto.
  - split; [| intros [? _]; discriminate].
    destruct (levelIs level 1); [discriminate|].
    destruct (levelIs level 2); discriminate.
Qed.

End GedcomLines.

(** The event that a level-2 [DATE] or [PLAC] line makes of the pending
    event [e]. *)
Lemma assign_DATE e value :
  assign e (Some "DATE") value = mkEvent (ev_type e) (Some value) (ev_place e) (ev_description e).
Proof. reflexivity. Qed.

Lemma assign_PLAC e value :
  assign e (Some "PLAC") value = mkEvent (ev_type e) (ev_date e) (Some value) (ev_description e).
Proof. reflexivity. Qed.

(** C9: inside an individual context the line [1 NAME John /Smith/] sets the
    display name of the current individual to exactly [John Smith]; the
    individual's other fields, the context and the outputs are unchanged. *)
Theorem name_line_sets_display_name (st : state) (i : GedcomIndividual) :
  currentContext st = Some individual ->
  currentIndividual st = Some i ->
  exists st',
    step st "1 NAME John /Smith/" = Ok st' /\
    currentIndividual st' = Some (set_name i "John Smith") /\
    ind_name (set_name i "John Smith") = "John Smith" /\
    currentContext st' = Some individual /\
    currentFamily st' = currentFamily st /\
    currentEvent st' = currentEvent st /\
    out st' = out st.
Proof.
  intros Hc Hi. eexists. split.
  - apply step_level1. reflexivity.
  - unfold level1. rewrite Hc, Hi. cbn. repeat split; reflexivity.
Qed.

Lemma name_line_sets_display_name_witness :
  exists st',
    step (mkState (mkParsed [] [] []) (Some individual) (Some (newIndividual "INDI1")) None None)
      "1 NAME John /Smith/" = Ok st' /\
    (ind_name <$> currentIndividual st') = Some "John Smith".
Proof.
  destruct (name_line_sets_display_name
              (mkState (mkParsed [] [] []) (Some individual) (Some (newIndividual "INDI1"))
                 None None)
              (newIndividual "INDI1") eq_refl eq_refl) as (st' & H1 & H2 & _).
  exists st'. split; [exact H1 | rewrite H2; reflexivity].
Defined.

(** The same line read by the whole parser. *)
Example parseGedcom_name :
  parseGedcom "0 INDI1
1 NAME John /Smith/" =
  Ok (mkParsed [mkIndividual "INDI1" "John Smith" None None None None None []] [] []).
Proof. reflexivity. Qed.

(** One step of the scan: a level-2 [DATE] or [PLAC] line read while an
    event is pending writes that one field of the event and closes it at
    once: the pending slot is emptied and the event is appended to the flat
    event list in every context.  The record that receives the event is
    the one that is current when the line is read, not the one that opened
    the event: in an individual context the event is appended to the
    current individual's events and a birth or death event overwrites both
    top-level fields of its kind; in a family context a marriage event
    overwrites the current family's marriage date and place. *)
Theorem level2_closes_pending_event (st : state) (line t : string) (e : GedcomEvent) :
  let parts := JS.split line " " in
  let value := JS.join (skipn 2 parts) " " in
  let e' := assign e (Some t) value in
  JS.parseInt (hd "" parts) = Some 2 ->
  nth_error parts 1 = Some t ->
  t = "DATE" \/ t = "PLAC" ->
  currentEvent st = Some e ->
  exists st',
    step st line = Ok st' /\
    (ev_type e' = ev_type e /\
     (t = "DATE" -> ev_date e' = Some value /\ ev_place e' = ev_place e) /\
     (t = "PLAC" -> ev_place e' = Some value /\ ev_date e' = ev_date e)) /\
    currentEvent st' = None /\
    events (out st') = events (out st) ++ [e'] /\
    individuals (out st') = individuals (out st) /\
    families (out st') = families (out st) /\
    currentContext st' = currentContext st /\
    (forall i, currentContext st = Some individual -> currentIndividual st = Some i ->
       exists i',
         currentIndividual st' = Some i' /\
         ind_events i' = ind_events i ++ [e'] /\
         ind_id i' = ind_id i /\ ind_name i' = ind_name i /\ ind_notes i' = ind_notes i /\
         (ev_type e = "birth" ->
            ind_birthDate i' = ev_date e' /\ ind_birthPlace i' = ev_place e' /\
            ind_deathDate i' = ind_deathDate i /\ ind_deathPlace i' = ind_deathPlace i) /\
         (ev_type e = "death" ->
            ind_deathDate i' = ev_date e' /\ ind_deathPlace i' = ev_place e' /\
            ind_birthDate i' = ind_birthDate i /\ ind_birthPlace i' = ind_birthPlace i) /\
         (ev_type e <> "birth" -> ev_type e <> "death" ->
            ind_birthDate i' = ind_birthDate i /\ ind_birthPlace i' = ind_birthPlace i /\
            ind_deathDate i' = ind_deathDate i /\ ind_deathPlace i' = ind_deathPlace i) /\
         currentFamily st' = currentFamily st) /\
    (forall f, currentContext st = Some family -> currentFamily st = Some f ->
       exists f',
         currentFamily st' = Some f' /\
         fam_id f' = fam_id f /\ fam_husband f' = fam_husband f /\
         fam_wife f' = fam_wife f /\ fam_children f' = fam_children f /\
         (ev_type e = "marriage" ->
            fam_marriageDate f' = ev_date e' /\ fam_marriagePlace f' = ev_place e') /\
         (ev_type e <> "marriage" ->
            fam_marriageDate f' = fam_marriageDate f /\
            fam_marriagePlace f' = fam_marriagePlace f) /\
         currentIndividual st' = currentIndividual st).
Proof.
  intros parts value e' Hl Ht Htag He.
  exists (level2 st (Some t) value). split.
  { rewrite <- Ht. apply step_level2. exact Hl. }
  assert (Hb : tagIs (Some t) "DATE" || tagIs (Some t) "PLAC" = true)
    by (destruct Htag; subst t; reflexivity).
  split.
  { subst e'. destruct Htag; subst t; cbn; repeat split; intros; congruence. }
  unfold level2. rewrite He, Hb. fold e'.
  assert (Hty : ev_type e' = ev_type e)
    by (subst e'; destruct Htag; subst t; reflexivity).
  destruct (currentContext st) as [[|]|] eqn:Hc;
    destruct (currentIndividual st) as [i0|] eqn:Hi;
    destruct (currentFamily st) as [f0|] eqn:Hf; cbn;
    (repeat split; try reflexivity; try discriminate; intros).
  all: simplify_eq.
  all: try (eexists; split; [reflexivity|]; rewrite ?Hty).
  all: try (destruct (String.eqb_spec (ev_type e) "birth") as [Hb1|Hb1];
            [| destruct (String.eqb_spec (ev_type e) "death") as [Hd1|Hd1]];
            cbn; repeat split; intros; try reflexivity; try congruence;
            exfalso; rewrite Hb1 in *; discriminate).
  all: try (destruct (String.eqb_spec (ev_type e) "marriage") as [Hm1|Hm1];
            cbn; repeat split; intros; try reflexivity; congruence).
Qed.

Lemma level2_closes_pending_event_witness :
  exists st',
    step (mkState (mkParsed [] [] []) (Some individual) (Some (newIndividual "INDI1")) None
            (Some (newEvent "birth")))
      "2 DATE 1900" = Ok st' /\
    currentEvent st' = None /\
    events (out st') = [mkEvent "birth" (Some "1900") None None] /\
    (ind_birthDate <$> currentIndividual st') = Some (Some "1900") /\
    (ind_events <$> currentIndividual st') = Some [mkEvent "birth" (Some "1900") None None].
Proof.
  destruct (level2_closes_pending_event
              (mkState (mkParsed [] [] []) (Some individual) (Some (newIndividual "INDI1"))
                 None (Some (newEvent "birth")))
              "2 DATE 1900" "DATE" (newEvent "birth")
              eq_refl eq_refl (or_introl eq_refl) eq_refl)
    as (st' & Hs & _ & Hc & He & _ & _ & _ & Hi & _).
  destruct (Hi (newIndividual "INDI1") eq_refl eq_refl)
    as (i' & Hi' & Hev & _ & _ & _ & Hb & _).
  destruct (Hb eq_refl) as (Hd & _).
  exists st'. repeat split; [exact Hs | exact Hc | exact He | |];
    rewrite Hi'; cbn; [rewrite Hd | rewrite Hev]; reflexivity.
Defined.

(** Closing after a single assignment: of [DATE] then [PLAC] under one
    [BIRT], only the date reaches the event and the individual. *)
Example parseGedcom_date_then_place :
  parseGedcom "0 INDI1
1 BIRT
2 DATE 1900
2 PLAC Boston" =
  Ok (mkParsed
        [mkIndividual "INDI1" "" (Some "1900") None None None None
           [mkEvent "birth" (Some "1900") None None]]
        [] [mkEvent "birth" (Some "1900") None None]).
Proof. reflexivity. Qed.

(** Each closed birth event overwrites both birth fields. *)
Example parseGedcom_second_birth_overwrites :
  parseGedcom "0 INDI1
1 BIRT
2 DATE 1900
1 BIRT
2 PLAC Boston" =
  Ok (mkParsed
        [mkIndividual "INDI1" "" None None (Some "Boston") None None
           [mkEvent "birth" (Some "1900") None None; mkEvent "birth" None (Some "Boston") None]]
        []
        [mkEvent "birth" (Some "1900") None None; mkEvent "birth" None (Some "Boston") None]).
Proof. reflexivity. Qed.

(** A marriage event closed in a family context reaches the family and the
    flat list. *)
Example parseGedcom_marriage :
  parseGedcom "0 FAM1
1 HUSB INDI1
1 MARR
2 DATE 1925" =
  Ok (mkParsed []
        [mkFamily "FAM1" (Some "INDI1") None [] (Some "1925") None]
        [mkEvent "marriage" (Some "1925") None None]).
Proof. reflexivity. Qed.

(** The pending event outlives a level-0 line, and its closing follows the
    context of the moment: a marriage event closed inside an individual is
    appended to that individual and to the flat list, and no family gets its
    date. *)
Example parseGedcom_event_follows_context :
  parseGedcom "0 FAM1
1 MARR
0 INDI1
2 DATE 1925" =
  Ok (mkParsed
        [mkIndividual "INDI1" "" None None None None None
           [mkEvent "marriage" (Some "1925") None None]]
        [mkFamily "FAM1" None None [] None None; mkFamily "FAM1" None None [] None None]
        [mkEvent "marriage" (Some "1925") None None]).
Proof. reflexivity. Qed.

(** C2: the pending event is not dropped when the next record starts.
    John's record opens a death event that gets no date or place; the next
    level-2 [DATE] line, the date of a change note in Jane's record, closes
    it on Jane: John has no event, Jane has a death event and a death date,
    and the flat list holds the event. *)
Theorem parseGedcom_closes_event_on_next_record :
  parseGedcom "0 @INDI1@ INDI
1 NAME John /Smith/
1 DEAT Y
0 @INDI2@ INDI
1 NAME Jane /Doe/
1 CHAN
2 DATE 5 MAY 2001
0 TRLR" =
  Ok (mkParsed
        [mkIndividual "@INDI1@" "John Smith" None None None None None [];
         mkIndividual "@INDI2@" "Jane Doe" None (Some "5 MAY 2001") None None None
           [mkEvent "death" (Some "5 MAY 2001") None None]]
        []
        [mkEvent "death" (Some "5 MAY 2001") None None]).
Proof. vm_compute. reflexivity. Qed.

(** *** Which texts make parseGedcom throw *)

Lemma run_throws_iff (lines : list string) :
  forall st, run st lines = TypeError <-> Exists bareLevel0 lines.
Proof.
  induction lines as [|line rest IH]; intros st; cbn.
  - split; [discriminate | intros H; inversion H].
  - destruct (step st line) as [st'|] eqn:Hs; cbn.
    + rewrite IH. split; [intros H; apply Exists_cons_tl; exact H |].
      intros H. inversion H as [? ? Hb|]; subst; [| assumption].
      apply (step_throws_iff st) in Hb. congruence.
    + split; [| reflexivity]. intros _. apply Exists_cons_hd.
      apply (step_throws_iff st). exact Hs.
Qed.

Lemma parseGedcom_throws_iff (gedcomText : string) :
  parseGedcom gedcomText = TypeError <-> Exists bareLevel0 (gedcomLines gedcomText).
Proof.
  unfold parseGedcom. rewrite <- (run_throws_iff _ initial).
  destruct (run initial (gedcomLines gedcomText)); cbn; split; congruence.
Qed.

Lemma parseGedcom_returns (gedcomText : string) :
  Forall (fun line => ~ bareLevel0 line) (gedcomLines gedcomText) ->
  exists d, parseGedcom gedcomText = Ok d.
Proof.
  intros H. destruct (parseGedcom gedcomText) as [d|] eqn:Hp; [eauto|].
  apply parseGedcom_throws_iff in Hp. apply Exists_exists in Hp as (l & Hin & Hb).
  rewrite Forall_forall in H. destruct (H l Hin Hb).
Qed.

(** X1: parseGedcom throws exactly on the texts with a level-0 line that has
    no second token, and returns on all the others; in particular the lines
    whose level token is not a number never make it throw. *)
Theorem parseGedcom_throws_exactly_on_bare_level0 (gedcomText : string) :
  (parseGedcom gedcomText = TypeError <-> Exists bareLevel0 (gedcomLines gedcomText)) /\
  ((exists d, parseGedcom gedcomText = Ok d) <->
   Forall (fun line => ~ bareLevel0 line) (gedcomLines gedcomText)).
Proof.
  split; [apply parseGedcom_throws_iff|]. split.
  - intros [d Hd]. apply Forall_forall. intros l Hin Hb.
    assert (He : Exists bareLevel0 (gedcomLines gedcomText))
      by (apply Exists_exists; eauto).
    apply parseGedcom_throws_iff in He. congruence.
  - apply parseGedcom_returns.
Qed.

(** C3 (the code does not do what the claim says): parseGedcom throws a
    TypeError on a text with a level-0 line that has no tag, here the text
    [0] and a file whose third line is a bare [0]; the claim says it raises
    on no text. *)
Theorem parseGedcom_throws_on_bare_level0 :
  parseGedcom "0" = TypeError /\
  parseGedcom "0 HEAD
1 SOUR x
0
0 TRLR" = TypeError.
Proof. split; reflexivity. Qed.

(** C1 (the code does not do what the claim says): a text with one
    [0 ... INDI] block whose second token lacks [INDI] yields no
    individual, and a text with one such block followed by a family record
    yields the individual twice; the claim says N blocks yield exactly N
    individuals. *)
Theorem parseGedcom_miscounts_individuals :
  (GedcomSpec.indiBlocks "0 @I1@ INDI
1 NAME John /Smith/
0 TRLR" = 1%nat /\
   parseGedcom "0 @I1@ INDI
1 NAME John /Smith/
0 TRLR" = Ok (mkParsed [] [] [])) /\
  (GedcomSpec.indiBlocks "0 @INDI1@ INDI
1 NAME John /Smith/
0 @FAM1@ FAM
0 TRLR" = 1%nat /\
   parseGedcom "0 @INDI1@ INDI
1 NAME John /Smith/
0 @FAM1@ FAM
0 TRLR" =
   Ok (mkParsed
         [mkIndividual "@INDI1@" "John Smith" None None None None None [];
          mkIndividual "@INDI1@" "John Smith" None None None None None []]
         [mkFamily "@FAM1@" None None [] None None] [])).
Proof. repeat split; reflexivity. Qed.

(** *** Counting individuals in a text without family records *)

Lemma includes_nonEmpty (t p : string) :
  JS.nonEmpty p = true -> JS.includes t p = true -> JS.nonEmpty t = true.
Proof. destruct t, p; cbn; congruence. Qed.

Lemma step_counts (st : state) (line : string) :
  ~ bareLevel0 line ->
  GedcomSpec.opensFamily line = false ->
  currentFamily st = None ->
  families (out st) = [] ->
  exists st',
    step st line = Ok st' /\
    currentFamily st' = None /\
    families (out st') = [] /\
    (length (individuals (out st')) + GedcomSpec.unsaved st' =
     length (individuals (out st)) + GedcomSpec.unsaved st +
     (if GedcomSpec.opensIndividual line then 1 else 0))%nat.
Proof.
  unfold bareLevel0, GedcomSpec.opensFamily, GedcomSpec.opensIndividual, step.
  intros Hbare Hfam Hcf Hfs.
  destruct (levelIs (JS.parseInt (hd "" (JS.split line " "))) 0) eqn:H0.
  - destruct (nth_error (JS.split line " ") 1) as [t|]; [| tauto].
    cbn [andb] in *. unfold level0, save. rewrite Hcf, Hfs.
    destruct (JS.includes t "INDI") eqn:Hi.
    + eexists. split; [reflexivity|]. cbn. unfold GedcomSpec.unsaved. cbn.
      rewrite (includes_nonEmpty t "INDI" eq_refl Hi).
      repeat split.
      destruct (currentIndividual st) as [i|]; [destruct (JS.nonEmpty (ind_id i))|];
        rewrite ?length_app; cbn; lia.
    + cbn in Hfam. rewrite Hfam.
      eexists. split; [reflexivity|]. cbn. unfold GedcomSpec.unsaved. cbn.
      repeat split.
      destruct (currentIndividual st) as [i|]; [destruct (JS.nonEmpty (ind_id i))|];
        rewrite ?length_app; cbn; lia.
  - cbn [andb]. rewrite Nat.add_0_r.
    destruct (levelIs (JS.parseInt (hd "" (JS.split line " "))) 1).
    + eexists. split; [reflexivity|]. unfold level1, GedcomSpec.unsaved. rewrite Hcf.
      destruct (currentContext st) as [[|]|]; destruct (currentIndividual st) as [i|] eqn:Hci;
        cbn; rewrite ?Hci; auto.
      repeat match goal with
             | |- context [tagIs ?a ?b] => destruct (tagIs a b)
             end; cbn; rewrite ?Hci; auto.
    + destruct (levelIs (JS.parseInt (hd "" (JS.split line " "))) 2).
      * eexists. split; [reflexivity|]. unfold level2, GedcomSpec.unsaved. rewrite Hcf.
        destruct (currentEvent st) as [e|]; [| auto].
        destruct (tagIs (nth_error (JS.split line " ") 1) "DATE"
                  || tagIs (nth_error (JS.split line " ") 1) "PLAC"); cbn; [| auto].
        destruct (currentContext st) as [[|]|];
          destruct (currentIndividual st) as [i|] eqn:Hci; cbn; rewrite ?Hci; auto.
        destruct (String.eqb (ev_type _) "birth"); [| destruct (String.eqb (ev_type _) "death")];
          cbn; auto.
      * eexists. split; [reflexivity|]. auto.
Qed.

Lemma run_counts (lines : list string) :
  forall st,
    Forall (fun line => ~ bareLevel0 line /\ GedcomSpec.opensFamily line = false) lines ->
    currentFamily st = None ->
    families (out st) = [] ->
    exists st',
      run st lines = Ok st' /\
      currentFamily st' = None /\
      families (out st') = [] /\
      (length (individuals (out st')) + GedcomSpec.unsaved st' =
       length (individuals (out st)) + GedcomSpec.unsaved st +
       length (List.filter GedcomSpec.opensIndividual lines))%nat.
Proof.
  induction lines as [|line rest IH]; intros st Hall Hcf Hfs.
  - exists st. cbn. repeat split; auto; lia.
  - pose proof (Forall_inv Hall) as [Hb Hf]. pose proof (Forall_inv_tail Hall) as Hrest.
    destruct (step_counts st line Hb Hf Hcf Hfs) as (st1 & Hs & Hcf1 & Hfs1 & Hn1).
    destruct (IH st1 Hrest Hcf1 Hfs1) as (st' & Hr & Hcf' & Hfs' & Hn').
    exists st'. cbn [run]. rewrite Hs. cbn [bind]. repeat split; auto.
    cbn [List.filter]. destruct (GedcomSpec.opensIndividual line); cbn [length]; lia.
Qed.

(** X2: in a text where every level-0 line has a second token and none
    opens a family, parseGedcom returns, and returns exactly as many
    individuals as there are level-0 lines whose second token contains
    [INDI]. *)
Theorem parseGedcom_counts_without_families (gedcomText : string) :
  Forall (fun line => ~ bareLevel0 line /\ GedcomSpec.opensFamily line = false)
    (gedcomLines gedcomText) ->
  exists d,
    parseGedcom gedcomText = Ok d /\
    length (individuals d) =
      length (List.filter GedcomSpec.opensIndividual (gedcomLines gedcomText)) /\
    families d = [].
Proof.
  intros Hall.
  destruct (run_counts _ initial Hall eq_refl eq_refl) as (st' & Hr & Hcf & Hfs & Hn).
  exists (save st'). unfold parseGedcom. rewrite Hr. cbn [bind]. split; [reflexivity|].
  unfold save. rewrite Hcf, Hfs. cbn. split; [| reflexivity].
  unfold GedcomSpec.unsaved in Hn. cbn in Hn.
  destruct (currentIndividual st') as [i|]; [destruct (JS.nonEmpty (ind_id i))|];
    rewrite ?length_app; cbn; lia.
Qed.

Lemma parseGedcom_counts_without_families_witness :
  exists d,
    parseGedcom "0 HEAD
0 INDI1
1 NAME John /Smith/
0 INDI2
1 NAME Jane /Doe/
0 TRLR" = Ok d /\ length (individuals d) = 2%nat.
Proof.
  destruct (parseGedcom_counts_without_families "0 HEAD
0 INDI1
1 NAME John /Smith/
0 INDI2
1 NAME Jane /Doe/
0 TRLR") as (d & Hd & Hn & _).
  - repeat constructor; try reflexivity; intros [? ?]; discriminate.
  - exists d. split; [exact Hd | exact Hn].
Defined.

(** ** parseCsv *)

Lemma showNat_inj (n n' : nat) : JS.showNat n = JS.showNat n' -> n = n'.
Proof.
  assert (H : forall k, option_map Nat.of_uint
                          (NilZero.uint_of_string (JS.showNat k)) = Some k).
  { intros k. unfold JS.showNat.
    pose proof (DecimalNat.Unsigned.of_to k) as Hk.
    destruct (Nat.to_uint k) eqn:Hd;
      [cbn in *; congruence | rewrite NilZero.usu by discriminate; cbn; f_equal; exact Hk ..]. }
  intros E. pose proof (H n) as Hn. rewrite E, H in Hn. congruence.
Qed.

Lemma or_firstNonEmpty (a b : option string) :
  GedcomSpec.firstNonEmpty a b (JS.or (JS.or a b) None).
Proof.
  unfold GedcomSpec.firstNonEmpty, JS.or.
  destruct (JS.truthy a) eqn:Ha; [rewrite Ha|]; repeat split; try congruence.
  - intros _ Hb. rewrite Hb. reflexivity.
  - intros _ Hb. rewrite Hb. reflexivity.
Qed.

(** What [csvIndividual] builds, field by field. *)
Lemma csvIndividual_Some (i : nat) (row : gmap string string) (ind : GedcomIndividual) :
  csvIndividual i row = Some ind ->
  JS.truthy (row !! "name") = true /\
  row !! "name" = Some (ind_name ind) /\
  ind_name ind <> "" /\
  ind_id ind = "I" +:+ JS.showNat i /\
  ind_birthDate ind = JS.or (JS.or (row !! "birth_date") (row !! "birthdate")) None /\
  ind_deathDate ind = JS.or (JS.or (row !! "death_date") (row !! "deathdate")) None /\
  ind_birthPlace ind = JS.or (JS.or (row !! "birth_place") (row !! "birthplace")) None /\
  ind_deathPlace ind = JS.or (JS.or (row !! "death_place") (row !! "deathplace")) None /\
  ind_events ind =
    csvEvents (ind_birthDate ind) (ind_deathDate ind) (ind_birthPlace ind) (ind_deathPlace ind).
Proof.
  unfold csvIndividual. destruct (row !! "name") as [[|c r]|]; try discriminate.
  intros [= <-]. cbn. repeat split; discriminate.
Qed.

Lemma csvIndividual_None (i : nat) (row : gmap string string) :
  csvIndividual i row = None <-> JS.truthy (row !! "name") = false.
Proof.
  unfold csvIndividual. destruct (row !! "name") as [[|c r]|]; cbn; split; congruence.
Qed.

Lemma csvLoop_acc (headers : list string) (rows : list string) :
  forall i acc ind, ind ∈ acc -> ind ∈ csvLoop headers i rows acc.
Proof.
  induction rows as [|line rest IH]; intros i acc ind Hin; cbn; [exact Hin|].
  destruct (csvIndividual i (csvRow headers line)); apply IH; [|exact Hin].
  apply elem_of_app. left. exact Hin.
Qed.

(** Every record of the loop's result was in the accumulator or was built
    from one of the rows. *)
Lemma csvLoop_elem (headers : list string) (rows : list string) :
  forall i acc ind,
    ind ∈ csvLoop headers i rows acc ->
    ind ∈ acc \/
    exists j line, rows !! j = Some line /\
                   csvIndividual (i + j) (csvRow headers line) = Some ind.
Proof.
  induction rows as [|line rest IH]; intros i acc ind Hin; cbn in Hin; [left; exact Hin|].
  destruct (csvIndividual i (csvRow headers line)) as [new|] eqn:Hnew;
    apply IH in Hin as [Hin | (j & l & Hj & Hl)].
  - apply elem_of_app in Hin as [Hin | Hin]; [left; exact Hin|].
    apply list_elem_of_singleton in Hin as ->.
    right. exists 0%nat, line. split; [reflexivity|]. rewrite Nat.add_0_r. exact Hnew.
  - right. exists (S j), l. split; [exact Hj|].
    rewrite Nat.add_succ_r. exact Hl.
  - left. exact Hin.
  - right. exists (S j), l. split; [exact Hj|].
    rewrite Nat.add_succ_r. exact Hl.
Qed.

(** Every row with a non-empty name has its record in the result. *)
Lemma csvLoop_complete (headers : list string) (rows : list string) :
  forall i acc j line ind,
    rows !! j = Some line ->
    csvIndividual (i + j) (csvRow headers line) = Some ind ->
    ind ∈ csvLoop headers i rows acc.
Proof.
  induction rows as [|l rest IH]; intros i acc j line ind Hj Hi; [discriminate|].
  destruct j as [|j]; cbn in *.
  - simplify_eq. rewrite Nat.add_0_r in Hi. rewrite Hi.
    apply csvLoop_acc. apply elem_of_app. right. apply list_elem_of_singleton. reflexivity.
  - rewrite Nat.add_succ_r in Hi.
    destruct (csvIndividual i (csvRow headers l)); eapply (IH (S i)); eauto.
Qed.

Lemma parseCsv_elem (csvText : string) (ind : GedcomIndividual) :
  ind ∈ parseCsv csvText ->
  exists line0 rows j line,
    csvLines csvText = line0 :: rows /\ rows !! j = Some line /\
    csvIndividual (S j) (csvRow (csvHeaders line0) line) = Some ind.
Proof.
  unfold parseCsv. destruct (csvLines csvText) as [|line0 [|r rows]] eqn:Hl;
    try (intros H; inversion H; fail).
  intros H. apply csvLoop_elem in H as [H | (j & line & Hj & Hi)]; [inversion H|].
  exists line0, (r :: rows), j, line. auto.
Qed.

(** C5: the header [name,birth_date,birth_place] with the row
    [Jane Doe,1900,Boston] gives exactly one record, with birth date 1900,
    birth place Boston and exactly one event, a birth event; and every
    record parseCsv returns comes from a data row read against the header
    columns lowercased and trimmed, with each pair of alias columns merged
    first non-empty wins. *)
Theorem parseCsv_normalizes :
  parseCsv "name,birth_date,birth_place
Jane Doe,1900,Boston" =
    [mkIndividual "I1" "Jane Doe" (Some "1900") None (Some "Boston") None None
       [mkEvent "birth" (Some "1900") (Some "Boston") (Some "Born in Boston")]] /\
  (forall csvText ind,
     ind ∈ parseCsv csvText ->
     exists line0 rows j line,
       csvLines csvText = line0 :: rows /\ rows !! j = Some line /\
       let headers := List.map (fun h => JS.toLowerCase (JS.trim h)) (JS.split line0 ",") in
       let row := csvRow headers line in
       row !! "name" = Some (ind_name ind) /\
       GedcomSpec.firstNonEmpty (row !! "birth_date") (row !! "birthdate") (ind_birthDate ind) /\
       GedcomSpec.firstNonEmpty (row !! "death_date") (row !! "deathdate") (ind_deathDate ind) /\
       GedcomSpec.firstNonEmpty (row !! "birth_place") (row !! "birthplace") (ind_birthPlace ind) /\
       GedcomSpec.firstNonEmpty (row !! "death_place") (row !! "deathplace") (ind_deathPlace ind)).
Proof.
  split; [vm_compute; reflexivity|].
  intros csvText ind Hin.
  apply parseCsv_elem in Hin as (line0 & rows & j & line & Hl & Hj & Hi).
  exists line0, rows, j, line. split; [exact Hl|]. split; [exact Hj|].
  apply csvIndividual_Some in Hi as (_ & Hn & _ & _ & -> & -> & -> & -> & _).
  cbn zeta. fold (csvHeaders line0).
  split; [exact Hn|]. repeat split; apply or_firstNonEmpty.
Qed.

(** The row object is the header-mapped line: a key that is no header is
    absent, and a header names the value in the column of its last
    occurrence (the empty string when the line is too short). *)
Lemma fillRow_lookup_notin (values headers : list string) :
  forall k row key, key ∉ headers -> fillRow values k headers row !! key = row !! key.
Proof.
  induction headers as [|h rest IH]; intros k row key Hn; cbn; [reflexivity|].
  apply not_elem_of_cons in Hn as [Hne Hn].
  rewrite IH by exact Hn. apply lookup_insert_ne. congruence.
Qed.

Lemma fillRow_lookup (values headers : list string) :
  forall k row key j,
    headers !! j = Some key ->
    (forall j', (j < j')%nat -> headers !! j' <> Some key) ->
    fillRow values k headers row !! key = Some (default "" (values !! (k + j)%nat)).
Proof.
  induction headers as [|h rest IH]; intros k row key j Hj Hlast; [discriminate|].
  destruct j as [|j]; cbn in *.
  - simplify_eq. rewrite fillRow_lookup_notin.
    + rewrite lookup_insert_eq, Nat.add_0_r. reflexivity.
    + intros Hin. apply list_elem_of_lookup in Hin as [j' Hj'].
      apply (Hlast (S j')); [lia | exact Hj'].
  - rewrite (IH (S k) _ key j Hj).
    + rewrite Nat.add_succ_r. reflexivity.
    + intros j' Hlt. apply (Hlast (S j')). lia.
Qed.

Lemma csvRow_lookup (headers : list string) (line key : string) (j : nat) :
  headers !! j = Some key ->
  (forall j', (j < j')%nat -> headers !! j' <> Some key) ->
  csvRow headers line !! key = Some (default "" (csvValues line !! j)).
Proof. intros Hj Hlast. unfold csvRow. rewrite (fillRow_lookup _ _ 0%nat _ key j); auto. Qed.

Lemma csvRow_lookup_notin (headers : list string) (line key : string) :
  key ∉ headers -> csvRow headers line !! key = None.
Proof. intros Hn. unfold csvRow. rewrite fillRow_lookup_notin by exact Hn. apply lookup_empty. Qed.

(** C8: no record of parseCsv's result has an empty name; a data row whose
    name column is empty (or missing) has no record in the result, records
    being told apart by the line number in their id; and parseCsv is a
    function of its input, so a second run on the same text skips the same
    rows. *)
Theorem parseCsv_skips_empty_names :
  (forall csvText ind, ind ∈ parseCsv csvText -> ind_name ind <> "") /\
  (forall csvText line0 rows j line,
     csvLines csvText = line0 :: rows ->
     rows !! j = Some line ->
     JS.truthy (csvRow (csvHeaders line0) line !! "name") = false ->
     forall ind, ind ∈ parseCsv csvText -> ind_id ind <> "I" +:+ JS.showNat (S j)) /\
  (forall csvText csvText', csvText = csvText' -> parseCsv csvText = parseCsv csvText').
Proof.
  split; [| split].
  - intros csvText ind Hin.
    apply parseCsv_elem in Hin as (line0 & rows & j & line & _ & _ & Hi).
    apply csvIndividual_Some in Hi. tauto.
  - intros csvText line0 rows j line Hl Hj Hname ind Hin Hid.
    apply parseCsv_elem in Hin as (line0' & rows' & j' & line' & Hl' & Hj' & Hi).
    rewrite Hl in Hl'. injection Hl' as <- <-.
    pose proof (csvIndividual_Some _ _ _ Hi) as (Ht & _ & _ & Hid' & _).
    rewrite Hid' in Hid. injection Hid as Hid. apply showNat_inj in Hid.
    injection Hid as ->. rewrite Hj in Hj'. injection Hj' as <-.
    congruence.
  - intros ? ? ->. reflexivity.
Qed.

(** The rows that are not skipped are all there. *)
Lemma parseCsv_keeps_named_rows (csvText line0 line : string) (rows : list string) (j : nat) :
  csvLines csvText = line0 :: rows ->
  rows !! j = Some line ->
  JS.truthy (csvRow (csvHeaders line0) line !! "name") = true ->
  exists ind, ind ∈ parseCsv csvText /\ ind_id ind = "I" +:+ JS.showNat (S j) /\
              csvRow (csvHeaders line0) line !! "name" = Some (ind_name ind).
Proof.
  intros Hl Hj Hname.
  destruct (csvIndividual (S j) (csvRow (csvHeaders line0) line)) as [ind|] eqn:Hi.
  - exists ind. pose proof (csvIndividual_Some _ _ _ Hi) as (_ & Hn & _ & Hid & _).
    split; [| auto]. unfold parseCsv. rewrite Hl.
    destruct rows as [|r rows']; [discriminate|].
    eapply csvLoop_complete; eauto.
  - apply csvIndividual_None in Hi. congruence.
Qed.

Example parseCsv_skips_example :
  parseCsv "name,birth_date
,1900
Jane Doe,1901
   ,1902" =
  [mkIndividual "I2" "Jane Doe" (Some "1901") None None None None
     [mkEvent "birth" (Some "1901") None (Some "Born in unknown location")]].
Proof. vm_compute. reflexivity. Qed.

End ParserProperties.

(** ** MemStorage *)

Section ServerProperties.

Import Gedcom Storage Routes.

(** Every key of a spread is the update's value when the update names it
    and the old value otherwise. *)
Lemma over_field {A : Type} (old : A) (upd : option A) :
  StorageSpec.field old upd (over old upd).
Proof. destruct upd; reflexivity. Qed.

Lemma updateIn_present {E P : Type} (spread : E -> P -> E) (m : gmap string E)
    (id : string) (u : P) (old : E) :
  m !! id = Some old ->
  updateIn spread m id u = (Some (spread old u), <[id := spread old u]> m).
Proof. unfold updateIn. intros ->. reflexivity. Qed.

Lemma updateIn_absent {E P : Type} (spread : E -> P -> E) (m : gmap string E)
    (id : string) (u : P) :
  m !! id = None -> updateIn spread m id u = (None, m).
Proof. unfold updateIn. intros ->. reflexivity. Qed.

Ltac update_frame :=
  let s := fresh "s" in
  let id := fresh "id" in
  let u := fresh "u" in
  let old := fresh "old" in
  let Hold := fresh "Hold" in
  intros s id u;
  unfold updateFamilyMember, updateLocation, updateEvent, updateStory,
    updateGeopackageLayer, updateAtlasProject;
  destruct s; cbn;
  match goal with
  | |- context [updateIn ?f ?m id u] =>
      destruct (m !! id) as [old|] eqn:Hold;
      [ rewrite (updateIn_present f m id u old Hold)
      | rewrite (updateIn_absent f m id u Hold); reflexivity ]
  end;
  eexists _, _; split; [reflexivity|]; cbn;
  split; [apply lookup_insert_eq|];
  split; [repeat split; try reflexivity; apply over_field|];
  split; [intros ? ?; apply lookup_insert_ne; congruence|];
  repeat split; reflexivity.

(** C10: for each of the six collections of MemStorage, an update of a
    present id changes only the entry of that id, keeps its id, its
    createdAt and every field the partial update does not name, and leaves
    every other entry and every other collection as it was; an update of an
    absent id returns undefined and leaves the whole store as it was. *)
Theorem update_changes_only_named_fields :
  StorageSpec.frame familyMembers updateFamilyMember StorageSpec.keptFamilyMember
    (fun s s' => locations s' = locations s /\ events s' = events s /\
                 stories s' = stories s /\ geopackageLayers s' = geopackageLayers s /\
                 atlasProjects s' = atlasProjects s) /\
  StorageSpec.frame locations updateLocation StorageSpec.keptLocation
    (fun s s' => familyMembers s' = familyMembers s /\ events s' = events s /\
                 stories s' = stories s /\ geopackageLayers s' = geopackageLayers s /\
                 atlasProjects s' = atlasProjects s) /\
  StorageSpec.frame events updateEvent StorageSpec.keptEvent
    (fun s s' => familyMembers s' = familyMembers s /\ locations s' = locations s /\
                 stories s' = stories s /\ geopackageLayers s' = geopackageLayers s /\
                 atlasProjects s' = atlasProjects s) /\
  StorageSpec.frame stories updateStory StorageSpec.keptStory
    (fun s s' => familyMembers s' = familyMembers s /\ locations s' = locations s /\
                 events s' = events s /\ geopackageLayers s' = geopackageLayers s /\
                 atlasProjects s' = atlasProjects s) /\
  StorageSpec.frame geopackageLayers updateGeopackageLayer StorageSpec.keptGeopackageLayer
    (fun s s' => familyMembers s' = familyMembers s /\ locations s' = locations s /\
                 events s' = events s /\ stories s' = stories s /\
                 atlasProjects s' = atlasProjects s) /\
  StorageSpec.frame atlasProjects updateAtlasProject StorageSpec.keptAtlasProject
    (fun s s' => familyMembers s' = familyMembers s /\ locations s' = locations s /\
                 events s' = events s /\ stories s' = stories s /\
                 geopackageLayers s' = geopackageLayers s).
Proof.
  repeat split; unfold StorageSpec.frame, StorageSpec.keptFamilyMember,
    StorageSpec.keptLocation, StorageSpec.keptEvent, StorageSpec.keptStory,
    StorageSpec.keptGeopackageLayer, StorageSpec.keptAtlasProject; update_frame.
Qed.

Example updateLocation_example :
  let l := mkLocation "a" "Boston" (intLit 0) (intLit 0) None (Some "birth") (Some "1900")
             (Some 1) (Some 0) in
  let s := mkStorage ∅ {[ "a" := l ]} ∅ ∅ ∅ ∅ in
  fst (updateLocation s "a" (mkPartialLocation None None None None None None (Some (Some 2)))) =
    Some (mkLocation "a" "Boston" (intLit 0) (intLit 0) None (Some "birth") (Some "1900")
            (Some 2) (Some 0)) /\
  updateLocation s "b" (mkPartialLocation None None None None None None (Some (Some 2))) =
    (None, s).
Proof. split; reflexivity. Qed.

(** ** The upload handlers *)

(** What [geocodeLocation] makes of some replies: a match, no match, a
    first element that is [null] (reading its [lat] throws), a string (its
    first character has no [lat], and [parseFloat(undefined)] is NaN), an
    error object, an array-like object, and a match without [lon]. *)
Example coordsOf_replies :
  coordsOf (Data (RoutesSpec.entry "42.3601" "-71.0589")) =
    Some (mkCoords (parseFloat "42.3601") (parseFloat "-71.0589")) /\
  coordsOf (Data (Json.JArray [])) = None /\
  coordsOf (Data (Json.JArray [Json.JNull])) = None /\
  coordsOf (Data (Json.JString "Bad Request")) =
    Some (mkCoords (parseFloat "undefined") (parseFloat "undefined")) /\
  coordsOf (Data (Json.JObject [("error", Json.JString "Unable to geocode")])) = None /\
  coordsOf (Data (Json.JObject [("length", Json.JString "1");
                                ("0", Json.JObject [("lat", Json.JNumber "1.5");
                                                    ("lon", Json.JArray [Json.JNumber "2"])])])) =
    Some (mkCoords (parseFloat "1.5") (parseFloat "2")) /\
  coordsOf (Data (Json.JArray [Json.JObject [("lat", Json.JString "42.3601")]])) =
    Some (mkCoords (parseFloat "42.3601") (parseFloat "undefined")) /\
  coordsOf Threw = None.
Proof. repeat split; vm_compute; reflexivity. Qed.

(** [Number(s) > 0] on some texts. *)
Example positive_texts :
  List.map JS.positive
    ["5"; " 12 "; ""; "0"; "-3"; "+.5"; "5."; "."; "1e"; "1e-400"; "1e-323"; "0x10"; "0x";
     "Infinity"; "-Infinity"; "abc"; "1 2"; "+0x1"; "0B1"; "2e-324"] =
    [true; true; false; false; false; true; true; false; false; false; true; true; false;
     true; false; false; false; false; true; false].
Proof. vm_compute. reflexivity. Qed.

(** It always consumes one effect and leaves the store alone. *)
Lemma geocodeLocation_state (w : World) (address : string) (s : Sys) :
  snd (geocodeLocation w address s) = mkSys (storage s) (S (tick s)).
Proof. reflexivity. Qed.

(** A place that does not resolve leaves the three arrays and the store as
    they were. *)
Lemma processPlace_unresolved (w : World) (member : FamilyMember)
    (birthDate deathDate : option string) (acc : Created) (place type : string) (s : Sys) :
  fst (geocodeLocation w place s) = None ->
  processPlace w member birthDate deathDate acc (place, type) s =
    (acc, mkSys (storage s) (S (tick s))).
Proof.
  intros Hg. unfold processPlace, bind. unfold geocodeLocation in *.
  cbn in Hg |- *. rewrite Hg. reflexivity.
Qed.

(** The loop body on a member with a name: create the member, then visit
    its places. *)
Lemma processMember_named (w : World) (acc : Created) (memberData : MemberData) (s : Sys) :
  JS.nonEmpty (md_name memberData) = true ->
  processMember w acc memberData s =
    let member :=
      mkFamilyMember (randomUUID w (tick s)) (md_name memberData) (md_birthDate memberData)
        (md_deathDate memberData) (md_birthPlace memberData) (md_deathPlace memberData)
        (JS.or (Some (md_notes memberData)) (Some "")) (Some (md_photos memberData))
        (Some (newDate w (tick s))) in
    forEach (processPlace w member (md_birthDate memberData) (md_deathDate memberData))
      (places (md_birthPlace memberData) (md_deathPlace memberData))
      (mkCreated (createdMembers acc ++ [member]) (createdLocations acc) (createdEvents acc))
      (mkSys (mkStorage (<[fm_id member := member]> (familyMembers (storage s)))
                (locations (storage s)) (Storage.events (storage s)) (stories (storage s))
                (geopackageLayers (storage s)) (atlasProjects (storage s)))
         (S (tick s))).
Proof. intros Hname. unfold processMember. rewrite Hname. reflexivity. Qed.

Lemma processMember_unnamed (w : World) (acc : Created) (memberData : MemberData) (s : Sys) :
  JS.nonEmpty (md_name memberData) = false ->
  processMember w acc memberData s = (acc, s).
Proof. intros Hname. unfold processMember. rewrite Hname. reflexivity. Qed.

(** C4: when the member has a name, exactly one place, and that place does
    not resolve (geocodeLocation returns null), the GEDCOM upload's loop body
    returns normally, adds exactly one member to the created members and to
    the store, creates no location and no event, and the loop goes on with
    the remaining members. *)
Theorem unresolved_place_creates_member_only (w : World) (acc : Created)
    (memberData : MemberData) (place type : string) (s : Sys) :
  JS.nonEmpty (md_name memberData) = true ->
  places (md_birthPlace memberData) (md_deathPlace memberData) = [(place, type)] ->
  fst (geocodeLocation w place (mkSys (storage s) (S (tick s)))) = None ->
  exists member s',
    processMember w acc memberData s =
      (mkCreated (createdMembers acc ++ [member]) (createdLocations acc) (createdEvents acc),
       s') /\
    fm_name member = md_name memberData /\
    fm_birthPlace member = md_birthPlace memberData /\
    fm_deathPlace member = md_deathPlace memberData /\
    familyMembers (storage s') = <[fm_id member := member]> (familyMembers (storage s)) /\
    locations (storage s') = locations (storage s) /\
    Storage.events (storage s') = Storage.events (storage s) /\
    forall rest,
      forEach (processMember w) (memberData :: rest) acc s =
      forEach (processMember w) rest
        (mkCreated (createdMembers acc ++ [member]) (createdLocations acc) (createdEvents acc))
        s'.
Proof.
  intros Hname Hplaces Hgeo.
  assert (Hrun : forall acc0,
    processMember w acc0 memberData s =
      (mkCreated
         (createdMembers acc0 ++
            [mkFamilyMember (randomUUID w (tick s)) (md_name memberData)
               (md_birthDate memberData) (md_deathDate memberData)
               (md_birthPlace memberData) (md_deathPlace memberData)
               (JS.or (Some (md_notes memberData)) (Some "")) (Some (md_photos memberData))
               (Some (newDate w (tick s)))])
         (createdLocations acc0) (createdEvents acc0),
       mkSys (mkStorage
                (<[randomUUID w (tick s) :=
                     mkFamilyMember (randomUUID w (tick s)) (md_name memberData)
                       (md_birthDate memberData) (md_deathDate memberData)
                       (md_birthPlace memberData) (md_deathPlace memberData)
                       (JS.or (Some (md_notes memberData)) (Some ""))
                       (Some (md_photos memberData)) (Some (newDate w (tick s)))]>
                   (familyMembers (storage s)))
                (locations (storage s)) (Storage.events (storage s)) (stories (storage s))
                (geopackageLayers (storage s)) (atlasProjects (storage s)))
         (S (S (tick s))))).
  { intros acc0. rewrite processMember_named by exact Hname. cbn zeta.
    rewrite Hplaces. cbn [forEach]. unfold bind, ret.
    rewrite processPlace_unresolved by exact Hgeo. reflexivity. }
  eexists _, _. split; [apply Hrun|]. cbn.
  repeat split.
  intros rest. cbn [forEach]. unfold bind at 1. rewrite Hrun. reflexivity.
Qed.

Lemma unresolved_place_creates_member_only_witness :
  exists member s',
    processMember RoutesSpec.sampleWorld noneCreated
      (mkMemberData "John Smith" (Some "1900") None (Some "Nowhere") None "" [])
      (mkSys Storage.empty 0) = (mkCreated [member] [] [], s') /\
    fm_name member = "John Smith" /\
    locations (storage s') = ∅ /\ Storage.events (storage s') = ∅.
Proof.
  destruct (unresolved_place_creates_member_only RoutesSpec.sampleWorld noneCreated
              (mkMemberData "John Smith" (Some "1900") None (Some "Nowhere") None "" [])
              "Nowhere" "birth" (mkSys Storage.empty 0) eq_refl eq_refl eq_refl)
    as (member & s' & H1 & H2 & _ & _ & _ & H5 & H6 & _).
  exists member, s'. repeat split; assumption.
Defined.

(** A whole upload: the first person's place has no match, the second
    person's service call fails, the third resolves.  Three members, one
    location and one event, both of the third person. *)
Example uploadGedcom_continues :
  fst (uploadGedcom RoutesSpec.sampleWorld "0 @I1@ INDI
1 NAME John /Smith/
1 BIRT
2 PLAC Nowhere
0 @I2@ INDI
1 NAME Ann /Lee/
1 DEAT
2 PLAC Atlantis
0 @I3@ INDI
1 NAME Jane /Doe/
1 BIRT
2 DATE 1900
2 PLAC Boston" (mkSys Storage.empty 0)) =
  mkCreated
    [mkFamilyMember "uuid-0" "John /Smith/" None None (Some "Nowhere") None (Some "")
       (Some []) (Some 0);
     mkFamilyMember "uuid-2" "Ann /Lee/" None None (Some "Atlantis") None (Some "")
       (Some []) (Some 2);
     mkFamilyMember "uuid-4" "Jane /Doe/" (Some "1900") None (Some "Boston") None (Some "")
       (Some []) (Some 4)]
    [mkLocation "uuid-6" "Boston" (parseFloat "42.3601") (parseFloat "-71.0589")
       (Some "Boston") (Some "birth") (Some "1900") (Some 1) (Some 6)]
    [Storage.mkEvent "uuid-7" (JS.Value "uuid-4") (Some "uuid-6") "birth" (Some "1900")
       (Some "Born in Boston") (Some "") (Some 7)].
Proof. vm_compute. reflexivity. Qed.

(** *** Locations created by a run *)

Lemma forEach_invariant {A B : Type} (body : B -> A -> M B) (I : B -> Sys -> Prop)
    (l : list A) :
  (forall x acc s, x ∈ l -> I acc s -> I (fst (body acc x s)) (snd (body acc x s))) ->
  forall acc s, I acc s -> I (fst (forEach body l acc s)) (snd (forEach body l acc s)).
Proof.
  induction l as [|x rest IH]; intros Hbody acc s HI; cbn; [exact HI|].
  unfold bind. destruct (body acc x s) as [acc' s'] eqn:Hb.
  apply IH.
  - intros y acc0 s0 Hy. apply Hbody. apply elem_of_cons. right. exact Hy.
  - specialize (Hbody x acc s (list_elem_of_here _ _) HI). rewrite Hb in Hbody. exact Hbody.
Qed.

Lemma places_elem (birthPlace deathPlace : option string) (place type : string) :
  (place, type) ∈ places birthPlace deathPlace ->
  (type = "birth" /\ birthPlace = Some place) \/ (type = "death" /\ deathPlace = Some place).
Proof.
  unfold places. intros H. apply elem_of_app in H as [H|H].
  - destruct birthPlace as [b|]; cbn in H; [| inversion H].
    destruct (JS.nonEmpty b); [| inversion H].
    apply list_elem_of_singleton in H. injection H as -> ->. left. auto.
  - destruct deathPlace as [d|]; cbn in H; [| inversion H].
    destruct (JS.nonEmpty d); [| inversion H].
    apply list_elem_of_singleton in H. injection H as -> ->. right. auto.
Qed.

(** One place: either nothing is created, or one location made for this
    place and role, with member count 1, is created and stored. *)
Lemma processPlace_onlyAdds (w : World) (member : FamilyMember)
    (birthDate deathDate : option string) (place type : string)
    (Q : Location -> Prop) (before : gmap string Location) (acc : Created) (s : Sys) :
  (forall l, RoutesSpec.madeFor place type birthDate deathDate l -> Q l) ->
  RoutesSpec.onlyAdds Q before acc s ->
  RoutesSpec.onlyAdds Q before
    (fst (processPlace w member birthDate deathDate acc (place, type) s))
    (snd (processPlace w member birthDate deathDate acc (place, type) s)).
Proof.
  intros HQ [Hc Hs]. unfold processPlace, bind, geocodeLocation.
  destruct (coordsOf (fetch w (tick s) place)) as [c|]; cbn; try (split; assumption).
  split.
  - intros l Hl. apply elem_of_app in Hl as [Hl|Hl]; [apply Hc; exact Hl|].
    apply list_elem_of_singleton in Hl as ->. apply HQ. repeat split.
  - intros id l Hl. cbn in Hl. apply lookup_insert_Some in Hl as [[_ <-]|[_ Hl]].
    + right. apply elem_of_app. right. apply list_elem_of_singleton. reflexivity.
    + apply Hs in Hl as [Hl|Hl]; [left; exact Hl|].
      right. apply elem_of_app. left. exact Hl.
Qed.

Lemma madeFor_fromRecord (birthPlace deathPlace birthDate deathDate : option string)
    (place type : string) (l : Location) :
  (place, type) ∈ places birthPlace deathPlace ->
  RoutesSpec.madeFor place type birthDate deathDate l ->
  RoutesSpec.fromRecord birthPlace deathPlace birthDate deathDate l.
Proof.
  intros Hp (Hn & _ & Ht & Hts & Hm). split; [exact Hm|].
  apply places_elem in Hp as [[-> ->]|[-> ->]]; [left | right]; rewrite Hn; auto.
Qed.

(** The places of one record, visited after the member was created. *)
Lemma places_onlyAdds (w : World) (member : FamilyMember)
    (birthPlace deathPlace birthDate deathDate : option string)
    (Q : Location -> Prop) (before : gmap string Location) (acc : Created) (s : Sys) :
  (forall l, RoutesSpec.fromRecord birthPlace deathPlace birthDate deathDate l -> Q l) ->
  RoutesSpec.onlyAdds Q before acc s ->
  RoutesSpec.onlyAdds Q before
    (fst (forEach (processPlace w member birthDate deathDate)
            (places birthPlace deathPlace) acc s))
    (snd (forEach (processPlace w member birthDate deathDate)
            (places birthPlace deathPlace) acc s)).
Proof.
  intros HQ. apply (forEach_invariant _ (RoutesSpec.onlyAdds Q before)).
  intros [place type] acc0 s0 Hin. apply processPlace_onlyAdds.
  intros l Hl. apply HQ. eapply madeFor_fromRecord; eauto.
Qed.

Lemma processMember_onlyAdds (w : World) (Q : Location -> Prop)
    (before : gmap string Location) (acc : Created) (memberData : MemberData) (s : Sys) :
  (forall l, RoutesSpec.fromMember memberData l -> Q l) ->
  RoutesSpec.onlyAdds Q before acc s ->
  RoutesSpec.onlyAdds Q before (fst (processMember w acc memberData s))
    (snd (processMember w acc memberData s)).
Proof.
  intros HQ Hinv. destruct (JS.nonEmpty (md_name memberData)) eqn:Hname.
  - rewrite processMember_named by exact Hname. cbn zeta.
    apply places_onlyAdds; [exact HQ|]. exact Hinv.
  - rewrite processMember_unnamed by exact Hname. exact Hinv.
Qed.

Lemma processRow_onlyAdds (w : World) (Q : Location -> Prop)
    (before : gmap string Location) (acc : Created) (row : gmap string string) (s : Sys) :
  (forall l, RoutesSpec.fromRow row l -> Q l) ->
  RoutesSpec.onlyAdds Q before acc s ->
  RoutesSpec.onlyAdds Q before (fst (processRow w acc row s)) (snd (processRow w acc row s)).
Proof.
  intros HQ Hinv. unfold processRow. destruct (JS.truthy (row !! "name")); cbn [negb].
  - unfold bind at 1. unfold createFamilyMember at 1, Storage.createFamilyMember.
    cbn beta iota zeta. apply places_onlyAdds; [exact HQ|]. exact Hinv.
  - exact Hinv.
Qed.

Lemma onlyAdds_start (Q : Location -> Prop) (s : Sys) :
  RoutesSpec.onlyAdds Q (locations (storage s)) noneCreated s.
Proof. split; [intros l Hl; inversion Hl | intros id l Hl; left; exact Hl]. Qed.

(** *** One location for each resolved visit *)

Lemma combine_snoc {A B : Type} (a : list A) (b : list B) (x : A) (y : B) :
  length a = length b -> combine (a ++ [x]) (b ++ [y]) = combine a b ++ [(x, y)].
Proof.
  revert b. induction a as [|a0 a IH]; intros [|b0 b] Hlen; try discriminate; cbn.
  - reflexivity.
  - rewrite IH by (injection Hlen; auto). reflexivity.
Qed.

Lemma StronglySorted_snoc (l : list nat) (x : nat) :
  StronglySorted lt l -> Forall (fun n => (n < x)%nat) l -> StronglySorted lt (l ++ [x]).
Proof.
  induction 1 as [|y l Hs IH Hall]; intros Hx; cbn.
  - repeat constructor.
  - constructor; [apply IH; exact (Forall_inv_tail Hx)|].
    apply Forall_app. split; [exact Hall|]. constructor; [exact (Forall_inv Hx) | constructor].
Qed.

Lemma ran_start (w : World) (s : Sys) : RoutesSpec.ran w (tick s) [] noneCreated s.
Proof.
  split; [lia|]. split; [| split].
  - exists []. repeat split; constructor.
  - constructor.
  - intros _. split; [constructor | intros l []].
Qed.

(** Effects that create no location and leave the stored locations alone
    keep what holds of the run. *)
Lemma ran_later (w : World) (n0 : nat) (vs : list RoutesSpec.Visit) (acc acc' : Created)
    (s s' : Sys) :
  createdLocations acc' = createdLocations acc ->
  locations (storage s') = locations (storage s) ->
  (tick s <= tick s')%nat ->
  RoutesSpec.ran w n0 vs acc s -> RoutesSpec.ran w n0 vs acc' s'.
Proof.
  intros Hc Hl Ht (Hn & (requests & Hlen & Hsort & Hbound & Hmade) & Hids & Hst).
  split; [lia|]. split; [| split].
  - exists requests. rewrite Hc. repeat split; try assumption.
    eapply Forall_impl; [exact Hbound|]. cbv beta. intros; lia.
  - rewrite Hc. eapply Forall_impl; [exact Hids|]. cbv beta.
    intros l (n & Hlt & Hid). exists n. split; [lia | exact Hid].
  - intros Hinj. destruct (Hst Hinj) as [Hnd Hin]. unfold RoutesSpec.storedApart.
    rewrite Hc, Hl. split; assumption.
Qed.

(** One visit: the request is the next effect; when it resolves, one
    location with the chosen fields is created under a new id and stored. *)
Lemma processPlace_ran (w : World) (member : FamilyMember)
    (birthDate deathDate : option string) (place type : string) (n0 : nat)
    (vs : list RoutesSpec.Visit) (acc : Created) (s : Sys) :
  RoutesSpec.ran w n0 vs acc s ->
  RoutesSpec.ran w n0 (vs ++ [(place, type, byType type birthDate deathDate)])
    (fst (processPlace w member birthDate deathDate acc (place, type) s))
    (snd (processPlace w member birthDate deathDate acc (place, type) s)).
Proof.
  intros (Hn & (requests & Hlen & Hsort & Hbound & Hmade) & Hids & Hst).
  assert (Hold : Forall (fun n => (n < tick s)%nat) requests)
    by (eapply Forall_impl; [exact Hbound|]; cbv beta; intros; lia).
  assert (Hreq : forall t c,
    (tick s < t)%nat ->
    List.map RoutesSpec.chosen (createdLocations c) =
      List.map RoutesSpec.chosen (createdLocations acc) ++
      option_list (RoutesSpec.due w (tick s, (place, type, byType type birthDate deathDate))) ->
    RoutesSpec.oneForEachResolved w n0 t
      (vs ++ [(place, type, byType type birthDate deathDate)]) c).
  { intros t c Ht Hc. exists (requests ++ [tick s]). repeat split.
    - rewrite !length_app, Hlen. reflexivity.
    - apply StronglySorted_snoc; assumption.
    - apply Forall_app. split.
      + eapply Forall_impl; [exact Hbound|]. cbv beta. intros; lia.
      + constructor; [lia | constructor].
    - rewrite combine_snoc by exact Hlen. rewrite omap_app, <- Hmade, Hc.
      f_equal; try reflexivity; cbn [omap]; destruct (RoutesSpec.due w _); reflexivity. }
  unfold processPlace, bind, geocodeLocation.
  destruct (coordsOf (fetch w (tick s) place)) as [c|] eqn:Hgeo; cbn;
    unfold RoutesSpec.ran; cbn [tick storage locations createdLocations].
  - split; [lia|]. split; [| split].
    + apply Hreq; [lia|]. cbn. rewrite Hgeo. rewrite List.map_app. reflexivity.
    + apply Forall_app. split.
      * eapply Forall_impl; [exact Hids|]. cbv beta.
        intros l (n & Hlt & Hid). exists n. split; [lia | exact Hid].
      * constructor; [| constructor]. exists (S (tick s)). split; [lia | reflexivity].
    + intros Hinj. destruct (Hst Hinj) as [Hnd Hin].
      assert (Hnew : forall l, In l (createdLocations acc) ->
                               loc_id l <> randomUUID w (S (tick s))).
      { intros l Hl Heq. rewrite Forall_forall in Hids.
        destruct (Hids l (proj2 (list_elem_of_In _ _) Hl)) as (n & Hlt & Hid).
        rewrite Hid in Heq. apply Hinj in Heq. lia. }
      unfold RoutesSpec.storedApart. cbn [createdLocations storage locations].
      split.
      * rewrite List.map_app. apply NoDup_app. split; [exact Hnd|].
        split; [| apply NoDup_singleton].
        intros id Hid Hid'. apply list_elem_of_singleton in Hid'. subst id.
        apply list_elem_of_In, in_map_iff in Hid as (l & Hl1 & Hl2).
        exact (Hnew l Hl2 Hl1).
      * intros l Hl. apply in_app_or in Hl as [Hl|[<-|[]]].
        -- rewrite lookup_insert_ne by (intros Heq; exact (Hnew l Hl (eq_sym Heq))).
           apply Hin. exact Hl.
        -- apply lookup_insert_eq.
  - split; [lia|]. split; [| split].
    + apply Hreq; [lia|]. cbn. rewrite Hgeo. rewrite app_nil_r. reflexivity.
    + eapply Forall_impl; [exact Hids|]. cbv beta.
      intros l (n & Hlt & Hid). exists n. split; [lia | exact Hid].
    + exact Hst.
Qed.

Lemma places_ran (w : World) (member : FamilyMember) (birthDate deathDate : option string)
    (n0 : nat) (ps : list (string * string)) :
  forall vs acc s,
    RoutesSpec.ran w n0 vs acc s ->
    RoutesSpec.ran w n0
      (vs ++ List.map (fun p => (fst p, snd p, byType (snd p) birthDate deathDate)) ps)
      (fst (forEach (processPlace w member birthDate deathDate) ps acc s))
      (snd (forEach (processPlace w member birthDate deathDate) ps acc s)).
Proof.
  induction ps as [|[place type] rest IH]; intros vs acc s Hran; cbn [forEach List.map].
  - rewrite app_nil_r. exact Hran.
  - unfold bind.
    pose proof (processPlace_ran w member birthDate deathDate place type n0 vs acc s Hran)
      as Hstep.
    destruct (processPlace w member birthDate deathDate acc (place, type) s) as [acc' s'].
    cbn [fst snd] in Hstep |- *.
    change (vs ++ (place, type, byType type birthDate deathDate) ::
              List.map (fun p => (fst p, snd p, byType (snd p) birthDate deathDate)) rest)
      with (vs ++ [(place, type, byType type birthDate deathDate)] ++
              List.map (fun p => (fst p, snd p, byType (snd p) birthDate deathDate)) rest).
    rewrite app_assoc. apply IH. exact Hstep.
Qed.

Lemma processMember_ran (w : World) (n0 : nat) (vs : list RoutesSpec.Visit)
    (acc : Created) (memberData : MemberData) (s : Sys) :
  RoutesSpec.ran w n0 vs acc s ->
  RoutesSpec.ran w n0 (vs ++ RoutesSpec.memberVisits memberData)
    (fst (processMember w acc memberData s)) (snd (processMember w acc memberData s)).
Proof.
  intros Hran. unfold RoutesSpec.memberVisits, RoutesSpec.visits.
  destruct (JS.nonEmpty (md_name memberData)) eqn:Hname.
  - rewrite processMember_named by exact Hname. cbn zeta.
    apply places_ran. eapply ran_later; [| | | exact Hran]; cbn; auto.
  - rewrite processMember_unnamed by exact Hname. rewrite app_nil_r. exact Hran.
Qed.

Lemma processRow_ran (w : World) (n0 : nat) (vs : list RoutesSpec.Visit)
    (acc : Created) (row : gmap string string) (s : Sys) :
  RoutesSpec.ran w n0 vs acc s ->
  RoutesSpec.ran w n0 (vs ++ RoutesSpec.rowVisits row)
    (fst (processRow w acc row s)) (snd (processRow w acc row s)).
Proof.
  intros Hran. unfold RoutesSpec.rowVisits, RoutesSpec.visits, processRow.
  destruct (JS.truthy (row !! "name")); cbn [negb].
  - unfold bind at 1. unfold createFamilyMember at 1, Storage.createFamilyMember.
    cbn beta iota zeta. apply places_ran. eapply ran_later; [| | | exact Hran]; cbn; auto.
  - rewrite app_nil_r. exact Hran.
Qed.

(** A loop over records whose body makes the visits [f x] of each. *)
Lemma forEach_ran {A : Type} (w : World) (n0 : nat) (body : Created -> A -> M Created)
    (f : A -> list RoutesSpec.Visit) (l : list A) :
  (forall x vs acc s,
     RoutesSpec.ran w n0 vs acc s ->
     RoutesSpec.ran w n0 (vs ++ f x) (fst (body acc x s)) (snd (body acc x s))) ->
  forall vs acc s,
    RoutesSpec.ran w n0 vs acc s ->
    RoutesSpec.ran w n0 (vs ++ flat_map f l)
      (fst (forEach body l acc s)) (snd (forEach body l acc s)).
Proof.
  intros Hbody. induction l as [|x rest IH]; intros vs acc s Hran; cbn [forEach flat_map].
  - rewrite app_nil_r. exact Hran.
  - unfold bind. pose proof (Hbody x vs acc s Hran) as Hstep.
    destruct (body acc x s) as [acc' s']. cbn [fst snd] in Hstep |- *.
    rewrite app_assoc. apply IH. exact Hstep.
Qed.

(** C7: in a GEDCOM upload and in a CSV upload, the created locations
    are, in order, one for each visit of a place whose resolution
    succeeded: the records with a name are visited in order, each at its
    non-empty birth place and then at its non-empty death place, with one
    request each, and a request that resolves creates one location named
    after the place, at the coordinates of the reply, with the role as
    type, the role's date (possibly absent or empty) as time span and
    member count 1; a visit that does not resolve creates none.  Two
    records with the same place string give two locations.  Every location
    in the store after the run either was there before, unchanged, or is one
    of the created ones, so no count is ever raised; and when [randomUUID]
    never draws an id twice the created locations have pairwise different
    ids and each is in the store under its id. *)
Theorem created_locations_count_one_member :
  (forall (w : World) (gedcomData : string) (s : Sys),
     let c := fst (uploadGedcom w gedcomData s) in
     let s' := snd (uploadGedcom w gedcomData s) in
     RoutesSpec.oneForEachResolved w (tick s) (tick s')
       (flat_map RoutesSpec.memberVisits (parseGedcomData gedcomData)) c /\
     RoutesSpec.onlyAdds
       (fun l => exists m, m ∈ parseGedcomData gedcomData /\ RoutesSpec.fromMember m l)
       (locations (storage s)) c s' /\
     ((forall a b, randomUUID w a = randomUUID w b -> a = b) ->
      RoutesSpec.storedApart c s')) /\
  (forall (w : World) (csvData : string) (s : Sys),
     let s' := snd (uploadCsv w csvData s) in
     match fst (uploadCsv w csvData s) with
     | Some c =>
         exists line0 rows,
           csvLines csvData = line0 :: rows /\
           RoutesSpec.oneForEachResolved w (tick s) (tick s')
             (flat_map (fun line => RoutesSpec.rowVisits (csvRow (csvHeaders line0) line))
                rows) c /\
           RoutesSpec.onlyAdds
             (fun l => exists line, line ∈ rows /\
                         RoutesSpec.fromRow (csvRow (csvHeaders line0) line) l)
             (locations (storage s)) c s' /\
           ((forall a b, randomUUID w a = randomUUID w b -> a = b) ->
            RoutesSpec.storedApart c s')
     | None => s' = s
     end).
Proof.
  split.
  - intros w gedcomData s c s'.
    assert (Hran : RoutesSpec.ran w (tick s)
                     (flat_map RoutesSpec.memberVisits (parseGedcomData gedcomData)) c s').
    { subst c s'. unfold uploadGedcom.
      apply (forEach_ran w (tick s) (processMember w) RoutesSpec.memberVisits _
               (fun x vs acc s0 => processMember_ran w (tick s) vs acc x s0) []).
      apply ran_start. }
    destruct Hran as (_ & Hone & _ & Hst).
    split; [exact Hone|]. split; [| exact Hst].
    subst c s'. unfold uploadGedcom.
    apply (forEach_invariant _ (RoutesSpec.onlyAdds _ (locations (storage s)))).
    + intros m acc s0 Hm. apply processMember_onlyAdds. intros l Hl. exists m. auto.
    + apply onlyAdds_start.
  - intros w csvData s s'. subst s'. unfold uploadCsv.
    destruct (csvLines csvData) as [|line0 [|r rows]] eqn:Hlines; try reflexivity.
    unfold bind, ret.
    destruct (forEach (processRow w)
                (List.map (csvRow (csvHeaders line0)) (r :: rows)) noneCreated s)
      as [c s'] eqn:Hrun.
    cbn [fst snd].
    exists line0, (r :: rows). split; [reflexivity|].
    assert (Hran : RoutesSpec.ran w (tick s)
                     (flat_map (fun line => RoutesSpec.rowVisits (csvRow (csvHeaders line0) line))
                        (r :: rows)) c s').
    { change c with (fst (c, s')). change s' with (snd (c, s')) at 2. rewrite <- Hrun.
      assert (Hflat : forall lines,
                flat_map (fun line => RoutesSpec.rowVisits (csvRow (csvHeaders line0) line)) lines =
                flat_map RoutesSpec.rowVisits (List.map (csvRow (csvHeaders line0)) lines)).
      { induction lines as [|x xs IHx]; cbn; [reflexivity | rewrite IHx; reflexivity]. }
      rewrite Hflat.
      apply (forEach_ran w (tick s) (processRow w) RoutesSpec.rowVisits _
               (fun x vs acc s0 => processRow_ran w (tick s) vs acc x s0) []).
      apply ran_start. }
    destruct Hran as (_ & Hone & _ & Hst).
    split; [exact Hone|]. split; [| exact Hst].
    change c with (fst (c, s')). change s' with (snd (c, s')) at 2. rewrite <- Hrun.
    apply (forEach_invariant _ (RoutesSpec.onlyAdds _ (locations (storage s)))).
    + intros row acc s0 Hrow. apply processRow_onlyAdds. intros l Hl.
      apply list_elem_of_fmap in Hrow as (line & -> & Hline).
      exists line. auto.
    + apply onlyAdds_start.
Qed.

Lemma append_inj (p a b : string) : p +:+ a = p +:+ b -> a = b.
Proof.
  induction p as [|c p IH]; [auto|].
  change (String c (p +:+ a) = String c (p +:+ b) -> a = b).
  intros [= H]. auto.
Qed.

(** The ids of the world of the examples are pairwise different. *)
Lemma sampleWorld_draws_apart (a b : nat) :
  randomUUID RoutesSpec.sampleWorld a = randomUUID RoutesSpec.sampleWorld b -> a = b.
Proof. intros H. apply append_inj in H. apply showNat_inj. exact H. Qed.

Lemma created_locations_count_one_member_witness :
  exists c,
    fst (uploadCsv RoutesSpec.sampleWorld RoutesSpec.sharedPlace (mkSys Storage.empty 0)) =
      Some c /\
    List.map loc_memberCount (createdLocations c) = [Some 1; Some 1] /\
    RoutesSpec.storedApart c
      (snd (uploadCsv RoutesSpec.sampleWorld RoutesSpec.sharedPlace (mkSys Storage.empty 0))).
Proof.
  assert (Hrun : exists c,
            fst (uploadCsv RoutesSpec.sampleWorld RoutesSpec.sharedPlace
                   (mkSys Storage.empty 0)) = Some c /\
            List.map loc_memberCount (createdLocations c) = [Some 1; Some 1])
    by (eexists; split; vm_compute; reflexivity).
  destruct Hrun as (c & Hc & Hcount).
  pose proof (proj2 created_locations_count_one_member RoutesSpec.sampleWorld
                RoutesSpec.sharedPlace (mkSys Storage.empty 0)) as H.
  cbv zeta in H. rewrite Hc in H.
  destruct H as (line0 & rows & _ & _ & _ & Hst).
  exists c. split; [exact Hc|]. split; [exact Hcount|].
  apply Hst. exact sampleWorld_draws_apart.
Defined.

(** Two people born in the same place: two locations, each with member
    count 1. *)
Example uploadCsv_shared_place :
  (createdLocations <$> fst (uploadCsv RoutesSpec.sampleWorld "name,birth_date,birth_place
Jane Doe,1900,Boston
John Doe,,Boston" (mkSys Storage.empty 0))) =
  Some
    [mkLocation "uuid-2" "Boston" (parseFloat "42.3601") (parseFloat "-71.0589")
       (Some "Boston") (Some "birth") (Some "1900") (Some 1) (Some 2);
     mkLocation "uuid-6" "Boston" (parseFloat "42.3601") (parseFloat "-71.0589")
       (Some "Boston") (Some "birth") None (Some 1) (Some 6)].
Proof. vm_compute. reflexivity. Qed.

(** ** The narrative builder *)

Local Arguments String.append : simpl nomatch.

Lemma trimStart_app (a : string) (c : ascii) (r : string) :
  JS.isWhiteSpace c = false ->
  JS.trimStart (a +:+ String c r) = JS.trimStart a +:+ String c r.
Proof.
  intros Hc. induction a as [|x a IH]; cbn -[JS.isWhiteSpace].
  - rewrite Hc. reflexivity.
  - destruct (JS.isWhiteSpace x); [exact IH | reflexivity].
Qed.

Lemma trimEnd_app (p q : string) :
  JS.trimEnd q <> "" -> JS.trimEnd (p +:+ q) = p +:+ JS.trimEnd q.
Proof.
  intros Hq. induction p as [|x p IH]; cbn -[JS.isWhiteSpace]; [reflexivity|].
  rewrite IH. destruct (p +:+ JS.trimEnd q) eqn:E; [| reflexivity].
  destruct p; cbn in E; [contradiction | discriminate].
Qed.

Lemma trimEnd_cons (c : ascii) (r : string) :
  JS.isWhiteSpace c = false -> JS.trimEnd (String c r) = String c (JS.trimEnd r).
Proof. intros Hc. cbn -[JS.isWhiteSpace]. rewrite Hc. destruct (JS.trimEnd r); reflexivity. Qed.

Lemma append_assoc (a b c : string) : (a +:+ b) +:+ c = a +:+ b +:+ c.
Proof. induction a as [|x a IH]; cbn; [reflexivity | rewrite IH; reflexivity]. Qed.

(** Trimming a story: the name loses its leading white space, the text up
    to the full stop stays, what follows loses its trailing white space. *)
Lemma trim_sentence (name text tail : string) (c : ascii) :
  JS.isWhiteSpace c = false ->
  JS.trim (name +:+ String c text +:+ "." +:+ " " +:+ tail) =
  JS.trimStart name +:+ String c text +:+ "." +:+ JS.trimEnd (" " +:+ tail).
Proof.
  intros Hc. unfold JS.trim.
  change (name +:+ String c text +:+ "." +:+ " " +:+ tail)
    with (name +:+ String c (text +:+ "." +:+ " " +:+ tail)).
  rewrite trimStart_app by exact Hc.
  change (String c text +:+ "." +:+ JS.trimEnd (" " +:+ tail))
    with (String c (text +:+ "." +:+ JS.trimEnd (" " +:+ tail))).
  assert (Hdot : JS.trimEnd ("." +:+ " " +:+ tail) = "." +:+ JS.trimEnd (" " +:+ tail))
    by (apply trimEnd_cons; reflexivity).
  assert (Htext : JS.trimEnd (String c (text +:+ "." +:+ " " +:+ tail)) =
                  String c (text +:+ "." +:+ JS.trimEnd (" " +:+ tail))).
  { rewrite trimEnd_cons by exact Hc. rewrite trimEnd_app; rewrite Hdot; [reflexivity|].
    discriminate. }
  rewrite trimEnd_app; rewrite Htext; [reflexivity | discriminate].
Qed.

(** Events of one member, whose id is no member of [Object.prototype], are
    grouped under that id in their order. *)
Lemma groupByMember_same (key : string) (es : list Event) :
  existsb (String.eqb key) prototypeKeys = false ->
  Forall (fun e => memberKey e = key) es ->
  forall l, groupByMember es [(key, l)] = Gedcom.Ok [(key, l ++ es)].
Proof.
  intros Hk Hall. induction Hall as [|e es He Hes IH]; intros l; cbn [groupByMember].
  - rewrite app_nil_r. reflexivity.
  - rewrite He, Hk. cbn [pushTo]. rewrite String.eqb_refl, IH, <- app_assoc. reflexivity.
Qed.

Lemma groupByMember_one (key : string) (e : Event) (es : list Event) :
  existsb (String.eqb key) prototypeKeys = false ->
  Forall (fun e => memberKey e = key) (e :: es) ->
  groupByMember (e :: es) [] = Gedcom.Ok [(key, e :: es)].
Proof.
  intros Hk H. pose proof (Forall_inv H) as He. pose proof (Forall_inv_tail H) as Hes.
  cbn beta in He. cbn [groupByMember].
  rewrite He, Hk. cbn [pushTo]. apply (groupByMember_same key es Hk Hes [e]).
Qed.

Lemma entries_one {A : Type} (kv : string * A) : entries [kv] = [kv].
Proof.
  unfold entries. cbn. destruct (arrayIndex (fst kv)); reflexivity.
Qed.

(** C6: for one person (whose id is no member of [Object.prototype]) with
    exactly a birth event in Boston dated 1900 and a death event in Chicago
    dated 1950, given in either order, the story is the person's name,
    [birth in Boston in 1900], the separating comma, then the death fragment
    with [life concluded in Chicago in 1950], a full stop and the notes. *)
Theorem story_birth_then_death (engine : Engine) (member : FamilyMember)
    (eB eD : Event) (lB lD : Location) (locations : list Location) (events : list Event) :
  existsb (String.eqb (fm_id member)) prototypeKeys = false ->
  evt_memberId eB = JS.Value (fm_id member) ->
  evt_eventType eB = "birth" ->
  evt_eventDate eB = Some "1900" ->
  findLocation locations (evt_locationId eB) = Some lB ->
  loc_name lB = "Boston" ->
  evt_memberId eD = JS.Value (fm_id member) ->
  evt_eventType eD = "death" ->
  evt_eventDate eD = Some "1950" ->
  findLocation locations (evt_locationId eD) = Some lD ->
  loc_name lD = "Chicago" ->
  events = [eB; eD] \/ events = [eD; eB] ->
  exists pre post,
    generateStoryFromEvents engine events [member] locations =
      Gedcom.Ok (pre +:+ "birth in Boston in 1900" +:+ ", " +:+ ", and their "
                   +:+ "life concluded in Chicago in 1950" +:+ post) /\
    pre = JS.trimStart (fm_name member) +:+ "'s journey began with their " /\
    post = "." +:+ JS.trimEnd
                     (" " +:+ (if JS.truthy (fm_notes member)
                               then default "" (fm_notes member) +:+ " " else "")).
Proof.
  intros Hproto HmB HtB HdB HlB HnB HmD HtD HdD HlD HnD Hevents.
  eexists _, _. split; [| split; reflexivity].
  assert (Hgroup : exists es, groupByMember events [] = Gedcom.Ok [(fm_id member, es)] /\
                              sortEvents engine es = [eB; eD] /\ events <> []).
  { assert (HkB : memberKey eB = fm_id member) by (unfold memberKey; rewrite HmB; reflexivity).
    assert (HkD : memberKey eD = fm_id member) by (unfold memberKey; rewrite HmD; reflexivity).
    assert (HB : eventTime (parseDate engine) eB = Some (-2208988800000))
      by (unfold eventTime; rewrite HdB; reflexivity).
    assert (HD : eventTime (parseDate engine) eD = Some (-631152000000))
      by (unfold eventTime; rewrite HdD; reflexivity).
    destruct Hevents as [-> | ->]; eexists; (split; [apply groupByMember_one; auto|]);
      (split; [| discriminate]);
      unfold sortEvents, allParse; cbn [forallb]; rewrite HB, HD;
      cbn [andb fold_right insertSorted]; unfold notAfter; rewrite HB, HD; reflexivity. }
  destruct Hgroup as (es & Hg & Hsort & Hne).
  unfold generateStoryFromEvents. destruct events as [|e0 rest]; [contradiction|].
  rewrite Hg. cbn [Gedcom.bind]. rewrite entries_one. cbn [fold_left].
  unfold memberText. cbn [fst snd findMember find]. rewrite String.eqb_refl, Hsort.
  cbn [eventsText]. unfold eventText, inDate.
  rewrite HtB, HtD, HdB, HdD, HlB, HlD. unfold placeName. rewrite HnB, HnD.
  f_equal.
  set (tail := if JS.truthy (fm_notes member) then _ else _).
  transitivity
    (JS.trimStart (fm_name member) +:+
     String "'" "s journey began with their birth in Boston in 1900, , and their life concluded in Chicago in 1950"
     +:+ "." +:+ JS.trimEnd (" " +:+ tail)).
  - exact (trim_sentence (fm_name member)
             "s journey began with their birth in Boston in 1900, , and their life concluded in Chicago in 1950"
             tail "'" eq_refl).
  - rewrite !append_assoc. reflexivity.
Qed.

Lemma story_birth_then_death_witness :
  exists pre post,
    generateStoryFromEvents RoutesSpec.plainEngine [RoutesSpec.janeDeath; RoutesSpec.janeBirth]
      [RoutesSpec.jane] [RoutesSpec.boston; RoutesSpec.chicago] =
    Gedcom.Ok (pre +:+ "birth in Boston in 1900" +:+ ", " +:+ ", and their "
                 +:+ "life concluded in Chicago in 1950" +:+ post).
Proof.
  destruct (story_birth_then_death RoutesSpec.plainEngine RoutesSpec.jane RoutesSpec.janeBirth
              RoutesSpec.janeDeath RoutesSpec.boston RoutesSpec.chicago
              [RoutesSpec.boston; RoutesSpec.chicago]
              [RoutesSpec.janeDeath; RoutesSpec.janeBirth]
              eq_refl eq_refl eq_refl eq_refl eq_refl eq_refl eq_refl eq_refl eq_refl
              eq_refl eq_refl (or_intror eq_refl))
    as (pre & post & H & _).
  exists pre, post. exact H.
Defined.

(** The whole sentence of the example. *)
Example story_of_jane :
  generateStoryFromEvents RoutesSpec.plainEngine [RoutesSpec.janeDeath; RoutesSpec.janeBirth]
    [RoutesSpec.jane] [RoutesSpec.boston; RoutesSpec.chicago] =
  Gedcom.Ok "Jane Doe's journey began with their birth in Boston in 1900, , and their life concluded in Chicago in 1950. A teacher.".
Proof. vm_compute. reflexivity. Qed.

(** A member id that names a member of [Object.prototype] makes the
    grouping throw. *)
Example story_throws_on_prototype_key :
  generateStoryFromEvents RoutesSpec.plainEngine
    [Storage.mkEvent "e" (JS.Value "constructor") None "birth" None None None None] [] [] =
  Gedcom.TypeError.
Proof. reflexivity. Qed.

End ServerProperties.

(** * Further properties *)

(** ** What parseGedcom returns *)

Section ParserInvariants.

Import Gedcom GedcomInv.

Lemma removeAll_no_slash (v : string) : JS.includes (JS.removeAll "/" v) "/" = false.
Proof.
  induction v as [|c v IH]; [reflexivity|].
  cbn [JS.removeAll]. destruct (Ascii.eqb c "/") eqn:Hc; [exact IH|].
  cbn [JS.includes JS.startsWith]. rewrite Ascii.eqb_sym, Hc. cbn. exact IH.
Qed.

Lemma goodIndividual_mono (flat : list GedcomEvent) (e : GedcomEvent) (i : GedcomIndividual) :
  goodIndividual flat i -> goodIndividual (flat ++ [e]) i.
Proof.
  intros (H1 & H2 & H3 & H4 & H5 & H6). repeat split; auto.
  eapply Forall_impl; [exact H6|]. intros x Hx. apply in_or_app. left. exact Hx.
Qed.

Lemma fresh_new (t : string) :
  In t ["birth"; "death"; "residence"; "marriage"] -> fresh (newEvent t).
Proof. intros Ht. repeat split; auto. Qed.

Lemma closed_assign (e : GedcomEvent) (tag : option string) (value : string) :
  fresh e -> tagIs tag "DATE" || tagIs tag "PLAC" = true -> closed (assign e tag value).
Proof.
  intros (Hd & Hp & Ht & Hdesc) Htag. unfold assign.
  destruct (tagIs tag "DATE"); [| destruct (tagIs tag "PLAC"); [| discriminate]];
    (split; [| split; assumption]); cbn; [left | right]; eauto.
Qed.

Lemma save_good (st : state) : invariant st -> goodData (save st).
Proof.
  intros ((Hi & Hf & He) & Hci & Hcf & _). unfold save, goodData. cbn.
  repeat split; [| | exact He].
  - destruct (currentIndividual st) as [i|]; [| exact Hi].
    destruct (JS.nonEmpty (ind_id i)); [| exact Hi].
    apply Forall_app. split; [exact Hi|]. constructor; [| constructor]. apply Hci. reflexivity.
  - destruct (currentFamily st) as [f|]; [| exact Hf].
    destruct (JS.nonEmpty (fam_id f)); [| exact Hf].
    apply Forall_app. split; [exact Hf|]. constructor; [| constructor]. apply Hcf. reflexivity.
Qed.

Lemma invariant_initial : invariant initial.
Proof. repeat split; try constructor; discriminate. Qed.

Lemma level0_invariant (st st' : state) (tag : option string) :
  invariant st -> level0 st tag = Ok st' -> invariant st'.
Proof.
  intros Hinv. pose proof (save_good st Hinv) as Hsave.
  destruct Hinv as (_ & Hci & Hcf & Hce).
  unfold level0. destruct tag as [t|]; [| discriminate].
  assert (Hev : events (save st) = events (out st)) by reflexivity.
  destruct (JS.includes t "INDI") eqn:Hi; [| destruct (JS.includes t "FAM") eqn:Hf];
    intros [= <-]; (split; [exact Hsave|]); cbn [currentIndividual currentFamily currentEvent out].
  - split; [| split; [exact Hcf | exact Hce]].
    intros i [= <-]. repeat split; try (left; reflexivity); try constructor. exact Hi.
  - rewrite Hev. split; [exact Hci|]. split; [| exact Hce].
    intros f [= <-]. repeat split; auto. left. reflexivity.
  - split; [intros i H; discriminate|]. split; [intros f H; discriminate | exact Hce].
Qed.


Lemma level1_invariant (st : state) (tag : option string) (value : string) :
  invariant st -> invariant (level1 st tag value).
Proof.
  intros Hinv. pose proof Hinv as (Hd & Hci & Hcf & Hce). unfold level1.
  destruct (currentContext st) as [[|]|] eqn:Hctx; [| | exact Hinv].
  - destruct (currentIndividual st) as [i|] eqn:Hi; [| exact Hinv].
    destruct (Hci i eq_refl) as (G1 & G2 & G3 & G4 & G5 & G6).
    repeat match goal with
           | |- context [if tagIs ?a ?b then _ else _] => destruct (tagIs a b)
           end;
      (split; [exact Hd|]); cbn [currentIndividual currentFamily currentEvent out];
      rewrite ?Hi;
      (split; [| split; [exact Hcf|]]);
      try exact Hci; try exact Hce;
      try (intros e [= <-]; apply fresh_new; cbn; tauto).
    + intros i' [= <-]. repeat split; auto. apply removeAll_no_slash.
    + intros i' [= <-]. repeat split; auto.
  - destruct (currentFamily st) as [f|] eqn:Hf;
      [| destruct (currentIndividual st); exact Hinv].
    destruct (Hcf f eq_refl) as (G1 & G2 & G3).
    repeat match goal with
           | |- context [if tagIs ?a ?b then _ else _] => destruct (tagIs a b)
           end;
      (split; [exact Hd|]); cbn [currentIndividual currentFamily currentEvent out];
      rewrite ?Hf;
      (split; [exact Hci|]); (split; [| try exact Hce]);
      try exact Hcf;
      try (intros e [= <-]; apply fresh_new; cbn; tauto);
      try (intros f' [= <-]; repeat split; assumption).
Qed.

Lemma level2_invariant (st : state) (tag : option string) (value : string) :
  invariant st -> invariant (level2 st tag value).
Proof.
  intros Hinv. pose proof Hinv as (Hd & Hci & Hcf & Hce). unfold level2.
  destruct (currentEvent st) as [e0|] eqn:He; [| exact Hinv].
  pose proof (Hce e0 eq_refl) as Hfresh.
  destruct (tagIs tag "DATE" || tagIs tag "PLAC") eqn:Htag.
  - pose proof (closed_assign e0 tag value Hfresh Htag) as Hclosed.
    set (e := assign e0 tag value) in *.
    destruct Hd as (Hinds & Hfams & Hevs).
    assert (Hout : goodData (mkParsed (individuals (out st)) (families (out st))
                               (events (out st) ++ [e]))).
    { repeat split; cbn.
      - eapply Forall_impl; [exact Hinds|]. intros i. apply goodIndividual_mono.
      - exact Hfams.
      - apply Forall_app. split; [exact Hevs|]. constructor; [exact Hclosed | constructor]. }
    assert (Hnb : notBoth (ev_date e) (ev_place e)).
    { destruct Hclosed as ([(_ & H)|(H & _)] & _); [right | left]; exact H. }
    assert (Hcf' : forall f, currentFamily st = Some f -> goodFamily f) by exact Hcf.
    destruct (currentContext st) as [[|]|] eqn:Hctx.
    + destruct (currentIndividual st) as [i|] eqn:Hi.
      * split; [exact Hout|]. cbn [currentIndividual currentFamily currentEvent out events].
        split; [| split; [exact Hcf | discriminate]].
        intros i' [= <-].
        destruct (goodIndividual_mono _ e _ (Hci i eq_refl)) as (G1 & G2 & G3 & G4 & G5 & G6).
        assert (P1 : Forall closed (ind_events i ++ [e]))
          by (apply Forall_app; split; [exact G5 | constructor; [exact Hclosed | constructor]]).
        assert (P2 : Forall (fun x => In x (events (out st) ++ [e])) (ind_events i ++ [e]))
          by (apply Forall_app; split;
              [exact G6 | constructor; [apply in_or_app; right; left; reflexivity | constructor]]).
        destruct (String.eqb (ev_type e) "birth");
          [| destruct (String.eqb (ev_type e) "death")]; repeat split; assumption.
      * split; [exact Hout|]. cbn [currentIndividual currentFamily currentEvent out events].
        split; [discriminate|]. split; [exact Hcf | discriminate].
    + destruct (currentFamily st) as [f|] eqn:Hf.
      * split; [exact Hout|]. cbn [currentIndividual currentFamily currentEvent out events].
        split; [intros i Hi; apply goodIndividual_mono; apply Hci; exact Hi|].
        split; [| discriminate].
        intros f' [= <-]. destruct (Hcf f eq_refl) as (G1 & G2 & G3).
        destruct (String.eqb (ev_type e) "marriage"); repeat split; assumption.
      * split; [exact Hout|]. cbn [currentIndividual currentFamily currentEvent out events].
        split; [intros i Hi; apply goodIndividual_mono; apply Hci; exact Hi|].
        split; [discriminate | discriminate].
    + split; [exact Hout|]. cbn [currentIndividual currentFamily currentEvent out events].
      destruct (currentIndividual st) as [i|] eqn:Hi; destruct (currentFamily st) as [f|] eqn:Hf;
        cbn [currentIndividual currentFamily currentEvent out events];
        (split; [intros i' Hi'; apply goodIndividual_mono; apply Hci; exact Hi'|]);
        (split; [exact Hcf | discriminate]).
  - assert (Hsame : assign e0 tag value = e0).
    { unfold assign. apply orb_false_elim in Htag as [-> ->]. reflexivity. }
    rewrite Hsame. split; [exact Hd|]. cbn. split; [exact Hci|]. split; [exact Hcf|].
    intros e [= <-]. exact Hfresh.
Qed.

Lemma step_invariant (st st' : state) (line : string) :
  invariant st -> step st line = Ok st' -> invariant st'.
Proof.
  intros Hinv. unfold step.
  destruct (levelIs _ 0); [apply level0_invariant; exact Hinv|].
  destruct (levelIs _ 1); [intros [= <-]; apply level1_invariant; exact Hinv|].
  destruct (levelIs _ 2); [intros [= <-]; apply level2_invariant; exact Hinv|].
  intros [= <-]. exact Hinv.
Qed.

Lemma run_invariant (lines : list string) :
  forall st st', invariant st -> run st lines = Ok st' -> invariant st'.
Proof.
  induction lines as [|line rest IH]; intros st st' Hinv; cbn.
  - intros [= <-]. exact Hinv.
  - destruct (step st line) as [st1|] eqn:Hs; [| discriminate]. cbn.
    apply IH. eapply step_invariant; eauto.
Qed.

Lemma parseGedcom_good (gedcomText : string) (d : ParsedGedcomData) :
  parseGedcom gedcomText = Ok d -> goodData d.
Proof.
  unfold parseGedcom. destruct (run initial (gedcomLines gedcomText)) as [st|] eqn:Hr;
    [| discriminate].
  intros [= <-]. apply save_good. eapply run_invariant; [apply invariant_initial | exact Hr].
Qed.

(** X4: in every result of parseGedcom, the id of each individual
    contains [INDI], the id of each family contains [FAM] and not [INDI],
    and no individual's name contains a slash. *)
Theorem parseGedcom_ids_and_names (gedcomText : string) (d : ParsedGedcomData) :
  parseGedcom gedcomText = Ok d ->
  (forall i, In i (individuals d) ->
     JS.includes (ind_id i) "INDI" = true /\ JS.includes (ind_name i) "/" = false) /\
  (forall f, In f (families d) ->
     JS.includes (fam_id f) "FAM" = true /\ JS.includes (fam_id f) "INDI" = false).
Proof.
  intros Hp. destruct (parseGedcom_good _ _ Hp) as (Hi & Hf & _). split.
  - intros i Hin. rewrite Forall_forall in Hi.
    destruct (Hi i) as (G1 & G2 & _); [apply list_elem_of_In; exact Hin | auto].
  - intros f Hin. rewrite Forall_forall in Hf.
    destruct (Hf f) as (G1 & G2 & _); [apply list_elem_of_In; exact Hin | auto].
Qed.

Lemma parseGedcom_ids_and_names_witness :
  exists d,
    parseGedcom "0 @INDI1@ INDI
1 NAME John /Smith/
0 @FAM1@ FAM
1 HUSB @INDI1@" = Ok d /\
    (forall i, In i (individuals d) ->
       JS.includes (ind_id i) "INDI" = true /\ JS.includes (ind_name i) "/" = false).
Proof.
  eexists. split; [reflexivity|].
  apply (parseGedcom_ids_and_names "0 @INDI1@ INDI
1 NAME John /Smith/
0 @FAM1@ FAM
1 HUSB @INDI1@" _ eq_refl).
Defined.

(** X5: every event parseGedcom returns, in the flat list or on an
    individual, has exactly one of its date and its place set (it was closed
    right after the first of the two was read); every event of an individual
    is also in the flat list; and no individual has both a birth date and a
    birth place, or both a death date and a death place, and no family both
    a marriage date and a marriage place. *)
Theorem parseGedcom_events_have_one_field (gedcomText : string) (d : ParsedGedcomData) :
  parseGedcom gedcomText = Ok d ->
  (forall e, In e (events d) ->
     (exists v, ev_date e = Some v) /\ ev_place e = None \/
     ev_date e = None /\ (exists v, ev_place e = Some v)) /\
  (forall i e, In i (individuals d) -> In e (ind_events i) ->
     In e (events d) /\
     ((exists v, ev_date e = Some v) /\ ev_place e = None \/
      ev_date e = None /\ (exists v, ev_place e = Some v))) /\
  (forall i, In i (individuals d) ->
     (ind_birthDate i = None \/ ind_birthPlace i = None) /\
     (ind_deathDate i = None \/ ind_deathPlace i = None)) /\
  (forall f, In f (families d) -> fam_marriageDate f = None \/ fam_marriagePlace f = None).
Proof.
  intros Hp. destruct (parseGedcom_good _ _ Hp) as (Hi & Hf & He).
  rewrite Forall_forall in Hi. rewrite Forall_forall in Hf. rewrite Forall_forall in He.
  split; [| split; [| split]].
  - intros e Hin. apply list_elem_of_In in Hin. destruct (He e Hin) as [H _]. exact H.
  - intros i e Hin Hev. apply list_elem_of_In in Hin.
    destruct (Hi i Hin) as (_ & _ & _ & _ & G5 & G6).
    rewrite Forall_forall in G5. rewrite Forall_forall in G6. apply list_elem_of_In in Hev.
    split; [apply G6; exact Hev | destruct (G5 e Hev) as [H _]; exact H].
  - intros i Hin. apply list_elem_of_In in Hin.
    destruct (Hi i Hin) as (_ & _ & G3 & G4 & _). split; assumption.
  - intros f Hin. apply list_elem_of_In in Hin. destruct (Hf f Hin) as (_ & _ & G). exact G.
Qed.

Lemma parseGedcom_events_have_one_field_witness :
  exists d,
    parseGedcom "0 INDI1
1 BIRT
2 DATE 1900
2 PLAC Boston
1 DEAT
2 PLAC Chicago" = Ok d /\
    length (events d) = 2%nat /\
    (forall i, In i (individuals d) ->
       (ind_birthDate i = None \/ ind_birthPlace i = None) /\
       (ind_deathDate i = None \/ ind_deathPlace i = None)).
Proof.
  eexists. split; [reflexivity|]. split; [reflexivity|].
  apply (parseGedcom_events_have_one_field "0 INDI1
1 BIRT
2 DATE 1900
2 PLAC Boston
1 DEAT
2 PLAC Chicago" _ eq_refl).
Defined.

End ParserInvariants.

(** ** What parseCsv returns *)

Section CsvProperties.

Import Gedcom.

Lemma or_None_nonEmpty (a b : option string) :
  JS.or (JS.or a b) None <> Some "".
Proof.
  unfold JS.or. destruct (JS.truthy a) eqn:Ha.
  - rewrite Ha. destruct a as [[|]|]; discriminate.
  - destruct (JS.truthy b) eqn:Hb; [| discriminate]. destruct b as [[|]|]; discriminate.
Qed.

Lemma or_None_set (a : option string) :
  JS.or a None <> Some "".
Proof. unfold JS.or. destruct a as [[|]|]; discriminate. Qed.

Lemma truthy_set (a : option string) :
  a <> Some "" -> (JS.truthy a = true <-> a <> None).
Proof. destruct a as [[|]|]; cbn; intuition congruence. Qed.

(** X6: in every record parseCsv returns, each optional field is absent or a
    non-empty string; the record has a birth event exactly when its birth
    date or birth place is present, a death event exactly when its death
    date or death place is present, and no other event; an event carries the
    record's date and place of its kind. *)
Theorem parseCsv_fields_and_events (csvText : string) (ind : GedcomIndividual) :
  ind ∈ parseCsv csvText ->
  (ind_birthDate ind <> Some "" /\ ind_deathDate ind <> Some "" /\
   ind_birthPlace ind <> Some "" /\ ind_deathPlace ind <> Some "" /\
   ind_notes ind <> Some "") /\
  ((exists e, In e (ind_events ind) /\ ev_type e = "birth") <->
   ind_birthDate ind <> None \/ ind_birthPlace ind <> None) /\
  ((exists e, In e (ind_events ind) /\ ev_type e = "death") <->
   ind_deathDate ind <> None \/ ind_deathPlace ind <> None) /\
  (forall e, In e (ind_events ind) ->
     ev_type e = "birth" /\ ev_date e = ind_birthDate ind /\ ev_place e = ind_birthPlace ind \/
     ev_type e = "death" /\ ev_date e = ind_deathDate ind /\ ev_place e = ind_deathPlace ind).
Proof.
  intros Hin. apply parseCsv_elem in Hin as (line0 & rows & j & line & _ & _ & Hi).
  unfold csvIndividual in Hi.
  destruct (csvRow (csvHeaders line0) line !! "name") as [[|c r]|]; try discriminate.
  injection Hi as <-. cbn [ind_birthDate ind_deathDate ind_birthPlace ind_deathPlace
                            ind_notes ind_events].
  set (row := csvRow (csvHeaders line0) line).
  pose proof (or_None_nonEmpty (row !! "birth_date") (row !! "birthdate")) as Hbd.
  pose proof (or_None_nonEmpty (row !! "death_date") (row !! "deathdate")) as Hdd.
  pose proof (or_None_nonEmpty (row !! "birth_place") (row !! "birthplace")) as Hbp.
  pose proof (or_None_nonEmpty (row !! "death_place") (row !! "deathplace")) as Hdp.
  pose proof (or_None_set (row !! "notes")) as Hn.
  set (bd := JS.or (JS.or (row !! "birth_date") (row !! "birthdate")) None) in *.
  set (dd := JS.or (JS.or (row !! "death_date") (row !! "deathdate")) None) in *.
  set (bp := JS.or (JS.or (row !! "birth_place") (row !! "birthplace")) None) in *.
  set (dp := JS.or (JS.or (row !! "death_place") (row !! "deathplace")) None) in *.
  split; [auto|].
  pose proof (truthy_set bd Hbd) as Tbd. pose proof (truthy_set dd Hdd) as Tdd.
  pose proof (truthy_set bp Hbp) as Tbp. pose proof (truthy_set dp Hdp) as Tdp.
  assert (Hb : JS.truthy bd || JS.truthy bp = true <-> bd <> None \/ bp <> None)
    by (rewrite orb_true_iff; tauto).
  assert (Hd : JS.truthy dd || JS.truthy dp = true <-> dd <> None \/ dp <> None)
    by (rewrite orb_true_iff; tauto).
  unfold csvEvents.
  destruct (JS.truthy bd || JS.truthy bp) eqn:Eb; destruct (JS.truthy dd || JS.truthy dp) eqn:Ed;
    cbn [app]; (split; [| split]).
  all: try (split;
            [intros _; first [apply Hb; reflexivity | apply Hd; reflexivity]
            | intros _;
              first [eexists; split; [left; reflexivity | reflexivity]
                    | eexists; split; [right; left; reflexivity | reflexivity]]]).
  all: try (split;
            [intros (e & He & Ht); cbn in He;
             repeat (destruct He as [<-|He]; [cbn in Ht; discriminate|]); destruct He
            | intros H; first [apply Hb in H; discriminate H | apply Hd in H; discriminate H]]).
  all: intros e He; cbn in He;
    repeat (destruct He as [<-|He]; [cbn; tauto|]); destruct He.
Qed.

Lemma parseCsv_fields_and_events_witness :
  mkIndividual "I1" "Jane Doe" (Some "1900") None None None None
    [mkEvent "birth" (Some "1900") None (Some "Born in unknown location")]
    ∈ parseCsv "name,birth_date,death_place
Jane Doe,1900," /\
  (forall e,
     In e [mkEvent "birth" (Some "1900") None (Some "Born in unknown location")] ->
     ev_type e = "birth" /\ ev_date e = Some "1900" /\ ev_place e = None \/
     ev_type e = "death" /\ ev_date e = None /\ ev_place e = None).
Proof.
  assert (H : mkIndividual "I1" "Jane Doe" (Some "1900") None None None None
                [mkEvent "birth" (Some "1900") None (Some "Born in unknown location")]
              ∈ parseCsv "name,birth_date,death_place
Jane Doe,1900,") by (vm_compute; apply list_elem_of_here).
  split; [exact H|].
  exact (proj2 (proj2 (proj2 (parseCsv_fields_and_events _ _ H)))).
Defined.

Lemma csvLoop_ids (headers : list string) (rows : list string) :
  forall i acc,
    (1 <= i)%nat ->
    (forall ind, ind ∈ acc ->
       exists k, (1 <= k < i)%nat /\ ind_id ind = "I" +:+ JS.showNat k) ->
    NoDup (List.map ind_id acc) ->
    NoDup (List.map ind_id (csvLoop headers i rows acc)) /\
    (length (csvLoop headers i rows acc) <= length acc + length rows)%nat /\
    (forall ind, ind ∈ csvLoop headers i rows acc ->
       exists k, (1 <= k < i + length rows)%nat /\ ind_id ind = "I" +:+ JS.showNat k).
Proof.
  induction rows as [|line rest IH]; intros i acc Hi Hacc Hnd; cbn [csvLoop length].
  - split; [exact Hnd|]. split; [lia|]. intros ind Hin.
    destruct (Hacc ind Hin) as (k & Hk & Hid). exists k. split; [lia | exact Hid].
  - destruct (csvIndividual i (csvRow headers line)) as [new|] eqn:Hnew.
    + pose proof (csvIndividual_Some _ _ _ Hnew) as (_ & _ & _ & Hid & _).
      destruct (IH (S i) (acc ++ [new])) as (G1 & G2 & G3).
      * lia.
      * intros ind Hin. apply elem_of_app in Hin as [Hin|Hin].
        -- destruct (Hacc ind Hin) as (k & Hk & Hk'). exists k. split; [lia | exact Hk'].
        -- apply list_elem_of_singleton in Hin as ->. exists i. split; [lia | exact Hid].
      * rewrite map_app. cbn [List.map]. apply NoDup_app. split; [exact Hnd|].
        split; [| apply NoDup_singleton].
        intros x Hx Hx'. apply list_elem_of_singleton in Hx'. subst x.
        apply list_elem_of_fmap in Hx as (ind & Hind & Hin).
        destruct (Hacc ind Hin) as (k & Hk & Hk').
        rewrite Hid, Hk' in Hind. injection Hind as Hind. apply showNat_inj in Hind. lia.
      * split; [exact G1|]. split.
        -- rewrite length_app in G2. cbn in G2. lia.
        -- intros ind Hin. destruct (G3 ind Hin) as (k & Hk & Hk').
           exists k. split; [lia | exact Hk'].
    + destruct (IH (S i) acc) as (G1 & G2 & G3).
      * lia.
      * intros ind Hin. destruct (Hacc ind Hin) as (k & Hk & Hk').
        exists k. split; [lia | exact Hk'].
      * exact Hnd.
      * split; [exact G1|]. split; [lia|].
        intros ind Hin. destruct (G3 ind Hin) as (k & Hk & Hk').
        exists k. split; [lia | exact Hk'].
Qed.

(** X7: the ids of the records parseCsv returns are pairwise different;
    each is [I] followed by the number of a data line (counting the
    non-blank lines from the header, which is line 0); and there are at most
    as many records as data lines. *)
Theorem parseCsv_ids_distinct (csvText : string) :
  NoDup (List.map ind_id (parseCsv csvText)) /\
  (length (parseCsv csvText) <= length (csvLines csvText) - 1)%nat /\
  (forall ind, ind ∈ parseCsv csvText ->
     exists k, (1 <= k < length (csvLines csvText))%nat /\
               ind_id ind = "I" +:+ JS.showNat k).
Proof.
  unfold parseCsv. destruct (csvLines csvText) as [|line0 [|r rows]].
  - split; [constructor|]. split; [cbn; lia|]. intros ind H. inversion H.
  - split; [constructor|]. split; [cbn; lia|]. intros ind H. inversion H.
  - destruct (csvLoop_ids (csvHeaders line0) (r :: rows) 1 []) as (G1 & G2 & G3).
    + lia.
    + intros ind H. inversion H.
    + constructor.
    + split; [exact G1|]. split; [cbn in *; lia|].
      intros ind Hin. destruct (G3 ind Hin) as (k & Hk & Hk').
      exists k. split; [cbn in *; lia | exact Hk'].
Qed.

End CsvProperties.

(** ** What the upload handlers create, for every answer of the geocoder *)

Section UploadProperties.

Import Gedcom Storage Routes UploadSpec.

(** Visiting a place never changes the created members. *)
Lemma processPlace_members (w : World) (member : FamilyMember)
    (birthDate deathDate : option string) (acc : Created) (p : string * string) (s : Sys) :
  createdMembers (fst (processPlace w member birthDate deathDate acc p s)) =
  createdMembers acc.
Proof.
  destruct p as [place type]. unfold processPlace, bind, geocodeLocation.
  destruct (coordsOf (fetch w (tick s) place)) as [c|]; reflexivity.
Qed.

Lemma places_members (w : World) (member : FamilyMember)
    (birthDate deathDate : option string) (ps : list (string * string)) :
  forall acc s,
    createdMembers (fst (forEach (processPlace w member birthDate deathDate) ps acc s)) =
    createdMembers acc.
Proof.
  induction ps as [|p rest IH]; intros acc s; cbn [forEach]; [reflexivity|].
  unfold bind.
  destruct (processPlace w member birthDate deathDate acc p s) as [acc' s'] eqn:Hp.
  rewrite IH. change acc' with (fst (acc', s')). rewrite <- Hp. apply processPlace_members.
Qed.

Lemma processMember_members (w : World) (acc : Created) (memberData : MemberData) (s : Sys) :
  List.map fm_name (createdMembers (fst (processMember w acc memberData s))) =
  List.map fm_name (createdMembers acc) ++
  (if JS.nonEmpty (md_name memberData) then [md_name memberData] else []).
Proof.
  destruct (JS.nonEmpty (md_name memberData)) eqn:Hname.
  - rewrite processMember_named by exact Hname. cbn zeta.
    rewrite places_members. cbn. rewrite map_app. reflexivity.
  - rewrite processMember_unnamed by exact Hname. cbn. rewrite app_nil_r. reflexivity.
Qed.

Lemma members_loop (w : World) (members : list MemberData) :
  forall acc s,
    List.map fm_name (createdMembers (fst (forEach (processMember w) members acc s))) =
    List.map fm_name (createdMembers acc) ++
    List.filter JS.nonEmpty (List.map md_name members).
Proof.
  induction members as [|m rest IH]; intros acc s; cbn [forEach List.map List.filter].
  - cbn. rewrite app_nil_r. reflexivity.
  - unfold bind. destruct (processMember w acc m s) as [acc' s'] eqn:Hp.
    rewrite IH. change acc' with (fst (acc', s')). rewrite <- Hp.
    rewrite processMember_members.
    destruct (JS.nonEmpty (md_name m)); rewrite <- app_assoc; reflexivity.
Qed.

(** X8: whatever the geocoding service answers, a GEDCOM upload creates
    exactly one member for each parsed individual with a non-empty name, in
    the order of the file and under that name. *)
Theorem uploadGedcom_members (w : World) (gedcomData : string) (s : Sys) :
  List.map fm_name (createdMembers (fst (uploadGedcom w gedcomData s))) =
  List.filter JS.nonEmpty (List.map md_name (parseGedcomData gedcomData)).
Proof. unfold uploadGedcom. rewrite members_loop. reflexivity. Qed.

Lemma dataStep_count (st : list MemberData * option MemberData) (line : string) :
  (length (fst (dataStep st line)) + length (option_list (snd (dataStep st line))) =
   length (fst st) + length (option_list (snd st)) +
   (if startsIndividual line then 1 else 0))%nat.
Proof.
  destruct st as [members cur]. unfold dataStep, startsIndividual.
  destruct (JS.startsWith (JS.trim line) "0" && JS.includes (JS.trim line) "INDI").
  - destruct cur; cbn; rewrite ?length_app; cbn; lia.
  - destruct cur as [cur|]; [| cbn; lia].
    repeat match goal with
           | |- context [if JS.includes ?a ?b then _ else _] => destruct (JS.includes a b)
           | |- context [let '(_, _) := ?x in _] => destruct x
           end; cbn; lia.
Qed.

Lemma dataLoop_count (lines : list string) :
  forall st,
    (length (fst (fold_left dataStep lines st)) +
     length (option_list (snd (fold_left dataStep lines st))) =
     length (fst st) + length (option_list (snd st)) +
     length (List.filter startsIndividual lines))%nat.
Proof.
  induction lines as [|line rest IH]; intros st; cbn [fold_left List.filter].
  - cbn. lia.
  - rewrite IH, dataStep_count. destruct (startsIndividual line); cbn [length]; lia.
Qed.

(** X9: [parseGedcomData] returns exactly one member for each line whose
    trimmed text starts with [0] and contains [INDI]. *)
Theorem parseGedcomData_count (gedcomText : string) :
  length (parseGedcomData gedcomText) =
  length (List.filter startsIndividual (JS.split gedcomText "
")).
Proof.
  unfold parseGedcomData.
  pose proof (dataLoop_count (JS.split gedcomText "
") ([], None)) as H.
  destruct (fold_left dataStep (JS.split gedcomText "
") ([], None)) as [members [cur|]]; cbn in H; rewrite ?length_app; cbn; lia.
Qed.

Lemma paired_mono (ms : list FamilyMember) (m : FamilyMember) (l : Location) (e : Event) :
  paired ms l e -> paired (ms ++ [m]) l e.
Proof.
  intros (H1 & (m0 & Hin & Hm) & H3). split; [exact H1|]. split; [| exact H3].
  exists m0. split; [apply in_or_app; left; exact Hin | exact Hm].
Qed.

Lemma processPlace_paired (w : World) (member : FamilyMember)
    (birthDate deathDate : option string) (acc : Created) (place type : string) (s : Sys) :
  In member (createdMembers acc) ->
  type = "birth" \/ type = "death" ->
  allPaired acc ->
  allPaired (fst (processPlace w member birthDate deathDate acc (place, type) s)).
Proof.
  intros Hin Htype Hacc. unfold processPlace, bind, geocodeLocation.
  destruct (coordsOf (fetch w (tick s) place)) as [c|]; cbn; try exact Hacc.
  unfold allPaired. cbn. apply Forall2_app; [exact Hacc|].
  constructor; [| constructor].
  unfold paired. cbn. split; [reflexivity|]. split; [exists member; auto|].
  split; [reflexivity|]. split; [exact Htype|]. split; [reflexivity|].
  split; [| reflexivity]. unfold byType. reflexivity.
Qed.

Lemma places_paired (w : World) (member : FamilyMember)
    (birthPlace deathPlace birthDate deathDate : option string) (acc : Created) (s : Sys) :
  In member (createdMembers acc) ->
  allPaired acc ->
  allPaired (fst (forEach (processPlace w member birthDate deathDate)
                    (places birthPlace deathPlace) acc s)).
Proof.
  intros Hin Hacc.
  apply (forEach_invariant (processPlace w member birthDate deathDate)
           (fun c _ => In member (createdMembers c) /\ allPaired c)); [| auto].
  intros [place type] acc0 s0 Hp [Hin0 Hacc0]. split.
  - rewrite processPlace_members. exact Hin0.
  - apply processPlace_paired; auto.
    apply places_elem in Hp as [[-> _]|[-> _]]; auto.
Qed.

Lemma allPaired_push (c : Created) (m : FamilyMember) :
  allPaired c ->
  allPaired (mkCreated (createdMembers c ++ [m]) (createdLocations c) (createdEvents c)).
Proof.
  unfold allPaired. cbn. intros H. eapply Forall2_impl; [exact H|].
  intros l e. apply paired_mono.
Qed.

Lemma processMember_paired (w : World) (acc : Created) (memberData : MemberData) (s : Sys) :
  allPaired acc -> allPaired (fst (processMember w acc memberData s)).
Proof.
  intros Hacc. destruct (JS.nonEmpty (md_name memberData)) eqn:Hname.
  - rewrite processMember_named by exact Hname. cbn zeta.
    apply places_paired; [| apply allPaired_push; exact Hacc].
    cbn. apply in_or_app. right. left. reflexivity.
  - rewrite processMember_unnamed by exact Hname. exact Hacc.
Qed.

Lemma processRow_paired (w : World) (acc : Created) (row : gmap string string) (s : Sys) :
  allPaired acc -> allPaired (fst (processRow w acc row s)).
Proof.
  intros Hacc. unfold processRow. destruct (JS.truthy (row !! "name")); cbn [negb].
  - unfold bind at 1. unfold createFamilyMember at 1, Storage.createFamilyMember.
    cbn beta iota zeta.
    apply places_paired; [| apply allPaired_push; exact Hacc].
    cbn. apply in_or_app. right. left. reflexivity.
  - exact Hacc.
Qed.

(** X10: in a GEDCOM upload and in a CSV upload there are as many created
    events as created locations, and the k-th event belongs to the k-th
    location: it refers to it by id and to one of the created members by id,
    its type (birth or death) is the location's type, its date the
    location's time span, its description [Born in] or [Died in] followed by
    the place, and its notes are empty. *)
Theorem upload_events_pair_with_locations :
  (forall (w : World) (gedcomData : string) (s : Sys),
     allPaired (fst (uploadGedcom w gedcomData s))) /\
  (forall (w : World) (csvData : string) (s : Sys),
     match fst (uploadCsv w csvData s) with
     | Some c => allPaired c
     | None => True
     end).
Proof.
  split.
  - intros w gedcomData s. unfold uploadGedcom.
    apply (forEach_invariant (processMember w) (fun c _ => allPaired c)).
    + intros m acc s0 _. apply processMember_paired.
    + constructor.
  - intros w csvData s. unfold uploadCsv.
    destruct (csvLines csvData) as [|line0 [|r rows]]; try exact I.
    unfold bind, ret.
    destruct (forEach (processRow w)
                (List.map (csvRow (csvHeaders line0)) (r :: rows)) noneCreated s)
      as [c s'] eqn:Hrun.
    cbn [fst]. change c with (fst (c, s')). rewrite <- Hrun.
    apply (forEach_invariant (processRow w) (fun c _ => allPaired c)).
    + intros row acc s0 _. apply processRow_paired.
    + constructor.
Qed.

Lemma processRow_fields (w : World) (acc : Created) (row : gmap string string)
    (s : Sys) (i : nat) :
  List.map memberFields (createdMembers (fst (processRow w acc row s))) =
  List.map memberFields (createdMembers acc) ++
  match csvIndividual i row with
  | Some ind => [individualFields ind]
  | None => []
  end.
Proof.
  unfold processRow, csvIndividual.
  destruct (row !! "name") as [[|c r]|] eqn:Hname; cbn [JS.truthy JS.nonEmpty negb];
    try (cbn; rewrite app_nil_r; reflexivity).
  unfold bind at 1. unfold createFamilyMember at 1, Storage.createFamilyMember.
  cbn beta iota zeta. rewrite places_members. cbn. rewrite map_app. reflexivity.
Qed.

Lemma rows_fields (w : World) (headers : list string) (rows : list string) :
  forall acc s i accI,
    List.map memberFields (createdMembers acc) = List.map individualFields accI ->
    List.map memberFields
      (createdMembers (fst (forEach (processRow w) (List.map (csvRow headers) rows) acc s))) =
    List.map individualFields (csvLoop headers i rows accI).
Proof.
  induction rows as [|line rest IH]; intros acc s i accI Hacc;
    cbn [forEach List.map csvLoop]; [exact Hacc|].
  unfold bind. destruct (processRow w acc (csvRow headers line) s) as [acc' s'] eqn:Hp.
  pose proof (processRow_fields w acc (csvRow headers line) s i) as Hf.
  rewrite Hp in Hf. cbn [fst] in Hf.
  destruct (csvIndividual i (csvRow headers line)) as [ind|].
  - apply IH. rewrite Hf, Hacc, map_app. reflexivity.
  - apply IH. rewrite Hf, Hacc, app_nil_r. reflexivity.
Qed.

(** X11: the CSV upload of the server and parseCsv of the client read a
    file alike: the upload answers 400 exactly when parseCsv has fewer than
    two non-blank lines to read (and then returns no record and the store is
    untouched), and otherwise creates, in the same order, one member for
    each record of parseCsv, with the same name, birth and death dates and
    birth and death places, whatever the geocoding service answers. *)
Theorem uploadCsv_agrees_with_parseCsv (w : World) (csvData : string) (s : Sys) :
  match fst (uploadCsv w csvData s) with
  | Some c =>
      (2 <= length (csvLines csvData))%nat /\
      List.map memberFields (createdMembers c) =
      List.map individualFields (parseCsv csvData)
  | None =>
      (length (csvLines csvData) < 2)%nat /\
      parseCsv csvData = [] /\ snd (uploadCsv w csvData s) = s
  end.
Proof.
  unfold uploadCsv, parseCsv.
  destruct (csvLines csvData) as [|line0 [|r rows]]; cbn [ret fst snd length];
    try (repeat split; lia).
  unfold bind, ret.
  destruct (forEach (processRow w)
              (List.map (csvRow (csvHeaders line0)) (r :: rows)) noneCreated s)
    as [c s'] eqn:Hrun.
  cbn [fst]. split; [lia|]. change c with (fst (c, s')). rewrite <- Hrun.
  apply rows_fields. reflexivity.
Qed.

End UploadProperties.

(** ** Reading, creating and deleting in the store *)

Section StoreProperties.

Import Storage StorageOps.

Lemma deleteIn_spec {E : Type} (m : gmap string E) (id : string) :
  (fst (deleteIn m id) = true <-> exists e, m !! id = Some e) /\
  snd (deleteIn m id) !! id = None /\
  (forall id', id' <> id -> snd (deleteIn m id) !! id' = m !! id') /\
  (m !! id = None -> deleteIn m id = (false, m)).
Proof.
  unfold deleteIn. cbn. split; [| split; [| split]].
  - rewrite bool_decide_eq_true. reflexivity.
  - apply lookup_delete_eq.
  - intros id' Hne. apply lookup_delete_ne. congruence.
  - intros Hn. rewrite delete_id by exact Hn. f_equal.
    apply bool_decide_eq_false. rewrite Hn. intros [e He]. discriminate.
Qed.

(** X12: for each of the six collections, delete answers true exactly when
    the id was stored; afterwards the id is absent, every other entry and
    every other collection is unchanged; deleting an absent id answers false
    and leaves the whole store as it was. *)
Theorem delete_removes_only_the_id :
  deletes familyMembers deleteFamilyMember
    (fun s s' => locations s' = locations s /\ events s' = events s /\
                 stories s' = stories s /\ geopackageLayers s' = geopackageLayers s /\
                 atlasProjects s' = atlasProjects s) /\
  deletes locations deleteLocation
    (fun s s' => familyMembers s' = familyMembers s /\ events s' = events s /\
                 stories s' = stories s /\ geopackageLayers s' = geopackageLayers s /\
                 atlasProjects s' = atlasProjects s) /\
  deletes events deleteEvent
    (fun s s' => familyMembers s' = familyMembers s /\ locations s' = locations s /\
                 stories s' = stories s /\ geopackageLayers s' = geopackageLayers s /\
                 atlasProjects s' = atlasProjects s) /\
  deletes stories deleteStory
    (fun s s' => familyMembers s' = familyMembers s /\ locations s' = locations s /\
                 events s' = events s /\ geopackageLayers s' = geopackageLayers s /\
                 atlasProjects s' = atlasProjects s) /\
  deletes geopackageLayers deleteGeopackageLayer
    (fun s s' => familyMembers s' = familyMembers s /\ locations s' = locations s /\
                 events s' = events s /\ stories s' = stories s /\
                 atlasProjects s' = atlasProjects s) /\
  deletes atlasProjects deleteAtlasProject
    (fun s s' => familyMembers s' = familyMembers s /\ locations s' = locations s /\
                 events s' = events s /\ stories s' = stories s /\
                 geopackageLayers s' = geopackageLayers s).
Proof.
  repeat apply conj; unfold deletes; intros [fm lo ev st gl ap] id;
    unfold deleteFamilyMember, deleteLocation, deleteEvent, deleteStory,
      deleteGeopackageLayer, deleteAtlasProject;
    cbn [familyMembers locations events stories geopackageLayers atlasProjects];
    match goal with
    | |- context [deleteIn ?m id] =>
        destruct (deleteIn_spec m id) as (H1 & H2 & H3 & H4);
        destruct (deleteIn m id) as [r m'] eqn:Hd; cbn [fst snd] in *
    end;
    cbn [familyMembers locations events stories geopackageLayers atlasProjects];
    (split; [exact H1|]); (split; [exact H2|]); (split; [exact H3|]);
    (split; [repeat apply conj; reflexivity|]);
    intros Hn; specialize (H4 Hn); injection H4 as -> ->; reflexivity.
Qed.

Lemma deleteIn_insert {E : Type} (m : gmap string E) (id : string) (x : E) :
  m !! id = None -> deleteIn (<[id := x]> m) id = (true, m).
Proof.
  intros Hn. unfold deleteIn. rewrite delete_insert_id by exact Hn. f_equal.
  apply bool_decide_eq_true. rewrite lookup_insert_eq. eauto.
Qed.

(** X13: a member, location or event that was just created is what get
    returns for its id; it carries that id, the creation date and the
    inserted fields; the entries of other ids are untouched; and when the id
    was not in use, deleting it again answers true and gives back the store
    exactly as it was before the creation. *)
Theorem create_get_delete_round_trip :
  (forall (s : MemStorage) (id : string) (now : Z) (i : InsertFamilyMember),
     let r := createFamilyMember s id now i in
     getFamilyMember (snd r) id = Some (fst r) /\
     fst r = mkFamilyMember id (ifm_name i) (ifm_birthDate i) (ifm_deathDate i)
               (ifm_birthPlace i) (ifm_deathPlace i) (ifm_notes i) (ifm_photos i) (Some now) /\
     (forall id', id' <> id -> getFamilyMember (snd r) id' = getFamilyMember s id') /\
     (getFamilyMember s id = None -> deleteFamilyMember (snd r) id = (true, s))) /\
  (forall (s : MemStorage) (id : string) (now : Z) (i : InsertLocation),
     let r := createLocation s id now i in
     getLocation (snd r) id = Some (fst r) /\
     fst r = mkLocation id (il_name i) (il_latitude i) (il_longitude i) (il_address i)
               (il_locationType i) (il_timeSpan i) (il_memberCount i) (Some now) /\
     (forall id', id' <> id -> getLocation (snd r) id' = getLocation s id') /\
     (getLocation s id = None -> deleteLocation (snd r) id = (true, s))) /\
  (forall (s : MemStorage) (id : string) (now : Z) (i : InsertEvent),
     let r := createEvent s id now i in
     getEvent (snd r) id = Some (fst r) /\
     fst r = mkEvent id (ie_memberId i) (ie_locationId i) (ie_eventType i) (ie_eventDate i)
               (ie_description i) (ie_notes i) (Some now) /\
     (forall id', id' <> id -> getEvent (snd r) id' = getEvent s id') /\
     (getEvent s id = None -> deleteEvent (snd r) id = (true, s))).
Proof.
  repeat apply conj; intros [fm lo ev st gl ap] id now i; cbn -[deleteIn];
    unfold getFamilyMember, getLocation, getEvent, deleteFamilyMember, deleteLocation,
      deleteEvent; cbn -[deleteIn];
    (repeat apply conj;
     [ apply lookup_insert_eq
     | reflexivity
     | intros id' Hne; apply lookup_insert_ne; congruence
     | intros Hn; rewrite deleteIn_insert by exact Hn; reflexivity ]).
Qed.

End StoreProperties.

(** ** How the narrative builder groups and orders the events *)

Section StoryProperties.

Import Storage Routes StorySpec SortSpec.

Lemma existsb_eqb_In (k : string) (keys : list string) :
  existsb (String.eqb k) keys = true <-> In k keys.
Proof.
  rewrite existsb_exists. split.
  - intros (x & Hx & He). apply String.eqb_eq in He. subst. exact Hx.
  - intros H. exists k. split; [exact H | apply String.eqb_refl].
Qed.

Lemma groupByMember_throws_iff (events : list Event) :
  forall acc,
    groupByMember events acc = Gedcom.TypeError <->
    Exists (fun e => In (memberKey e) prototypeKeys) events.
Proof.
  induction events as [|e rest IH]; intros acc; cbn [groupByMember].
  - split; [discriminate | intros H; inversion H].
  - destruct (existsb (String.eqb (memberKey e)) prototypeKeys) eqn:Hk.
    + split; [| reflexivity]. intros _. apply Exists_cons_hd. apply existsb_eqb_In. exact Hk.
    + rewrite IH. split; [apply Exists_cons_tl|].
      intros H. inversion H as [? ? Hh|? ? Ht]; subst; [| exact Ht].
      apply existsb_eqb_In in Hh. congruence.
Qed.

(** X14: the narrative builder throws a TypeError exactly when one of the
    events has a member id that names a member of [Object.prototype]
    ([constructor], [toString], [__proto__], ...); on every other input,
    the empty list included, it returns a story. *)
Theorem generateStoryFromEvents_throws_iff (engine : Engine)
    (events : list Event) (members : list FamilyMember) (locations : list Location) :
  generateStoryFromEvents engine events members locations = Gedcom.TypeError <->
  Exists (fun e => In (memberKey e) prototypeKeys) events.
Proof.
  unfold generateStoryFromEvents. destruct events as [|e rest].
  - split; [discriminate | intros H; inversion H].
  - rewrite <- (groupByMember_throws_iff (e :: rest) []).
    destruct (groupByMember (e :: rest) []); cbn; split; congruence.
Qed.

Lemma pushTo_keys (key : string) (e : Event) (acc : list (string * list Event)) :
  forall k, In k (List.map fst (pushTo key e acc)) -> k = key \/ In k (List.map fst acc).
Proof.
  induction acc as [|[k0 es] rest IH]; intros k; cbn [pushTo List.map].
  - cbn. intuition congruence.
  - destruct (String.eqb k0 key); cbn; [intuition congruence|].
    intros [<-|H]; [tauto|]. apply IH in H. tauto.
Qed.

Lemma pushTo_grouped (e : Event) (acc : list (string * list Event)) :
  grouped acc -> grouped (pushTo (memberKey e) e acc).
Proof.
  intros [Hnd Hall]. induction acc as [|[k0 es] rest IH]; cbn [pushTo].
  - split; [apply NoDup_singleton|].
    constructor; [| constructor]. cbn. split; [discriminate|].
    constructor; [reflexivity | constructor].
  - cbn in Hnd. apply NoDup_cons in Hnd as [Hnotin Hnd'].
    pose proof (Forall_inv Hall) as [Hne Hkeys]. pose proof (Forall_inv_tail Hall) as Hall'.
    cbn in Hne, Hkeys.
    destruct (String.eqb_spec k0 (memberKey e)) as [->|Hneq].
    + split; [cbn; apply NoDup_cons; split; assumption|].
      constructor; [| exact Hall']. cbn. split; [destruct es; discriminate|].
      apply Forall_app. split; [exact Hkeys | constructor; [reflexivity | constructor]].
    + destruct (IH Hnd' Hall') as [G1 G2].
      split; [| constructor; [split; assumption | exact G2]].
      cbn. apply NoDup_cons. split; [| exact G1].
      intros Hin. apply list_elem_of_In in Hin. apply pushTo_keys in Hin as [->|Hin];
        [congruence | apply Hnotin; apply list_elem_of_In; exact Hin].
Qed.

Lemma pushTo_events (key : string) (e : Event) (acc : list (string * list Event)) :
  concat (List.map snd (pushTo key e acc)) ≡ₚ e :: concat (List.map snd acc).
Proof.
  induction acc as [|[k0 es] rest IH]; cbn [pushTo List.map concat]; [reflexivity|].
  destruct (String.eqb k0 key); cbn [List.map concat snd].
  - rewrite <- app_assoc. cbn. symmetry. apply Permutation_middle.
  - rewrite IH. symmetry. apply Permutation_middle.
Qed.

Lemma groupByMember_grouped (events : list Event) :
  forall acc groups,
    groupByMember events acc = Gedcom.Ok groups ->
    grouped acc ->
    grouped groups /\
    concat (List.map snd groups) ≡ₚ concat (List.map snd acc) ++ events.
Proof.
  induction events as [|e rest IH]; intros acc groups; cbn [groupByMember].
  - intros [= <-] Hg. split; [exact Hg|]. rewrite app_nil_r. reflexivity.
  - destruct (existsb (String.eqb (memberKey e)) prototypeKeys); [discriminate|].
    intros Hrun Hg. destruct (IH _ _ Hrun (pushTo_grouped e acc Hg)) as [G1 G2].
    split; [exact G1|]. rewrite G2, pushTo_events.
    cbn. apply Permutation_middle.
Qed.

(** X15: when the grouping returns, its groups split the events by member
    id: the keys are pairwise different, no group is empty, every event of a
    group has the member id of the group's key, and the groups together hold
    every event exactly once. *)
Theorem groupByMember_partitions (events : list Event)
    (groups : list (string * list Event)) :
  groupByMember events [] = Gedcom.Ok groups ->
  NoDup (List.map fst groups) /\
  (forall k es, In (k, es) groups ->
     es <> [] /\ forall e, In e es -> memberKey e = k) /\
  concat (List.map snd groups) ≡ₚ events.
Proof.
  intros Hrun.
  destruct (groupByMember_grouped events [] groups Hrun) as [[G1 G2] G3].
  { split; [apply NoDup_nil_2 | constructor]. }
  split; [exact G1|]. split; [| exact G3].
  intros k es Hin. rewrite Forall_forall in G2.
  destruct (G2 (k, es)) as [Hne Hk]; [apply list_elem_of_In; exact Hin|].
  cbn in Hne, Hk. split; [exact Hne|]. intros e He. rewrite Forall_forall in Hk.
  apply Hk. apply list_elem_of_In. exact He.
Qed.

Lemma groupByMember_partitions_witness :
  exists groups,
    groupByMember [RoutesSpec.janeBirth; RoutesSpec.janeDeath] [] = Gedcom.Ok groups /\
    concat (List.map snd groups) ≡ₚ [RoutesSpec.janeBirth; RoutesSpec.janeDeath].
Proof.
  eexists. split; [reflexivity|].
  apply (groupByMember_partitions [RoutesSpec.janeBirth; RoutesSpec.janeDeath] _ eq_refl).
Defined.

Lemma insertSorted_perm (host : string -> option Z) (x : Event) (l : list Event) :
  insertSorted host x l ≡ₚ x :: l.
Proof.
  induction l as [|y r IH]; cbn [insertSorted]; [reflexivity|].
  destruct (notAfter host x y); [reflexivity|]. rewrite IH. apply perm_swap.
Qed.

Lemma insertSorted_atTime (host : string -> option Z) (t : Z) (x : Event) (l : list Event) :
  atTime host t (insertSorted host x l) = atTime host t (x :: l).
Proof.
  unfold atTime. induction l as [|y r IH]; cbn [insertSorted]; [reflexivity|].
  destruct (notAfter host x y) eqn:Hxy; [reflexivity|].
  cbn [List.filter] in *. rewrite IH.
  unfold notAfter in Hxy.
  destruct (eventTime host x) as [tx|] eqn:Hx; [| discriminate].
  destruct (eventTime host y) as [ty|] eqn:Hy; [| discriminate].
  apply Z.leb_gt in Hxy.
  destruct (bool_decide (Some tx = Some t)) eqn:Dx; [| reflexivity].
  apply bool_decide_eq_true in Dx. injection Dx as ->.
  rewrite (bool_decide_eq_false_2 (Some ty = Some t)); [reflexivity|].
  intros [= ->]. lia.
Qed.

Lemma insertSorted_sorted (host : string -> option Z) (x : Event) (l : list Event) :
  (exists tx, eventTime host x = Some tx) ->
  Forall (fun e => exists t, eventTime host e = Some t) l ->
  StronglySorted (inOrder host) l ->
  StronglySorted (inOrder host) (insertSorted host x l).
Proof.
  intros [tx Hx] Hdef Hs. induction l as [|y r IH]; cbn [insertSorted].
  - repeat constructor.
  - pose proof (Forall_inv Hdef) as [ty Hy]. pose proof (Forall_inv_tail Hdef) as Hdef'.
    apply StronglySorted_inv in Hs as [Hs' Hall].
    unfold notAfter. rewrite Hx, Hy. destruct (tx <=? ty) eqn:Hle.
    + apply Z.leb_le in Hle. constructor; [constructor; assumption|].
      constructor; [exists tx, ty; auto|].
      eapply Forall_impl; [exact Hall|]. intros z (ty' & tz & Hy' & Hz & Hyz).
      exists tx, tz. rewrite Hy in Hy'. injection Hy' as <-. repeat split; auto. lia.
    + apply Z.leb_gt in Hle. constructor; [apply IH; assumption|].
      rewrite insertSorted_perm. constructor; [| exact Hall].
      exists ty, tx. repeat split; auto. lia.
Qed.

Lemma stableSort_perm (host : string -> option Z) (l : list Event) :
  fold_right (insertSorted host) [] l ≡ₚ l.
Proof.
  induction l as [|x r IH]; cbn [fold_right]; [reflexivity|].
  rewrite insertSorted_perm, IH. reflexivity.
Qed.

Lemma allParse_Forall (host : string -> option Z) (l : list Event) :
  allParse host l = true <-> Forall (fun e => exists t, eventTime host e = Some t) l.
Proof.
  unfold allParse. rewrite forallb_forall, Forall_forall. split; intros H e He.
  - apply list_elem_of_In in He. specialize (H e He).
    destruct (eventTime host e) as [t|]; [eauto | discriminate].
  - apply list_elem_of_In in He. destruct (H e He) as [t ->]. reflexivity.
Qed.

(** X16: the sort of a member's events keeps every event exactly once.
    When every event date has a time value (an event without a date
    counting as 1900-01-01), the result is in ascending order of time value
    and events with the same time value keep their order (the sort is
    stable).  When a date has no time value, only the first part is
    promised: the order is the engine's. *)
Theorem sortEvents_is_a_stable_sort (engine : Engine) (l : list Event) :
  sortEvents engine l ≡ₚ l /\
  (Forall (fun e => exists t, eventTime (parseDate engine) e = Some t) l ->
   (forall t, atTime (parseDate engine) t (sortEvents engine l) =
              atTime (parseDate engine) t l) /\
   StronglySorted (inOrder (parseDate engine)) (sortEvents engine l)).
Proof.
  unfold sortEvents. split.
  - destruct (allParse (parseDate engine) l); [apply stableSort_perm | apply reorder_perm].
  - intros Hdef. rewrite (proj2 (allParse_Forall _ _) Hdef). split.
    + intros t. clear Hdef. induction l as [|x r IH]; cbn [fold_right]; [reflexivity|].
      rewrite insertSorted_atTime. unfold atTime in *. cbn [List.filter]. rewrite IH.
      reflexivity.
    + induction l as [|x r IH]; cbn [fold_right]; [constructor|].
      pose proof (Forall_inv Hdef) as Hx. pose proof (Forall_inv_tail Hdef) as Hr.
      apply insertSorted_sorted; [exact Hx | | apply IH; exact Hr].
      rewrite stableSort_perm. exact Hr.
Qed.

(** An array of one event is left as it is, whatever its date. *)
Lemma sortEvents_one (engine : Engine) (e : Event) : sortEvents engine [e] = [e].
Proof.
  unfold sortEvents. destruct (allParse (parseDate engine) [e]); [reflexivity|].
  apply Permutation_singleton_r. apply reorder_perm.
Qed.

Lemma insertIndex_perm {A : Type} (v : Z) (x : A) (l : list (Z * A)) :
  insertIndex v x l ≡ₚ (v, x) :: l.
Proof.
  induction l as [|[v' y] r IH]; cbn [insertIndex]; [reflexivity|].
  destruct (v <? v'); [reflexivity|]. rewrite IH. apply perm_swap.
Qed.

Lemma indexed_perm {A : Type} (obj : list (string * A)) :
  forall acc,
    List.map snd
      (fold_left
         (fun acc kv =>
            match arrayIndex (fst kv) with
            | Some v => insertIndex v kv acc
            | None => acc
            end) obj acc) ≡ₚ
    List.map snd acc ++
    List.filter (fun kv => bool_decide (is_Some (arrayIndex (fst kv)))) obj.
Proof.
  induction obj as [|kv rest IH]; intros acc; cbn [fold_left List.filter].
  - rewrite app_nil_r. reflexivity.
  - rewrite IH. destruct (arrayIndex (fst kv)) as [v|] eqn:Hv.
    + rewrite bool_decide_eq_true_2 by eauto.
      rewrite insertIndex_perm. cbn [List.map snd app]. apply Permutation_middle.
    + rewrite bool_decide_eq_false_2 by (intros [? ?]; discriminate). reflexivity.
Qed.

Lemma filter_split {A : Type} (f : A -> bool) (l : list A) :
  List.filter f l ++ List.filter (fun x => negb (f x)) l ≡ₚ l.
Proof.
  induction l as [|x r IH]; cbn [List.filter]; [reflexivity|].
  destruct (f x); cbn [negb app].
  - rewrite IH. reflexivity.
  - rewrite <- Permutation_middle. rewrite IH. reflexivity.
Qed.

(** [Object.entries] lists every own property exactly once. *)
Lemma entries_perm {A : Type} (obj : list (string * A)) : entries obj ≡ₚ obj.
Proof.
  unfold entries. rewrite indexed_perm. cbn [List.map app]. apply filter_split.
Qed.

Lemma story_of_nothing (engine : Engine) (members : list FamilyMember)
    (locations : list Location) (l : list (string * list Event)) :
  Forall (fun entry => findMember members (fst entry) = None) l ->
  fold_left (fun story entry => story +:+ memberText engine members locations entry) l "" = "".
Proof.
  induction 1 as [|entry rest Hentry _ IH]; cbn [fold_left]; [reflexivity|].
  unfold memberText at 2. rewrite Hentry. exact IH.
Qed.

(** X17: when none of the events belongs to one of the given members, the
    story is the empty string: events of members that are not passed
    along add nothing, not even a separator. *)
Theorem story_of_unknown_members_is_empty (engine : Engine)
    (events : list Event) (members : list FamilyMember) (locations : list Location)
    (story : string) :
  generateStoryFromEvents engine events members locations = Gedcom.Ok story ->
  (forall e, In e events -> findMember members (memberKey e) = None) ->
  story = "".
Proof.
  unfold generateStoryFromEvents. destruct events as [|e0 rest]; [intros [= <-]; reflexivity|].
  destruct (groupByMember (e0 :: rest) []) as [groups|] eqn:Hg; [| discriminate].
  cbn [Gedcom.bind]. intros [= <-] Hnone.
  destruct (groupByMember_grouped _ _ _ Hg) as [[_ G2] G3];
    [split; [apply NoDup_nil_2 | constructor]|].
  rewrite story_of_nothing; [reflexivity|].
  apply Forall_forall. intros [k es] Hin. rewrite entries_perm in Hin.
  rewrite Forall_forall in G2. destruct (G2 _ Hin) as [Hne Hk]. cbn in Hne, Hk.
  destruct es as [|e es]; [contradiction|].
  pose proof (Forall_inv Hk) as Hke. cbn in Hke. cbn [fst]. rewrite <- Hke. apply Hnone.
  apply list_elem_of_In. rewrite <- G3. apply list_elem_of_In.
  apply in_concat. exists (e :: es). split; [| left; reflexivity].
  apply list_elem_of_In in Hin. apply (in_map snd) in Hin. exact Hin.
Qed.

Lemma story_of_unknown_members_is_empty_witness :
  generateStoryFromEvents RoutesSpec.plainEngine [RoutesSpec.janeBirth; RoutesSpec.janeDeath]
    [] [RoutesSpec.boston] = Gedcom.Ok "".
Proof.
  assert (H : exists story,
             generateStoryFromEvents RoutesSpec.plainEngine
               [RoutesSpec.janeBirth; RoutesSpec.janeDeath] [] [RoutesSpec.boston] =
             Gedcom.Ok story) by (eexists; reflexivity).
  destruct H as [story Hs]. rewrite Hs. f_equal.
  apply (story_of_unknown_members_is_empty _ _ _ _ _ Hs). intros e _. reflexivity.
Defined.

End StoryProperties.

(** ** The years read from dates *)

Section YearProperties.

Import Storage Pdf PdfSpec.

Lemma isDigit_range (c : ascii) :
  Routes.isDigit c = true <-> (48 <= nat_of_ascii c <= 57)%nat.
Proof.
  unfold Routes.isDigit. rewrite andb_true_iff, !Nat.leb_le. reflexivity.
Qed.

Lemma digitValue_digit (c : ascii) :
  Routes.isDigit c = true ->
  JS.digitValue 10 c = Some (Z.of_nat (nat_of_ascii c) - 48).
Proof.
  intros H. apply isDigit_range in H. unfold JS.digitValue.
  destruct (48 <=? Z.of_nat (nat_of_ascii c)) eqn:E1; [| apply Z.leb_gt in E1; lia].
  destruct (Z.of_nat (nat_of_ascii c) <=? 57) eqn:E2; [| apply Z.leb_gt in E2; lia].
  cbn [andb]. destruct (Z.of_nat (nat_of_ascii c) - 48 <? 10) eqn:E3; [reflexivity|].
  apply Z.ltb_ge in E3. lia.
Qed.

(** The value of four decimal digits. *)
Lemma digits_four (a b c d : ascii) :
  Routes.isDigit a = true -> Routes.isDigit b = true ->
  Routes.isDigit c = true -> Routes.isDigit d = true ->
  JS.digits 10 None (String a (String b (String c (String d "")))) =
  Some ((((Z.of_nat (nat_of_ascii a) - 48) * 10 + (Z.of_nat (nat_of_ascii b) - 48)) * 10
         + (Z.of_nat (nat_of_ascii c) - 48)) * 10 + (Z.of_nat (nat_of_ascii d) - 48)).
Proof.
  intros Ha Hb Hc Hd. cbn [JS.digits].
  rewrite (digitValue_digit a Ha), (digitValue_digit b Hb), (digitValue_digit c Hc),
    (digitValue_digit d Hd). cbn [default]. f_equal; lia.
Qed.

Lemma digit_not_space (a : ascii) : Routes.isDigit a = true -> JS.isWhiteSpace a = false.
Proof.
  intros Ha. destruct a as [[] [] [] [] [] [] [] []]; try discriminate Ha; reflexivity.
Qed.

Lemma parseInt_digits (a b : ascii) (r : string) :
  Routes.isDigit a = true -> Routes.isDigit b = true ->
  JS.parseInt (String a (String b r)) = JS.digits 10 None (String a (String b r)).
Proof.
  intros Ha Hb. unfold JS.parseInt. cbn [JS.trimStart].
  rewrite (digit_not_space a Ha).
  destruct a as [[] [] [] [] [] [] [] []]; try discriminate Ha;
    destruct b as [[] [] [] [] [] [] [] []]; try discriminate Hb;
    cbv beta iota zeta;
    match goal with |- context [JS.digits 10 None ?s] => destruct (JS.digits 10 None s) end;
    reflexivity.
Qed.

Lemma length_append (s t : string) :
  String.length (s +:+ t) = (String.length s + String.length t)%nat.
Proof.
  induction s as [|a s IH]; [reflexivity|].
  change (S (String.length (s +:+ t)) = S (String.length s + String.length t)).
  rewrite IH. reflexivity.
Qed.

Lemma matchYear_Some (s m : string) :
  matchYear s = Some m ->
  exists pre post a b c d,
    s = pre +:+ m +:+ post /\ m = String a (String b (String c (String d ""))) /\
    Routes.isDigit a = true /\ Routes.isDigit b = true /\
    Routes.isDigit c = true /\ Routes.isDigit d = true.
Proof.
  induction s as [|a r IH]; [discriminate|]. cbn [matchYear].
  destruct r as [|b [|c [|d rest]]]; try discriminate.
  destruct (Routes.isDigit a && Routes.isDigit b && Routes.isDigit c && Routes.isDigit d)
    eqn:Hd.
  - intros [= <-]. apply andb_true_iff in Hd as [Hd H4]. apply andb_true_iff in Hd as [Hd H3].
    apply andb_true_iff in Hd as [H1 H2].
    exists "", rest, a, b, c, d. repeat split; auto.
  - intros H. destruct (IH H) as (pre & post & a' & b' & c' & d' & Hs & Hm & Hds).
    exists (String a pre), post, a', b', c', d'. split; [| split; assumption].
    rewrite Hs. reflexivity.
Qed.

(** [parseInt] of a match of [/\d{4}/] is a number between 0 and 9999. *)
Lemma matchYear_parseInt (s m : string) :
  matchYear s = Some m -> exists v, JS.parseInt m = Some v /\ 0 <= v <= 9999.
Proof.
  intros H. destruct (matchYear_Some s m H) as (_ & _ & a & b & c & d & _ & -> & Ha & Hb & Hc & Hd).
  rewrite parseInt_digits by assumption. rewrite digits_four by assumption.
  eexists. split; [reflexivity|].
  apply isDigit_range in Ha, Hb, Hc, Hd. lia.
Qed.

Lemma extractYear_range (dateStr : option string) : 0 <= extractYear dateStr <= 9999.
Proof.
  destruct dateStr as [s|]; cbn [extractYear]; [| lia].
  destruct (JS.nonEmpty s); [| lia].
  destruct (matchYear s) as [m|] eqn:Hm; [| lia].
  destruct (matchYear_parseInt s m Hm) as (v & -> & Hr). exact Hr.
Qed.

(** X18: the year read from a date is between 0 and 9999; it is 0 for a
    missing date and for a text of fewer than four characters; and a
    non-zero year is always the value of four consecutive decimal digits
    of the text. *)
Theorem extractYear_range_and_origin (dateStr : option string) :
  0 <= extractYear dateStr <= 9999 /\
  (dateStr = None -> extractYear dateStr = 0) /\
  (forall s, dateStr = Some s -> (String.length s < 4)%nat -> extractYear dateStr = 0) /\
  (extractYear dateStr <> 0 ->
   exists s pre m post,
     dateStr = Some s /\ s = pre +:+ m +:+ post /\
     String.length m = 4%nat /\ Routes.allDigits m = true /\
     JS.parseInt m = Some (extractYear dateStr)).
Proof.
  destruct dateStr as [s|]; cbn [extractYear]; [| repeat split; try lia; congruence].
  destruct (JS.nonEmpty s) eqn:Hne.
  - destruct (matchYear s) as [m|] eqn:Hm.
    + destruct (matchYear_parseInt s m Hm) as (v & Hv & Hr). rewrite Hv. cbn [default].
      split; [exact Hr|]. split; [discriminate|]. split.
      * intros s' [= <-] Hlen. exfalso.
        destruct (matchYear_Some s m Hm) as (pre & post & a & b & c & d & Hs & -> & _).
        rewrite Hs in Hlen. rewrite !length_append in Hlen. cbn in Hlen. lia.
      * intros _. destruct (matchYear_Some s m Hm) as (pre & post & a & b & c & d & Hs & -> & Ha & Hb & Hc & Hd).
        exists s, pre, (String a (String b (String c (String d "")))), post.
        repeat split; auto. cbn. rewrite Ha, Hb, Hc, Hd. reflexivity.
    + repeat split; try lia; congruence.
  - repeat split; try lia; congruence.
Qed.

End YearProperties.
(** ** The time span of a family *)

Section TimeSpanProperties.

Import Storage Pdf PdfSpec.

Lemma minimum_spec (l : list Z) (lo : Z) :
  minimum l = Some lo -> In lo l /\ forall y, In y l -> lo <= y.
Proof.
  destruct l as [|x r]; [discriminate|]. cbn [minimum]. intros [= <-].
  induction r as [|z r [IHin IHle]]; cbn [fold_right].
  - split; [left; reflexivity|]. intros y [<-|[]]. lia.
  - split.
    + destruct (Z.min_spec z (fold_right Z.min x r)) as [[_ ->]|[_ ->]].
      * right; left; reflexivity.
      * destruct IHin as [<-|Hin]; [left; reflexivity | right; right; exact Hin].
    + intros y [Hy|[Hy|Hin]].
      * specialize (IHle y (or_introl Hy)). lia.
      * lia.
      * specialize (IHle y (or_intror Hin)). lia.
Qed.

Lemma maximum_spec (l : list Z) (hi : Z) :
  maximum l = Some hi -> In hi l /\ forall y, In y l -> y <= hi.
Proof.
  destruct l as [|x r]; [discriminate|]. cbn [maximum]. intros [= <-].
  induction r as [|z r [IHin IHle]]; cbn [fold_right].
  - split; [left; reflexivity|]. intros y [<-|[]]. lia.
  - split.
    + destruct (Z.max_spec z (fold_right Z.max x r)) as [[_ ->]|[_ ->]].
      * destruct IHin as [<-|Hin]; [left; reflexivity | right; right; exact Hin].
      * right; left; reflexivity.
    + intros y [Hy|[Hy|Hin]].
      * specialize (IHle y (or_introl Hy)). lia.
      * lia.
      * specialize (IHle y (or_intror Hin)). lia.
Qed.

(** The filter on truthy dates drops nothing that has a year: a missing
    or empty date has year 0. *)
Lemma memberYears_In (familyMembers : list FamilyMember) (y : Z) :
  In y (memberYears familyMembers) <-> isYearOf familyMembers y.
Proof.
  unfold memberYears, isYearOf.
  rewrite List.filter_In, List.in_map_iff. split.
  - intros [(d & <- & Hd) Hpos]. apply List.filter_In in Hd as [Hd _].
    apply List.in_flat_map in Hd as (m & Hm & Hd).
    split; [apply Z.ltb_lt; exact Hpos|].
    exists m. split; [exact Hm|].
    destruct Hd as [<-|[<-|[]]]; [left | right]; reflexivity.
  - intros [Hpos (m & Hm & Hy)].
    split; [| apply Z.ltb_lt; exact Hpos].
    assert (Hd : forall d, y = extractYear d -> JS.truthy d = true).
    { intros [s|] ->; cbn in Hpos |- *; [| lia].
      destruct (JS.nonEmpty s); [reflexivity | lia]. }
    destruct Hy as [Hy|Hy].
    + exists (fm_birthDate m). split; [symmetry; exact Hy|].
      apply List.filter_In. split; [| exact (Hd _ Hy)].
      apply List.in_flat_map. exists m. split; [exact Hm | left; reflexivity].
    + exists (fm_deathDate m). split; [symmetry; exact Hy|].
      apply List.filter_In. split; [| exact (Hd _ Hy)].
      apply List.in_flat_map. exists m. split; [exact Hm | right; left; reflexivity].
Qed.

(** The early return for an empty family is subsumed by the one for no
    years. *)
Lemma calculateTimeSpan_eq (familyMembers : list FamilyMember) :
  calculateTimeSpan familyMembers =
  match minimum (memberYears familyMembers), maximum (memberYears familyMembers) with
  | Some minYear, Some maxYear => showInt minYear +:+ " - " +:+ showInt maxYear
  | _, _ => ""
  end.
Proof. destruct familyMembers; reflexivity. Qed.

(** X19: the time span of a family is empty exactly when no birth or
    death date of a member holds a positive year; otherwise it is
    [lo - hi] where [lo] and [hi] are such years and every such year lies
    between them. *)
Theorem calculateTimeSpan_bounds (familyMembers : list FamilyMember) :
  ((forall y, ~ isYearOf familyMembers y) /\ calculateTimeSpan familyMembers = "") \/
  (exists lo hi,
     calculateTimeSpan familyMembers = showInt lo +:+ " - " +:+ showInt hi /\
     isYearOf familyMembers lo /\ isYearOf familyMembers hi /\
     forall y, isYearOf familyMembers y -> lo <= y <= hi).
Proof.
  rewrite calculateTimeSpan_eq.
  destruct (memberYears familyMembers) as [|y0 ys] eqn:Hy.
  - left. split; [| reflexivity].
    intros y Hyr. apply memberYears_In in Hyr. rewrite Hy in Hyr. destruct Hyr.
  - right.
    destruct (minimum (y0 :: ys)) as [lo|] eqn:Hlo; [| discriminate].
    destruct (maximum (y0 :: ys)) as [hi|] eqn:Hhi; [| discriminate].
    rewrite <- Hy in Hlo, Hhi.
    apply minimum_spec in Hlo as [Hlo1 Hlo2]. apply maximum_spec in Hhi as [Hhi1 Hhi2].
    exists lo, hi. refine (conj _ (conj _ (conj _ _))).
    + reflexivity.
    + apply memberYears_In; exact Hlo1.
    + apply memberYears_In; exact Hhi1.
    + intros y Hyr. apply memberYears_In in Hyr. split; [apply Hlo2 | apply Hhi2]; exact Hyr.
Qed.

(** The years are rendered in decimal: a family whose only years are
    1850 and 1920 spans "1850 - 1920". *)
Lemma showInt_year (y : Z) : 0 < y -> showInt y = JS.showNat (Z.to_nat y).
Proof. intros H. unfold showInt. destruct (Z.ltb_spec y 0); [lia | reflexivity]. Qed.

End TimeSpanProperties.
(** ** Generations *)

Section GenerationProperties.

Import Storage Pdf PdfSpec.

Lemma flatten_pushAt (i : nat) (m : FamilyMember) :
  forall generations, flatten (pushAt i m generations) ≡ₚ m :: flatten generations.
Proof.
  unfold flatten. induction i as [|i IH]; intros [|g rest]; cbn [pushAt List.map concat default from_option id].
  - reflexivity.
  - rewrite <- app_assoc. cbn [app]. symmetry. apply Permutation_middle.
  - rewrite (IH []). reflexivity.
  - rewrite (IH rest). symmetry. apply Permutation_middle.
Qed.

Lemma compact_concat (generations : list (option (list FamilyMember))) :
  concat (compact generations) = flatten generations.
Proof.
  unfold flatten. induction generations as [|[[|m g]|] rest IH];
    cbn [compact List.map concat default]; rewrite ?IH; reflexivity.
Qed.

Lemma compact_elem (generations : list (option (list FamilyMember))) (g : list FamilyMember) :
  In g (compact generations) -> g <> [] /\ exists k, generations !! k = Some (Some g).
Proof.
  induction generations as [|[[|m g0]|] rest IH]; cbn [compact].
  - intros [].
  - intros H. destruct (IH H) as [Hne [k Hk]]. split; [exact Hne|]. exists (S k). exact Hk.
  - intros [<-|H].
    + split; [discriminate|]. exists 0%nat. reflexivity.
    + destruct (IH H) as [Hne [k Hk]]. split; [exact Hne|]. exists (S k). exact Hk.
  - intros H. destruct (IH H) as [Hne [k Hk]]. split; [exact Hne|]. exists (S k). exact Hk.
Qed.

Lemma pushAt_slots (Q : nat -> FamilyMember -> Prop) (i : nat) (m : FamilyMember) :
  forall generations,
    (forall k g, generations !! k = Some (Some g) -> Forall (Q k) g) ->
    Q i m ->
    forall k g, pushAt i m generations !! k = Some (Some g) -> Forall (Q k) g.
Proof.
  revert Q. induction i as [|i IH]; intros Q [|g0 rest] H Hq [|k] g; cbn [pushAt]; cbn.
  - intros [= <-]. apply Forall_singleton. exact Hq.
  - discriminate.
  - intros [= <-]. apply Forall_app. split; [| apply Forall_singleton; exact Hq].
    destruct g0 as [g0|]; [apply (H 0%nat); reflexivity | apply Forall_nil_2].
  - intros Hk. apply (H (S k)). exact Hk.
  - discriminate.
  - apply (IH (fun k => Q (S k)) []); [| exact Hq]. intros k' g' Hk'. discriminate Hk'.
  - intros Hk. apply (H 0%nat). exact Hk.
  - apply (IH (fun k => Q (S k)) rest); [| exact Hq]. intros k' g' Hk'. apply (H (S k')). exact Hk'.
Qed.

(** The index of a member of the list is always an array index: a
    positive birth year is never before the earliest one. *)
Lemma generationIndex_Some (members : list FamilyMember) (m : FamilyMember) :
  In m members ->
  exists i, generationIndex (earliestYear members) (extractYear (fm_birthDate m)) = Some i.
Proof.
  intros Hm. unfold generationIndex.
  destruct (Z.ltb_spec 0 (extractYear (fm_birthDate m))) as [Hpos|Hpos]; [| eexists; reflexivity].
  assert (Hin : In (extractYear (fm_birthDate m))
                  (List.filter (fun y => 0 <? y)
                     (List.map (fun m => extractYear (fm_birthDate m)) members))).
  { apply List.filter_In. split; [| apply Z.ltb_lt; exact Hpos].
    apply List.in_map_iff. exists m. split; [reflexivity | exact Hm]. }
  unfold earliestYear.
  destruct (minimum _) as [e|] eqn:He.
  - apply minimum_spec in He as [_ Hle]. specialize (Hle _ Hin).
    destruct (Z.ltb_spec ((extractYear (fm_birthDate m) - e) / 30) 0) as [Hneg|_];
      [| eexists; reflexivity].
    exfalso. assert (0 <= (extractYear (fm_birthDate m) - e) / 30) by (apply Z.div_pos; lia). lia.
  - exfalso. destruct (List.filter _ _); [destruct Hin | discriminate He].
Qed.

Lemma place_fold (earliest : option Z) (l : list FamilyMember) :
  forall generations,
    (forall m, In m l -> exists i, generationIndex earliest (extractYear (fm_birthDate m)) = Some i) ->
    slotsOk earliest generations ->
    flatten (fold_left (place earliest) l generations) ≡ₚ flatten generations ++ l /\
    slotsOk earliest (fold_left (place earliest) l generations).
Proof.
  induction l as [|m l IH]; intros generations Hidx Hok; cbn [fold_left].
  - rewrite app_nil_r. split; [reflexivity | exact Hok].
  - destruct (Hidx m (or_introl eq_refl)) as [i Hi].
    assert (Hp : place earliest generations m = pushAt i m generations)
      by (unfold place; rewrite Hi; reflexivity).
    rewrite Hp.
    destruct (IH (pushAt i m generations)) as [Hperm Hok'].
    + intros m' Hm'. apply Hidx. right. exact Hm'.
    + unfold slotsOk. apply pushAt_slots; [exact Hok | exact Hi].
    + split; [| exact Hok'].
      rewrite Hperm, flatten_pushAt. apply Permutation_middle.
Qed.

(** Two years with the same index are less than a generation apart. *)
Lemma same_index_close (e b1 b2 : Z) (k : nat) :
  0 < b1 -> 0 < b2 ->
  generationIndex (Some e) b1 = Some k -> generationIndex (Some e) b2 = Some k ->
  -30 < b1 - b2 < 30.
Proof.
  unfold generationIndex. intros H1 H2.
  destruct (Z.ltb_spec 0 b1); [| lia]. destruct (Z.ltb_spec 0 b2); [| lia].
  destruct (Z.ltb_spec ((b1 - e) / 30) 0); [discriminate|].
  destruct (Z.ltb_spec ((b2 - e) / 30) 0); [discriminate|].
  intros [= E1] [= E2].
  assert (E : (b1 - e) / 30 = (b2 - e) / 30) by lia.
  pose proof (Z.div_mod (b1 - e) 30 ltac:(lia)) as D1.
  pose proof (Z.div_mod (b2 - e) 30 ltac:(lia)) as D2.
  pose proof (Z.mod_pos_bound (b1 - e) 30 ltac:(lia)).
  pose proof (Z.mod_pos_bound (b2 - e) 30 ltac:(lia)).
  lia.
Qed.

(** X20: the generations partition the members: every member is in
    exactly one group and no group is empty; two members of a group with
    birth years are born less than 30 years apart; and a member without a
    birth year shares its group only with members born less than 30 years
    after the earliest birth year. *)
Theorem groupByGeneration_partitions (members : list FamilyMember) :
  concat (groupByGeneration members) ≡ₚ members /\
  Forall (fun g => g <> []) (groupByGeneration members) /\
  forall g m1 m2,
    In g (groupByGeneration members) -> In m1 g -> In m2 g ->
    0 < extractYear (fm_birthDate m2) ->
    (0 < extractYear (fm_birthDate m1) ->
     -30 < extractYear (fm_birthDate m1) - extractYear (fm_birthDate m2) < 30) /\
    (extractYear (fm_birthDate m1) = 0 ->
     exists e, earliestYear members = Some e /\
               e <= extractYear (fm_birthDate m2) < e + 30).
Proof.
  assert (Hgen : groupByGeneration members =
                 compact (fold_left (place (earliestYear members)) members []))
    by (destruct members; reflexivity).
  rewrite Hgen.
  destruct (place_fold (earliestYear members) members []) as [Hperm Hok].
  { intros m Hm. apply generationIndex_Some. exact Hm. }
  { intros k g Hk. destruct k; discriminate Hk. }
  refine (conj _ (conj _ _)).
  - rewrite compact_concat. exact Hperm.
  - apply Forall_forall. intros g Hg. apply list_elem_of_In in Hg.
    apply compact_elem in Hg as [Hne _]. exact Hne.
  - intros g m1 m2 Hg Hm1 Hm2 Hpos2.
    apply compact_elem in Hg as [_ [k Hk]].
    specialize (Hok k g Hk). rewrite Forall_forall in Hok.
    pose proof (Hok m1 (proj2 (list_elem_of_In _ _) Hm1)) as I1.
    pose proof (Hok m2 (proj2 (list_elem_of_In _ _) Hm2)) as I2.
    cbv beta in I1, I2.
    destruct (earliestYear members) as [e|] eqn:He.
    + split.
      * intros Hpos1. exact (same_index_close e _ _ k Hpos1 Hpos2 I1 I2).
      * intros Hz. exists e. split; [reflexivity|].
        unfold generationIndex in I1, I2. rewrite Hz in I1. cbn in I1.
        injection I1 as <-.
        destruct (Z.ltb_spec 0 (extractYear (fm_birthDate m2))); [| lia].
        destruct (Z.ltb_spec ((extractYear (fm_birthDate m2) - e) / 30) 0); [discriminate|].
        injection I2 as E2.
        assert (E : (extractYear (fm_birthDate m2) - e) / 30 = 0) by lia.
        pose proof (Z.div_mod (extractYear (fm_birthDate m2) - e) 30 ltac:(lia)) as D.
        pose proof (Z.mod_pos_bound (extractYear (fm_birthDate m2) - e) 30 ltac:(lia)).
        lia.
    + exfalso. unfold generationIndex in I2.
      destruct (Z.ltb_spec 0 (extractYear (fm_birthDate m2))); [discriminate | lia].
Qed.

End GenerationProperties.
(** ** Orders of the printed pages and the map filter *)

Section OrderProperties.

Import Storage Pdf PdfSpec.

Context {A : Type} (key : A -> Z).

Lemma insertBy_perm (x : A) (l : list A) : insertBy key x l ≡ₚ x :: l.
Proof.
  induction l as [|y l IH]; cbn [insertBy]; [reflexivity|].
  destruct (key x <=? key y); [reflexivity|].
  rewrite IH. apply Permutation_swap.
Qed.

Lemma sortBy_perm (l : list A) : sortBy key l ≡ₚ l.
Proof.
  unfold sortBy. induction l as [|x l IH]; cbn [fold_right]; [reflexivity|].
  rewrite insertBy_perm, IH. reflexivity.
Qed.

Lemma insertBy_sorted (x : A) (l : list A) :
  StronglySorted (fun a b => key a <= key b) l ->
  StronglySorted (fun a b => key a <= key b) (insertBy key x l).
Proof.
  induction 1 as [|y l Hs IH Hall]; cbn [insertBy].
  - constructor; [constructor | constructor].
  - destruct (Z.leb_spec (key x) (key y)) as [Hle|Hgt].
    + constructor; [constructor; assumption|].
      constructor; [exact Hle|].
      eapply List.Forall_impl; [| exact Hall]. cbv beta. intros. lia.
    + constructor; [exact IH|].
      assert (Hp : Forall (fun b => key y <= key b) (x :: l))
        by (constructor; [lia | exact Hall]).
      rewrite <- (insertBy_perm x l) in Hp. exact Hp.
Qed.

Lemma sortBy_sorted (l : list A) :
  StronglySorted (fun a b => key a <= key b) (sortBy key l).
Proof.
  unfold sortBy. induction l as [|x l IH]; cbn [fold_right]; [constructor|].
  apply insertBy_sorted. exact IH.
Qed.

Lemma insertBy_filter (t : Z) (x : A) (l : list A) :
  List.filter (fun a => key a =? t) (insertBy key x l) =
  List.filter (fun a => key a =? t) (x :: l).
Proof.
  induction l as [|y l IH]; cbn [insertBy]; [reflexivity|].
  destruct (Z.leb_spec (key x) (key y)) as [Hle|Hgt]; [reflexivity|].
  cbn [List.filter] in IH |- *. rewrite IH.
  destruct (Z.eqb_spec (key x) t) as [Hx|Hx]; [| reflexivity].
  destruct (Z.eqb_spec (key y) t) as [Hy|Hy]; [lia | reflexivity].
Qed.

Lemma sortBy_stable (t : Z) (l : list A) :
  List.filter (fun a => key a =? t) (sortBy key l) = List.filter (fun a => key a =? t) l.
Proof.
  unfold sortBy. induction l as [|x l IH]; cbn [fold_right]; [reflexivity|].
  rewrite insertBy_filter. cbn [List.filter]. rewrite IH. reflexivity.
Qed.

End OrderProperties.

Section PageProperties.

Import Storage Pdf PdfSpec.

Lemma memberEvents_years (member : FamilyMember) :
  Forall (fun e => te_year e = extractYear (Some (te_date e)) /\ te_date e <> "")
    (memberEvents member).
Proof.
  unfold memberEvents. apply Forall_app. split.
  - destruct (fm_birthDate member) as [s|]; cbn [JS.truthy]; [| constructor].
    destruct (JS.nonEmpty s) eqn:Hs; [| constructor].
    constructor; [| constructor]. cbn. split; [reflexivity|].
    intros ->. discriminate Hs.
  - destruct (fm_deathDate member) as [s|]; cbn [JS.truthy]; [| constructor].
    destruct (JS.nonEmpty s) eqn:Hs; [| constructor].
    constructor; [| constructor]. cbn. split; [reflexivity|].
    intros ->. discriminate Hs.
Qed.

(** X21: the timeline page prints one entry for every non-empty birth
    date and one for every non-empty death date, nothing else; the
    entries are in ascending order of their years, entries of the same
    year in the order they were collected; and the year of an entry is the
    year read from the date it shows, so an entry whose date holds no
    four digits has year 0 and comes before every dated one. *)
Theorem timelineEvents_sorted (familyMembers : list FamilyMember) :
  timelineEvents familyMembers ≡ₚ flat_map memberEvents familyMembers /\
  length (timelineEvents familyMembers) =
    (length (List.filter (fun m => JS.truthy (fm_birthDate m)) familyMembers) +
     length (List.filter (fun m => JS.truthy (fm_deathDate m)) familyMembers))%nat /\
  StronglySorted (fun a b => te_year a <= te_year b) (timelineEvents familyMembers) /\
  (forall year,
     List.filter (fun e => te_year e =? year) (timelineEvents familyMembers) =
     List.filter (fun e => te_year e =? year) (flat_map memberEvents familyMembers)) /\
  Forall (fun e => te_year e = extractYear (Some (te_date e)) /\ 0 <= te_year e)
    (timelineEvents familyMembers).
Proof.
  unfold timelineEvents. refine (conj _ (conj _ (conj _ (conj _ _)))).
  - apply sortBy_perm.
  - rewrite (Permutation_length (sortBy_perm te_year _)).
    induction familyMembers as [|m ms IH]; [reflexivity|].
    cbn [flat_map List.filter]. rewrite length_app, IH. unfold memberEvents.
    destruct (JS.truthy (fm_birthDate m)), (JS.truthy (fm_deathDate m)); cbn; lia.
  - apply sortBy_sorted.
  - intros year. apply sortBy_stable.
  - rewrite (sortBy_perm te_year _).
    apply Forall_forall. intros e He. apply list_elem_of_In in He.
    apply List.in_flat_map in He as (m & _ & He).
    pose proof (memberEvents_years m) as Hm. rewrite Forall_forall in Hm.
    destruct (Hm e (proj2 (list_elem_of_In _ _) He)) as [Hy _].
    split; [exact Hy|]. rewrite Hy. apply extractYear_range.
Qed.

(** X22: the migration map draws every location once, in ascending order
    of the year read from its time span; locations with the same year,
    among them all those without a year, keep their given order. *)
Theorem sortedLocations_sorted (locations : list Location) :
  sortedLocations locations ≡ₚ locations /\
  StronglySorted
    (fun a b => extractYear (loc_timeSpan a) <= extractYear (loc_timeSpan b))
    (sortedLocations locations) /\
  forall year,
    List.filter (fun l => extractYear (loc_timeSpan l) =? year) (sortedLocations locations) =
    List.filter (fun l => extractYear (loc_timeSpan l) =? year) locations.
Proof.
  unfold sortedLocations. refine (conj _ (conj _ _)).
  - apply sortBy_perm.
  - apply (sortBy_sorted (fun l => extractYear (loc_timeSpan l))).
  - intros year. apply (sortBy_stable (fun l => extractYear (loc_timeSpan l))).
Qed.

Lemma shownAt_spec (timelineYear : Z) (location : Location) :
  shownAt timelineYear location = true <->
  (forall s m, loc_timeSpan location = Some s -> matchYear s = Some m ->
               extractYear (loc_timeSpan location) <= timelineYear).
Proof.
  unfold shownAt, extractYear. destruct (loc_timeSpan location) as [s|].
  - destruct (JS.nonEmpty s) eqn:Hs.
    + destruct (matchYear s) as [m|] eqn:Hm.
      * rewrite Z.leb_le. split; [intros H s' m' _ _; exact H|].
        intros H. exact (H s m eq_refl Hm).
      * split; [intros _ s' m' [= <-] Hm'; congruence | reflexivity].
    + split; [| reflexivity]. intros _ s' m' [= <-] Hm'.
      destruct s; [discriminate Hm' | discriminate Hs].
  - split; [intros _ s' m' [=] | reflexivity].
Qed.

(** X23: the timeline filter of the map hides a location only when its
    time span holds four consecutive digits whose value is after the
    chosen year.  Hence moving the timeline forward only adds locations:
    the locations shown at a year are a sublist of those shown at any
    later year, and from 9999 on every location is shown. *)
Theorem filteredLocations_monotone (locations : list Location) :
  (forall timelineYear location,
     In location (filteredLocations timelineYear locations) <->
     In location locations /\
     (forall s m, loc_timeSpan location = Some s -> matchYear s = Some m ->
                  extractYear (loc_timeSpan location) <= timelineYear)) /\
  (forall year1 year2, year1 <= year2 ->
     sublist (filteredLocations year1 locations) (filteredLocations year2 locations)) /\
  (forall timelineYear, 9999 <= timelineYear ->
     filteredLocations timelineYear locations = locations).
Proof.
  unfold filteredLocations. refine (conj _ (conj _ _)).
  - intros T l. rewrite List.filter_In, shownAt_spec. reflexivity.
  - intros T1 T2 HT. induction locations as [|l ls IH]; cbn [List.filter]; [constructor|].
    destruct (shownAt T1 l) eqn:H1.
    + assert (H2 : shownAt T2 l = true).
      { apply shownAt_spec. intros s m Hs Hm.
        pose proof (proj1 (shownAt_spec T1 l) H1 s m Hs Hm). lia. }
      rewrite H2. apply sublist_skip. exact IH.
    + destruct (shownAt T2 l); [apply sublist_cons | idtac]; exact IH.
  - intros T HT. induction locations as [|l ls IH]; cbn [List.filter]; [reflexivity|].
    assert (H : shownAt T l = true).
    { apply shownAt_spec. intros s m _ _.
      pose proof (extractYear_range (loc_timeSpan l)). lia. }
    rewrite H, IH. reflexivity.
Qed.

End PageProperties.

(** ** The pages on a small family *)

Section PageExamples.

Import Storage Pdf PdfSpec.

Example extractYear_gedcom_date : extractYear (Some "12 MAR 1850") = 1850.
Proof. vm_compute. reflexivity. Qed.

Example extractYear_short_number : extractYear (Some "Spring 850") = 0.
Proof. vm_compute. reflexivity. Qed.

Example extractYear_long_number : extractYear (Some "id 185012") = 1850.
Proof. vm_compute. reflexivity. Qed.

Example calculateTimeSpan_family :
  calculateTimeSpan
    [member "Ann" (Some "3 JAN 1880") (Some "1950"); member "Bob" (Some "ABT 1850") None;
     member "Cy" None (Some "")] = "1850 - 1950".
Proof. vm_compute. reflexivity. Qed.

Example groupByGeneration_family :
  List.map (List.map fm_name)
    (groupByGeneration
       [member "Ann" (Some "1850") None; member "Bob" None None;
        member "Cy" (Some "1915") None; member "Dee" (Some "1879") None]) =
  [["Ann"; "Bob"; "Dee"]; ["Cy"]].
Proof. vm_compute. reflexivity. Qed.

Example timelineEvents_family :
  List.map te_event
    (timelineEvents
       [member "Ann" (Some "1880") (Some "1950"); member "Bob" (Some "1850") (Some "unknown")]) =
  ["Bob died"; "Bob born"; "Ann born"; "Ann died"].
Proof. vm_compute. reflexivity. Qed.

End PageExamples.
